(** * FC4SC coverage merge tool: a shallow embedding of
      [tools/coverage_merge/merge.py] and the properties of its merge engine.

    The Python program keeps one [xml.etree.ElementTree] document, the merge
    database, and folds further documents into it in place.  Here an XML
    element is a value, a reference to an element of the merge database is a
    location (a path of child indexes from the root), and an in-place
    mutation is an update at a location.  Exceptions are the [Err] results of
    a small error monad. *)

From Stdlib Require Import ZArith List String Ascii Bool Lia.
From Stdlib Require Import Decimal DecimalString DecimalZ DecimalPos.
From Stdlib Require Import Floats.PrimFloat Floats.SpecFloat Floats.FloatOps.
Import ListNotations.

Local Open Scope string_scope.
Local Open Scope list_scope.
Local Open Scope Z_scope.

(* ================================================================== *)
(** ** Exceptions *)

(** The exceptions the program can raise.  [ValueError] carries the message
    of the [raise] statement; the others come from the Python runtime:
    [TypeError] ([int(None)], [remove(None)]), [AttributeError] (a method
    called on [None]), [StopIteration] ([next] on an exhausted iterator),
    [UnboundLocalError] (a local read before assignment), [KeyError],
    [IndexError], [ZeroDivisionError] and [OverflowError] (an integer too
    large for a float). *)
Inductive error : Type :=
| ValueError (msg : string)
| TypeError
| AttributeError
| StopIteration
| UnboundLocalError
| KeyError
| IndexError
| ZeroDivisionError
| OverflowError.

Inductive result (A : Type) : Type :=
| Ok (a : A)
| Err (e : error).
Arguments Ok {A} a.
Arguments Err {A} e.

Definition bind {A B : Type} (r : result A) (k : A -> result B) : result B :=
  match r with
  | Ok a => k a
  | Err e => Err e
  end.

Declare Scope err_scope.
Delimit Scope err_scope with err.
Notation "x <- c1 ;; c2" := (bind c1 (fun x => c2))
  (at level 61, c1 at next level, right associativity) : err_scope.
Notation "' pat <- c1 ;; c2" := (bind c1 (fun x => match x with pat => c2 end))
  (at level 61, pat pattern, c1 at next level, right associativity) : err_scope.
Local Open Scope err_scope.

(** [x.m(...)] where [x] may be [None]. *)
Definition not_none {A : Type} (o : option A) : result A :=
  match o with
  | Some a => Ok a
  | None => Err AttributeError
  end.

(** A [for] loop over a snapshot list whose body threads a state and may
    raise. *)
Fixpoint for_each {A S : Type} (body : A -> S -> result S) (l : list A) (s : S)
  : result S :=
  match l with
  | [] => Ok s
  | a :: l' => s' <- body a s ;; for_each body l' s'
  end.

(* ================================================================== *)
(** ** Python dictionaries *)

(** A dictionary keeps its keys in insertion order: an association list
    without repeated keys.  [lookup] is [d.get(k)]; [store] is [d[k] = v],
    which replaces the value of an existing key where it stands and puts a
    new key at the end. *)
Section Dict.
Context {K V : Type} (eqb : K -> K -> bool).

Fixpoint lookup (k : K) (d : list (K * V)) : option V :=
  match d with
  | [] => None
  | (k', v) :: d' => if eqb k k' then Some v else lookup k d'
  end.

Fixpoint store (k : K) (v : V) (d : list (K * V)) : list (K * V) :=
  match d with
  | [] => [(k, v)]
  | (k', v') :: d' =>
      if eqb k k' then (k', v) :: d' else (k', v') :: store k v d'
  end.
End Dict.

(** [d[k]], which raises [KeyError] on a missing key. *)
Definition subscript {K V : Type} (eqb : K -> K -> bool) (k : K) (d : list (K * V))
  : result V :=
  match lookup eqb k d with
  | Some v => Ok v
  | None => Err KeyError
  end.

(* ================================================================== *)
(** ** Python's [int] and [str] on decimal strings *)

Definition is_space (c : ascii) : bool :=
  let n := nat_of_ascii c in
  (Nat.eqb n 32 || (Nat.leb 9 n && Nat.leb n 13))%bool.

Fixpoint lstrip (s : string) : string :=
  match s with
  | String c s' => if is_space c then lstrip s' else s
  | EmptyString => EmptyString
  end.

Fixpoint rstrip (s : string) : string :=
  match s with
  | EmptyString => EmptyString
  | String c s' =>
      match rstrip s' with
      | EmptyString => if is_space c then EmptyString else String c EmptyString
      | r => String c r
      end
  end.

Definition digit_val (c : ascii) : option Z :=
  let n := nat_of_ascii c in
  if (Nat.leb 48 n && Nat.leb n 57)%bool then Some (Z.of_nat (n - 48)) else None.

(** Digits with single underscores allowed between two digits. *)
Fixpoint digits_acc (s : string) (after_digit : bool) (acc : Z) : option Z :=
  match s with
  | EmptyString => if after_digit then Some acc else None
  | String c s' =>
      if Ascii.eqb c "_"%char
      then (if after_digit then digits_acc s' false acc else None)
      else match digit_val c with
           | Some d => digits_acc s' true (10 * acc + d)
           | None => None
           end
  end.

(** [int(s)] for a string [s]: surrounding white space, an optional sign and
    a decimal literal.  [None] stands for the [ValueError] of Python.  The
    literals are those of ASCII digits and ASCII white space, which is what
    FC4SC writes; Python also takes the other Unicode decimal digits and
    spaces, and refuses literals of more than 4300 digits. *)
Definition int_of_str (s : string) : option Z :=
  match rstrip (lstrip s) with
  | String "-"%char r => option_map Z.opp (digits_acc r false 0)
  | String "+"%char r => digits_acc r false 0
  | r => digits_acc r false 0
  end.

(** [int(x)] where [x] is the result of [get] or a [text] field: [None]
    raises [TypeError], a string that is no literal raises [ValueError]. *)
Definition py_int (x : option string) : result Z :=
  match x with
  | None => Err TypeError
  | Some s =>
      match int_of_str s with
      | Some z => Ok z
      | None => Err (ValueError "invalid literal for int() with base 10")
      end
  end.

(** [str(z)] for an integer [z]. *)
Definition py_str (z : Z) : string := NilEmpty.string_of_int (Z.to_int z).

(* ================================================================== *)
(** ** ElementTree elements *)

(** An element: its tag (with the namespace in Clark notation), its
    attribute dictionary in insertion order, its text ([None] when the
    element has none) and its children in document order.  The [tail] text of
    ElementTree is never read by the program and is left out. *)
Unset Elimination Schemes.
Inductive Element : Type :=
| mkElement (tag : string) (attrib : list (string * string))
            (text : option string) (children : list Element).
Set Elimination Schemes.

(** Induction over an element with the hypothesis for all its children. *)
Definition Element_children_ind (P : Element -> Prop)
  (IH : forall t a x cs, Forall P cs -> P (mkElement t a x cs))
  : forall e, P e :=
  fix F (e : Element) : P e :=
    match e with
    | mkElement t a x cs =>
        IH t a x cs
          ((fix G (l : list Element) : Forall P l :=
              match l with
              | [] => Forall_nil P
              | c :: l' => Forall_cons c (F c) (G l')
              end) cs)
    end.

Definition tag (e : Element) : string :=
  match e with mkElement t _ _ _ => t end.
Definition attrib (e : Element) : list (string * string) :=
  match e with mkElement _ a _ _ => a end.
Definition text (e : Element) : option string :=
  match e with mkElement _ _ x _ => x end.
Definition children (e : Element) : list Element :=
  match e with mkElement _ _ _ cs => cs end.

(** [dict.get] and [dict.__setitem__] on the attribute dictionary. *)
Definition dict_get (k : string) (d : list (string * string)) : option string :=
  lookup String.eqb k d.

Definition dict_set (k v : string) (d : list (string * string))
  : list (string * string) :=
  store String.eqb k v d.

(** [e.get(k)], [e.set(k, v)], [e.text = x], [e.append(c)]. *)
Definition get (k : string) (e : Element) : option string :=
  dict_get k (attrib e).
Definition set (k v : string) (e : Element) : Element :=
  mkElement (tag e) (dict_set k v (attrib e)) (text e) (children e).
Definition set_text (x : string) (e : Element) : Element :=
  mkElement (tag e) (attrib e) (Some x) (children e).
Definition append (c : Element) (e : Element) : Element :=
  mkElement (tag e) (attrib e) (text e) (children e ++ [c]).
Definition set_children (cs : list Element) (e : Element) : Element :=
  mkElement (tag e) (attrib e) (text e) cs.

(** The namespace registered by [UCIS_DB_Parser.__init__]; a prefixed name
    [ucis:x] denotes the tag [{uri}x]. *)
Definition ucis_ns : string := "ucis".
Definition ucis_ns_schema : string := "http://www.w3.org/2001/XMLSchema-instance".
Definition qname (name : string) : string :=
  ("{" ++ ucis_ns_schema ++ "}" ++ name)%string.

Definition has_tag (name : string) (e : Element) : bool :=
  String.eqb (tag e) (qname name).

(** [find_ucis_element] and [findall_ucis_children]: the first child, and
    all the children, with the given UCIS tag. *)
Definition find_ucis_element (element : Element) (subElementName : string)
  : option Element :=
  List.find (has_tag subElementName) (children element).

Definition findall_ucis_children (element : Element) (subElementName : string)
  : list Element :=
  List.filter (has_tag subElementName) (children element).

(** [e.remove(c)] where [c] is the first child of [e] carrying its tag (the
    only way the program calls it): the first child with that tag goes. *)
Fixpoint remove_first (p : Element -> bool) (l : list Element) : list Element :=
  match l with
  | [] => []
  | c :: l' => if p c then l' else c :: remove_first p l'
  end.

(* ================================================================== *)
(** ** Locations in the merge database *)

(** A reference to an element of the merge database: the indexes of the
    children to follow from the root. *)
Definition loc : Type := list nat.

Fixpoint get_at (l : loc) (e : Element) : option Element :=
  match l with
  | [] => Some e
  | i :: l' =>
      match nth_error (children e) i with
      | Some c => get_at l' c
      | None => None
      end
  end.

Fixpoint update_nth {A : Type} (i : nat) (f : A -> A) (l : list A) : list A :=
  match l, i with
  | [], _ => []
  | a :: l', O => f a :: l'
  | a :: l', S i' => a :: update_nth i' f l'
  end.

(** The mutation [f] applied to the element at a location. *)
Fixpoint update_at (l : loc) (f : Element -> Element) (e : Element) : Element :=
  match l with
  | [] => f e
  | i :: l' => set_children (update_nth i (update_at l' f) (children e)) e
  end.

(* ================================================================== *)
(** ** ElementPath queries *)

(** One step [ucis:tag] or [ucis:tag[@key='value']] of a query, in parsed
    form: the tag and the one attribute test ElementPath reads from the text
    of the step. *)
Record step : Type := mkStep {
  step_tag : string;
  step_pred : option (string * string)
}.

(** [format_et_query]: the predicate is added only when both the attribute
    name and the attribute value are given.  The program pastes the value
    between two apostrophes into the text of the query, and ElementPath
    parses that text again.  A value without an apostrophe is read back as
    the one quoted string of the predicate, and the step below is that
    parse.  A value with an apostrophe closes the quoted string early: what
    follows it is read as query text, or is a syntax error.  Such values are
    outside this model; [quote_free] and [plain_query] below name the values
    and the queries inside it. *)
Definition format_et_query (elementName : string)
  (attribName attribValue : option string) : step :=
  match attribName, attribValue with
  | Some k, Some v => mkStep elementName (Some (k, v))
  | _, _ => mkStep elementName None
  end.

(** A query [.//s0/s1/.../sn]: the first step selects among the descendants
    of the root, the others among the children. *)
Definition xpath : Type := list step.

Definition matches (st : step) (e : Element) : bool :=
  (has_tag (step_tag st) e &&
   match step_pred st with
   | None => true
   | Some (k, v) =>
       match get k e with
       | Some v' => String.eqb v' v
       | None => false
       end
   end)%bool.

Definition under (i : nat) (r : loc * Element) : loc * Element :=
  (i :: fst r, snd r).

(** The children of an element with their indexes, from index [i] on. *)
Fixpoint indexed (i : nat) (l : list Element) : list (nat * Element) :=
  match l with
  | [] => []
  | c :: l' => (i, c) :: indexed (S i) l'
  end.

(** The proper descendants of an element in document order ([Element.iter]
    without the element itself), each with its location below the element.
    [descendants_from f i l] lists the elements of [l], which are the
    children from index [i] on, each followed by its own descendants [f]. *)
Section DescendantsFrom.
Variable f : Element -> list (loc * Element).

Fixpoint descendants_from (i : nat) (l : list Element) : list (loc * Element) :=
  match l with
  | [] => []
  | c :: l' => ([i], c) :: map (under i) (f c) ++ descendants_from (S i) l'
  end.
End DescendantsFrom.

Fixpoint descendants (e : Element) : list (loc * Element) :=
  match e with
  | mkElement _ _ _ cs => descendants_from descendants 0 cs
  end.

(** The matches of a chain of child steps below an element, in the order the
    selector pipeline yields them. *)
Fixpoint select_children (steps : list step) (e : Element) : list (loc * Element) :=
  match steps with
  | [] => [([], e)]
  | st :: steps' =>
      flat_map (fun ic : nat * Element =>
                  if matches st (snd ic)
                  then map (under (fst ic)) (select_children steps' (snd ic))
                  else [])
               (indexed 0 (children e))
  end.

Definition prefix (p : loc) (r : loc * Element) : loc * Element :=
  (p ++ fst r, snd r).

Definition iterfind (q : xpath) (root : Element) : list (loc * Element) :=
  match q with
  | [] => []
  | st :: steps =>
      flat_map (fun d : loc * Element =>
                  if matches st (snd d)
                  then map (prefix (fst d)) (select_children steps (snd d))
                  else [])
               (descendants root)
  end.

(** [find_merge_element_by_query]: the first match of the query in the merge
    database, as a location together with the element found there.  The
    queries are those the engine builds from [format_et_query] steps: a
    descendant step followed by child steps, each with at most one attribute
    test. *)
Definition find_merge_element_by_query (xpath_query : xpath) (mergeDBtree : Element)
  : option (loc * Element) :=
  hd_error (iterfind xpath_query mergeDBtree).

(** The index and the element of the first child with a UCIS tag, for the
    places where the program mutates the child it found. *)
Fixpoint find_index (p : Element -> bool) (i : nat) (l : list Element)
  : option (nat * Element) :=
  match l with
  | [] => None
  | c :: l' => if p c then Some (i, c) else find_index p (S i) l'
  end.

Definition find_ucis_child (element : Element) (subElementName : string)
  : option (nat * Element) :=
  find_index (has_tag subElementName) 0 (children element).

Definition option_string_eqb (a b : option string) : bool :=
  match a, b with
  | Some x, Some y => String.eqb x y
  | None, None => true
  | _, _ => false
  end.

(* ================================================================== *)
(** ** The merge engine: coverpoints, bins and ranges *)

Module Merge.

(** The body of the loop of [merge_bin_hits], for one [range] of the parsed
    bin.  The state is the merge database and the local [totalhits], unbound
    ([None]) before the first iteration.  [binMergeElement] is the location
    the caller found for the bin. *)
Definition merge_bin_hits_body (binMergeElement : loc) (parent_query : xpath)
  (range : Element) (st : Element * option Z) : result (Element * option Z) :=
  let mergeDBtree := fst st in
  contents <- not_none (find_ucis_element range "contents") ;;
  rangeHitCount <- py_int (get "coverageCount" contents) ;;
  let xpath_query := parent_query ++ [format_et_query "range" None None] in
  match find_merge_element_by_query xpath_query mergeDBtree with
  | None =>
      Err (ValueError
             "Range not found! Bin contents differ between mergeDBtree and parsed XML!")
  | Some (searchLoc, searchElement) =>
      let sameFrom := option_string_eqb (get "from" searchElement) (get "from" range) in
      let sameTo := option_string_eqb (get "to" searchElement) (get "to" range) in
      if negb (sameFrom && sameTo)
      then Err (ValueError "Range limits differ between mergeDBtree and parsed XML!")
      else
        let mergeContents := find_ucis_child searchElement "contents" in
        let parsedContentsElement := find_ucis_element range "contents" in
        '(contentsIdx, mergeContentsElement) <- not_none mergeContents ;;
        totalhits <- py_int (get "coverageCount" mergeContentsElement) ;;
        parsedContents <- not_none parsedContentsElement ;;
        parsedHits <- py_int (get "coverageCount" parsedContents) ;;
        let totalhits := totalhits + parsedHits in
        let tree1 := update_at binMergeElement (set "alias" (py_str totalhits))
                               mergeDBtree in
        let tree2 := update_at (searchLoc ++ [contentsIdx])
                               (set "coverageCount" (py_str totalhits)) tree1 in
        Ok (tree2, Some totalhits)
  end.

(** [merge_bin_hits]: the loop over the ranges of the parsed bin, then the
    progress line, which reads [totalhits]. *)
Definition merge_bin_hits (bin : Element) (binMergeElement : loc)
  (parent_query : xpath) (mergeDBtree : Element) : result Element :=
  st <- for_each (merge_bin_hits_body binMergeElement parent_query)
                 (findall_ucis_children bin "range") (mergeDBtree, None) ;;
  match snd st with
  | None => Err UnboundLocalError
  | Some _ => Ok (fst st)
  end.

(** The body of the loop of [parse_coverpoint_bins], for one parsed bin. *)
Definition parse_coverpoint_bins_body (parent_query : xpath) (bin : Element)
  (mergeDBtree : Element) : result Element :=
  let binName := get "name" bin in
  let xpath_query :=
    parent_query ++ [format_et_query "coverpointBin" (Some "name") binName] in
  match find_merge_element_by_query xpath_query mergeDBtree with
  | Some (binMergeElement, _) =>
      merge_bin_hits bin binMergeElement xpath_query mergeDBtree
  | None =>
      mergeParent <- not_none (find_merge_element_by_query parent_query mergeDBtree) ;;
      Ok (update_at (fst mergeParent) (append bin) mergeDBtree)
  end.

Definition parse_coverpoint_bins (coverpoint : Element) (parent_query : xpath)
  (mergeDBtree : Element) : result Element :=
  for_each (parse_coverpoint_bins_body parent_query)
           (findall_ucis_children coverpoint "coverpointBin") mergeDBtree.

(** The body of the loop of [parse_coverpoints], for one parsed coverpoint. *)
Definition parse_coverpoints_body (parent_query : xpath) (coverpoint : Element)
  (mergeDBtree : Element) : result Element :=
  let cvpName := get "name" coverpoint in
  let xpath_query :=
    parent_query ++ [format_et_query "coverpoint" (Some "name") cvpName] in
  match find_merge_element_by_query xpath_query mergeDBtree with
  | Some _ => parse_coverpoint_bins coverpoint xpath_query mergeDBtree
  | None => Err (ValueError "coverpoint not present in the mergeDBtree!")
  end.

Definition parse_coverpoints (cgInstance : Element) (parent_query : xpath)
  (mergeDBtree : Element) : result Element :=
  for_each (parse_coverpoints_body parent_query)
           (findall_ucis_children cgInstance "coverpoint") mergeDBtree.

(* ------------------------------------------------------------------ *)
(** *** Crosses and cross bins *)

(** The dictionary [mergeMap]: index tuples to hit counts, in insertion
    order. *)
Definition mergeMap_t : Type := list (list Z * Z).

Definition tuple_eqb (a b : list Z) : bool :=
  if list_eq_dec Z.eq_dec a b then true else false.

Definition map_get (t : list Z) (m : mergeMap_t) : option Z :=
  lookup tuple_eqb t m.

(** [m[t] = n] *)
Definition map_set (t : list Z) (n : Z) (m : mergeMap_t) : mergeMap_t :=
  store tuple_eqb t n m.

(** [[int(index.text) for index in ...]], raising at the first bad index. *)
Fixpoint read_indexes (l : list Element) : result (list Z) :=
  match l with
  | [] => Ok []
  | index :: l' =>
      i <- py_int (text index) ;;
      rest <- read_indexes l' ;;
      Ok (i :: rest)
  end.

(** The index tuple and the hit count of a [crossBin], read the way both
    loops of [parse_crosses] read them. *)
Definition read_crossBin (crossBin : Element) : result (list Z * Z) :=
  binIndexes <- read_indexes (findall_ucis_children crossBin "index") ;;
  contentsElement <- not_none (find_ucis_element crossBin "contents") ;;
  hitCount <- py_int (get "coverageCount" contentsElement) ;;
  Ok (binIndexes, hitCount).

(** First loop: a [crossBin] of the merge database is read, checked against
    the number of crossed coverpoints, stored and removed from its cross. *)
Definition drain_body (numCvps : nat) (crossBin : Element)
  (st : mergeMap_t * Element) : result (mergeMap_t * Element) :=
  let '(mergeMap, mergeCrossElement) := st in
  '(binIndexes, hitCount) <- read_crossBin crossBin ;;
  if negb (Nat.eqb (List.length binIndexes) numCvps)
  then Err (ValueError "Found crossBin of bigger size than the number of coverpoints!")
  else
    Ok (map_set binIndexes hitCount mergeMap,
        set_children (remove_first (has_tag "crossBin") (children mergeCrossElement))
                     mergeCrossElement).

(** Second loop: a [crossBin] of the parsed cross is folded into the map. *)
Definition fold_body (crossBin : Element) (mergeMap : mergeMap_t)
  : result mergeMap_t :=
  '(tupleIndexes, hitCount) <- read_crossBin crossBin ;;
  match map_get tupleIndexes mergeMap with
  | Some n => Ok (map_set tupleIndexes (n + hitCount) mergeMap)
  | None => Ok (map_set tupleIndexes hitCount mergeMap)
  end.

Definition newline : string := String (ascii_of_nat 10) EmptyString.

(** [ET.fromstring(crossBinString)]: the template with [numCvps] index
    elements and one contents element. *)
Definition crossBinTemplate (numCvps : nat) : Element :=
  mkElement (qname "crossBin")
            [("name", ""); ("key", "0"); ("type", "default")]
            (Some newline)
            (repeat (mkElement (qname "index") [] (Some "0") []) numCvps
             ++ [mkElement (qname "contents") [("coverageCount", "0")] None []]).

(** The loop over [range(len(indexesTuple))]: the next index element of the
    generator takes the next value of the tuple; [next] raises
    [StopIteration] when the index elements run out. *)
Fixpoint fill_indexes (cs : list Element) (indexesTuple : list Z)
  {struct indexesTuple} : result (list Element) :=
  match indexesTuple with
  | [] => Ok cs
  | v :: tuple' =>
      (fix next (cs : list Element) : result (list Element) :=
         match cs with
         | [] => Err StopIteration
         | c :: cs' =>
             if has_tag "index" c
             then rest <- fill_indexes cs' tuple' ;; Ok (set_text (py_str v) c :: rest)
             else rest <- next cs' ;; Ok (c :: rest)
         end) cs
  end.

(** The body of the rebuilding loop: a fresh [crossBin] for one key of
    [mergeMap], appended to the cross of the merge database. *)
Definition new_crossBin (numCvps : nat) (indexesTuple : list Z) (hitCount : Z)
  : result Element :=
  let crossBinElement := crossBinTemplate numCvps in
  cs <- fill_indexes (children crossBinElement) indexesTuple ;;
  let crossBinElement := set_children cs crossBinElement in
  contentsElement <- not_none (find_ucis_child crossBinElement "contents") ;;
  Ok (update_at [fst contentsElement] (set "coverageCount" (py_str hitCount))
                crossBinElement).

Definition rebuild_body (numCvps : nat) (entry : list Z * Z)
  (mergeCrossElement : Element) : result Element :=
  crossBinElement <- new_crossBin numCvps (fst entry) (snd entry) ;;
  Ok (append crossBinElement mergeCrossElement).

(** What [parse_crosses] does to the cross it found in the merge database,
    once the parsed cross is known to have cross bins: drain, fold, rebuild,
    and move the user attribute element to the end. *)
Definition merge_crossBins (cross mergeCrossElement : Element) : result Element :=
  let numCvps := List.length (findall_ucis_children mergeCrossElement "crossExpr") in
  st <- for_each (drain_body numCvps)
                 (findall_ucis_children mergeCrossElement "crossBin")
                 ([], mergeCrossElement) ;;
  mergeMap <- for_each fold_body (findall_ucis_children cross "crossBin") (fst st) ;;
  rebuilt <- for_each (rebuild_body numCvps) mergeMap (snd st) ;;
  match find_ucis_element rebuilt "userAttr" with
  | None => Err TypeError
  | Some userAttrElement =>
      Ok (append userAttrElement
            (set_children (remove_first (has_tag "userAttr") (children rebuilt))
                          rebuilt))
  end.

(** The body of the loop of [parse_crosses], for one parsed cross. *)
Definition parse_crosses_body (parent_query : xpath) (cross : Element)
  (mergeDBtree : Element) : result Element :=
  let crossName := get "name" cross in
  let xpath_query :=
    parent_query ++ [format_et_query "cross" (Some "name") crossName] in
  match find_merge_element_by_query xpath_query mergeDBtree with
  | None => Err (ValueError "cross not present in the mergeDBtree!")
  | Some (crossLoc, mergeCrossElement) =>
      match find_ucis_element cross "crossBin" with
      | None => Ok mergeDBtree
      | Some _ =>
          merged <- merge_crossBins cross mergeCrossElement ;;
          Ok (update_at crossLoc (fun _ => merged) mergeDBtree)
      end
  end.

Definition parse_crosses (cgInstance : Element) (parent_query : xpath)
  (mergeDBtree : Element) : result Element :=
  for_each (parse_crosses_body parent_query)
           (findall_ucis_children cgInstance "cross") mergeDBtree.

(* ------------------------------------------------------------------ *)
(** *** Instances, covergroup types and documents *)

(** The two calls [parse_covergroup_type] makes for an instance that is in
    the merge database. *)
Definition merge_cgInstance (cgInstance : Element) (xpath_query : xpath)
  (mergeDBtree : Element) : result Element :=
  tree1 <- parse_coverpoints cgInstance xpath_query mergeDBtree ;;
  parse_crosses cgInstance xpath_query tree1.

Definition parse_covergroup_type_body (parent_query : xpath) (cgInstance : Element)
  (mergeDBtree : Element) : result Element :=
  let cgInstName := get "name" cgInstance in
  let xpath_query :=
    parent_query ++ [format_et_query "cgInstance" (Some "name") cgInstName] in
  match find_merge_element_by_query xpath_query mergeDBtree with
  | Some _ => merge_cgInstance cgInstance xpath_query mergeDBtree
  | None =>
      mergeParent <- not_none (find_merge_element_by_query parent_query mergeDBtree) ;;
      Ok (update_at (fst mergeParent) (append cgInstance) mergeDBtree)
  end.

(** [covergroupCoverage] is the result of a [find] and may be [None]. *)
Definition parse_covergroup_type (covergroupCoverage : option Element)
  (parent_query : xpath) (mergeDBtree : Element) : result Element :=
  cg <- not_none covergroupCoverage ;;
  for_each (parse_covergroup_type_body parent_query)
           (findall_ucis_children cg "cgInstance") mergeDBtree.

Definition parse_xml_body (instanceCoverages : Element) (mergeDBtree : Element)
  : result Element :=
  let cgTypeName := get "moduleName" instanceCoverages in
  let xpath_query :=
    [format_et_query "instanceCoverages" (Some "moduleName") cgTypeName;
     format_et_query "covergroupCoverage" None None] in
  match find_merge_element_by_query xpath_query mergeDBtree with
  | Some _ =>
      let covergroupCoverage :=
        find_ucis_element instanceCoverages "covergroupCoverage" in
      parse_covergroup_type covergroupCoverage xpath_query mergeDBtree
  | None => Ok (append instanceCoverages mergeDBtree)
  end.

Definition parse_xml (parseRoot : Element) (mergeDBtree : Element) : result Element :=
  for_each parse_xml_body (findall_ucis_children parseRoot "instanceCoverages")
           mergeDBtree.

(** [s[-n:]] *)
Definition last_chars (n : nat) (s : string) : string :=
  substring (String.length s - n) n s.

(** [process_xml] on a parsed document.  The state is [self.mergeDBtree],
    [None] before the first UCIS document; the boolean is the return value. *)
Definition process_xml (parseRoot : Element) (mergeDBtree : option Element)
  : result (bool * option Element) :=
  let tagstr := last_chars 4 (tag parseRoot) in
  if negb (String.eqb tagstr "UCIS") then Ok (false, mergeDBtree)
  else
    match mergeDBtree with
    | None => Ok (true, Some parseRoot)
    | Some tree =>
        tree' <- parse_xml parseRoot tree ;;
        Ok (true, Some tree')
    end.

End Merge.

(* ================================================================== *)
(** ** Sample documents *)

(** Builders for the elements FC4SC writes, used by the examples below. *)
Module Sample.

Definition el (name : string) (a : list (string * string)) (cs : list Element)
  : Element := mkElement (qname name) a None cs.

Definition contents (count : string) : Element :=
  el "contents" [("coverageCount", count)] [].

Definition range (from to count : string) : Element :=
  el "range" [("from", from); ("to", to)] [contents count].

Definition coverpointBin (name kind alias : string) (ranges : list Element)
  : Element :=
  el "coverpointBin" [("name", name); ("type", kind); ("alias", alias)] ranges.

Definition options (weight : string) : Element :=
  el "options" [("weight", weight)] [].

Definition coverpoint (name weight : string) (bins : list Element) : Element :=
  el "coverpoint" [("name", name)] (options weight :: bins).

Definition index (v : string) : Element :=
  mkElement (qname "index") [] (Some v) [].

Definition crossBin (name : string) (indexes : list string) (count : string)
  : Element :=
  el "crossBin" [("name", name)] (map index indexes ++ [contents count]).

Definition crossExpr (cvp : string) : Element :=
  mkElement (qname "crossExpr") [] (Some cvp) [].

Definition userAttr : Element := el "userAttr" [("key", "0")] [].

Definition cross (name weight : string) (exprs : list string)
  (bins : list Element) : Element :=
  el "cross" [("name", name)]
     (options weight :: map crossExpr exprs ++ bins ++ [userAttr]).

Definition cgInstance (name weight : string) (items : list Element) : Element :=
  el "cgInstance" [("name", name)] (options weight :: items).

Definition instanceCoverages (moduleName : string) (instances : list Element)
  : Element :=
  el "instanceCoverages" [("moduleName", moduleName)]
     [el "covergroupCoverage" [] instances].

Definition UCIS (modules : list Element) : Element := el "UCIS" [] modules.

(** One module, one instance, with the given coverpoints and crosses. *)
Definition document (items : list Element) : Element :=
  UCIS [instanceCoverages "M" [cgInstance "I" "1" items]].

(** The query the engine builds for instance [I] of module [M]. *)
Definition instance_query : xpath :=
  [format_et_query "instanceCoverages" (Some "moduleName") (Some "M");
   format_et_query "covergroupCoverage" None None;
   format_et_query "cgInstance" (Some "name") (Some "I")].

(** A cross over two coverpoints with the cross bin (0,1) hit 3 times, and
    the same cross in another run: (0,1) hit 5 times, (2,3) hit 7 times. *)
Definition cross_acc : Element :=
  cross "XY" "1" ["X"; "Y"] [crossBin "a" ["0"; "1"] "3"].

Definition cross_src : Element :=
  cross "XY" "1" ["X"; "Y"]
        [crossBin "b" ["0"; "1"] "5"; crossBin "c" ["2"; "3"] "7"].

(** What the merge leaves of [cross_acc] after [cross_src]. *)
Definition cross_merged : Element :=
  el "cross" [("name", "XY")]
     [options "1"; crossExpr "X"; crossExpr "Y";
      mkElement (qname "crossBin")
                [("name", ""); ("key", "0"); ("type", "default")]
                (Some Merge.newline)
                [index "0"; index "1"; contents "8"];
      mkElement (qname "crossBin")
                [("name", ""); ("key", "0"); ("type", "default")]
                (Some Merge.newline)
                [index "2"; index "3"; contents "7"];
      userAttr].

(** The same cross with no cross bin, and with a cross bin of one index. *)
Definition cross_empty : Element := cross "XY" "1" ["X"; "Y"] [].

Definition cross_short : Element :=
  cross "XY" "1" ["X"; "Y"] [crossBin "s" ["4"] "9"].

(** What the merge leaves of [cross_acc] after [cross_short]. *)
Definition cross_padded : Element :=
  el "cross" [("name", "XY")]
     [options "1"; crossExpr "X"; crossExpr "Y";
      mkElement (qname "crossBin")
                [("name", ""); ("key", "0"); ("type", "default")]
                (Some Merge.newline)
                [index "0"; index "1"; contents "3"];
      mkElement (qname "crossBin")
                [("name", ""); ("key", "0"); ("type", "default")]
                (Some Merge.newline)
                [index "4"; index "0"; contents "9"];
      userAttr].

(** A coverpoint with the bin "lo" over (0,10), of kind default in one run
    and of kind ignore in another. *)
Definition lo_default : Element :=
  coverpoint "cp" "1" [coverpointBin "lo" "default" "3" [range "0" "10" "3"]].

Definition lo_ignore : Element :=
  coverpoint "cp" "1" [coverpointBin "lo" "ignore" "4" [range "0" "10" "4"]].

Definition lo_merged : Element :=
  coverpoint "cp" "1" [coverpointBin "lo" "default" "7" [range "0" "10" "7"]].

(** The bin "lo" of the two runs, and the query the engine builds for it. *)
Definition lo_bin_default : Element :=
  coverpointBin "lo" "default" "3" [range "0" "10" "3"].

Definition lo_bin_ignore : Element :=
  coverpointBin "lo" "ignore" "4" [range "0" "10" "4"].

Definition lo_query : xpath :=
  instance_query
  ++ [format_et_query "coverpoint" (Some "name") (Some "cp");
      format_et_query "coverpointBin" (Some "name") (Some "lo")].

(** A bin with two ranges, and a bin that lists the same range twice. *)
Definition two_ranges : Element :=
  coverpoint "cp" "1"
    [coverpointBin "b" "default" "2" [range "0" "5" "2"; range "6" "10" "2"]].

Definition twin_ranges (alias first second : string) : Element :=
  coverpoint "cp" "1"
    [coverpointBin "b" "default" alias [range "0" "5" first; range "0" "5" second]].

(** Coverpoints "A" and "B" with one bin each. *)
Definition cvp_A : Element :=
  coverpoint "A" "1" [coverpointBin "a0" "default" "1" [range "0" "1" "1"]].

Definition cvp_B : Element :=
  coverpoint "B" "1" [coverpointBin "b0" "default" "1" [range "0" "1" "1"]].

(** The instance of the percentage example: coverpoints of weights 1 and 3,
    the first with one of its two bins hit, the second with its only bin
    hit. *)
Definition rollup_instance : Element :=
  cgInstance "I" "1"
    [coverpoint "A" "1" [coverpointBin "a0" "default" "3" [range "0" "1" "3"];
                         coverpointBin "a1" "default" "0" [range "2" "3" "0"]];
     coverpoint "B" "3" [coverpointBin "b0" "default" "1" [range "0" "1" "1"]]].

End Sample.

(* ================================================================== *)
(** ** The report builder *)

Module Report.

(** Python floats are IEEE 754 binary64 numbers.  [float(n)] rounds an
    integer to the nearest float and raises [OverflowError] when that is
    beyond the largest one; [/] raises [ZeroDivisionError] on a zero divisor;
    [sum] adds from the left, starting from zero. *)
Definition float_of_Z (n : Z) : float :=
  SF2Prim (binary_normalize prec emax n 0 false).

Definition py_float (n : Z) : result float :=
  let f := float_of_Z n in
  if PrimFloat.is_infinity f then Err OverflowError else Ok f.

Definition py_div (a b : float) : result float :=
  if PrimFloat.is_zero b then Err ZeroDivisionError else Ok (PrimFloat.div a b).

Definition py_sum (l : list float) : float :=
  fold_left PrimFloat.add l PrimFloat.zero.

Definition sumZ (l : list Z) : Z := fold_left Z.add l 0.

(** The value of a [name] attribute or of a [text] field used as a
    dictionary key; [None] when the document has none. *)
Definition name_t : Type := option string.

(** The dictionary built for a coverpoint or a cross. *)
Record item_data : Type := mk_item_data {
  item_type : string;
  bin_count : Z;
  bin_hits : Z;
  bin_misses : Z;
  hits : list name_t;
  misses : list name_t;
  weight : Z;
  pct_cov : float;
  bin_hit_data : option (list (list Z * Z))
}.

(** [cg_cp_bin_map]: for the name of a coverpoint or cross, its bin names by
    bin index. *)
Definition bin_map_t : Type := list (name_t * list (Z * name_t)).

Definition inst_data_t : Type := list (name_t * item_data).

(** [100 * ((bin_count - bin_misses) / float(bin_count))] *)
Definition percentage (count misses : Z) : result float :=
  covered <- py_float (count - misses) ;;
  total <- py_float count ;;
  ratio <- py_div covered total ;;
  hundred <- py_float 100 ;;
  Ok (PrimFloat.mul hundred ratio).

(** The loop over the bins of a coverpoint: the state is the bin index of
    [enumerate], the bin names by index, and the counters and name lists of
    [cp_data]. *)
Definition coverpoint_bin_body (bin : Element)
  (st : Z * list (Z * name_t) * (Z * Z * Z) * (list name_t * list name_t))
  : result (Z * list (Z * name_t) * (Z * Z * Z) * (list name_t * list name_t)) :=
  let '(bin_idx, names, (count, nhits, nmisses), (hit_names, miss_names)) := st in
  let bin_name := get "name" bin in
  let names := store Z.eqb bin_idx bin_name names in
  hit_count <- py_int (get "alias" bin) ;;
  if 0 <? hit_count
  then Ok (bin_idx + 1, names, (count + 1, nhits + 1, nmisses),
           (hit_names ++ [bin_name], miss_names))
  else Ok (bin_idx + 1, names, (count + 1, nhits, nmisses + 1),
           (hit_names, miss_names ++ [bin_name])).

(** The body of the loop of [get_coverpoint_report_data]. *)
Definition get_coverpoint_report_data_body (coverpoint : Element)
  (st : bin_map_t * inst_data_t) : result (bin_map_t * inst_data_t) :=
  let '(cg_cp_bin_map, inst_data) := st in
  options <- not_none (find_ucis_element coverpoint "options") ;;
  let cp_name := get "name" coverpoint in
  cp_weight <- py_int (get "weight" options) ;;
  '(_, names, (count, nhits, nmisses), (hit_names, miss_names)) <-
    for_each coverpoint_bin_body
             (findall_ucis_children coverpoint "coverpointBin")
             (0, [], (0, 0, 0), ([], [])) ;;
  pct <- percentage count nmisses ;;
  let cp_data := mk_item_data "point" count nhits nmisses hit_names miss_names
                              cp_weight pct None in
  Ok (store option_string_eqb cp_name names cg_cp_bin_map,
      store option_string_eqb cp_name cp_data inst_data).

Definition get_coverpoint_report_data (cgInstance : Element)
  (st : bin_map_t * inst_data_t) : result (bin_map_t * inst_data_t) :=
  for_each get_coverpoint_report_data_body
           (findall_ucis_children cgInstance "coverpoint") st.

(** [collect_cross_bins]: the tuples of [parrent_bins], each extended by
    every bin index of the first expression, then the same for the other
    expressions. *)
Fixpoint extend_bins (parrent_bins : list (list Z)) (indexes : result (list Z))
  : result (list (list Z)) :=
  match parrent_bins with
  | [] => Ok []
  | parrent_bin_tuple :: rest =>
      idxs <- indexes ;;
      more <- extend_bins rest indexes ;;
      Ok (map (fun expr_bin_idx => parrent_bin_tuple ++ [expr_bin_idx]) idxs ++ more)
  end.

Fixpoint collect_cross_bins (exprs : list Element) (cg_cp_bin_map : bin_map_t)
  (parrent_bins : list (list Z)) : result (list (list Z)) :=
  match exprs with
  | [] => Err IndexError
  | expr :: exprs' =>
      let expr_name := text expr in
      new_bins <- extend_bins parrent_bins
                    (names <- subscript option_string_eqb expr_name cg_cp_bin_map ;;
                     Ok (map fst names)) ;;
      match exprs' with
      | [] => Ok new_bins
      | _ :: _ => collect_cross_bins exprs' cg_cp_bin_map new_bins
      end
  end.

(** [" : ".join(names)], which raises [TypeError] on a [None] name. *)
Fixpoint join (names : list name_t) : result string :=
  match names with
  | [] => Ok ""
  | n :: rest =>
      s <- match n with Some s => Ok s | None => Err TypeError end ;;
      match rest with
      | [] => Ok s
      | _ :: _ => r <- join rest ;; Ok (s ++ " : " ++ r)%string
      end
  end.

Fixpoint tuple_names (cg_cp_bin_map : bin_map_t) (exprs : list Element)
  (bin_tuple : list Z) : result (list name_t) :=
  match bin_tuple with
  | [] => Ok []
  | bin_idx :: tuple' =>
      match exprs with
      | [] => Err IndexError
      | expr :: exprs' =>
          names <- subscript option_string_eqb (text expr) cg_cp_bin_map ;;
          expr_bin_name <- subscript Z.eqb bin_idx names ;;
          rest <- tuple_names cg_cp_bin_map exprs' tuple' ;;
          Ok (expr_bin_name :: rest)
      end
  end.

Definition get_cross_bin_name_from_tuple (cg_cp_bin_map : bin_map_t)
  (exprs : list Element) (bin_tuple : list Z) : result string :=
  names <- tuple_names cg_cp_bin_map exprs bin_tuple ;;
  join (List.rev names).

(** The loop over the cross bins of a cross: the state is the bin index, the
    bin names by index and [bin_hits]. *)
Definition cross_bin_body (bin : Element)
  (st : Z * list (Z * name_t) * list (list Z * Z))
  : result (Z * list (Z * name_t) * list (list Z * Z)) :=
  let '(bin_idx, names, bin_hits) := st in
  let names := store Z.eqb bin_idx (get "name" bin) names in
  bin_tuple <- Merge.read_indexes (findall_ucis_children bin "index") ;;
  bin_content <- not_none (find_ucis_element bin "contents") ;;
  bin_hit_count <- py_int (get "coverageCount" bin_content) ;;
  Ok (bin_idx + 1, names, store Merge.tuple_eqb bin_tuple bin_hit_count bin_hits).

(** The loop over [bin_hits.items()]. *)
Definition cross_hit_body (cg_cp_bin_map : bin_map_t) (exprs : list Element)
  (entry : list Z * Z) (st : (Z * Z) * (list name_t * list name_t))
  : result ((Z * Z) * (list name_t * list name_t)) :=
  let '((nhits, nmisses), (hit_names, miss_names)) := st in
  name <- get_cross_bin_name_from_tuple cg_cp_bin_map exprs (fst entry) ;;
  if 0 <? snd entry
  then Ok ((nhits + 1, nmisses), (hit_names ++ [Some name], miss_names))
  else Ok ((nhits, nmisses + 1), (hit_names, miss_names ++ [Some name])).

(** The body of the loop of [get_cross_report_data]. *)
Definition get_cross_report_data_body (cross : Element)
  (st : bin_map_t * inst_data_t) : result (bin_map_t * inst_data_t) :=
  let '(cg_cp_bin_map, inst_data) := st in
  options <- not_none (find_ucis_element cross "options") ;;
  let cr_name := get "name" cross in
  cr_weight <- py_int (get "weight" options) ;;
  let cg_cp_bin_map := store option_string_eqb cr_name [] cg_cp_bin_map in
  let exprs := findall_ucis_children cross "crossExpr" in
  all_cross_bins <- collect_cross_bins exprs cg_cp_bin_map [[]] ;;
  let count := Z.of_nat (List.length all_cross_bins) in
  let bin_hits :=
    fold_left (fun d cbin => store Merge.tuple_eqb cbin 0 d) all_cross_bins [] in
  '(_, names, bin_hits) <-
    for_each cross_bin_body (findall_ucis_children cross "crossBin")
             (0, [], bin_hits) ;;
  let cg_cp_bin_map := store option_string_eqb cr_name names cg_cp_bin_map in
  '((nhits, nmisses), (hit_names, miss_names)) <-
    for_each (cross_hit_body cg_cp_bin_map exprs) bin_hits ((0, 0), ([], [])) ;;
  pct <- percentage count nmisses ;;
  let cr_data := mk_item_data "cross" count nhits nmisses hit_names miss_names
                              cr_weight pct (Some bin_hits) in
  Ok (cg_cp_bin_map, store option_string_eqb cr_name cr_data inst_data).

Definition get_cross_report_data (cgInstance : Element)
  (st : bin_map_t * inst_data_t) : result (bin_map_t * inst_data_t) :=
  for_each get_cross_report_data_body
           (findall_ucis_children cgInstance "cross") st.

(** [sum([x['pct_cov'] * x['weight'] for x in values]) /
     float(sum([x['weight'] for x in values]))] *)
Definition rollup (values : list (float * Z)) : result float :=
  products <- for_each (fun pw acc =>
                          w <- py_float (snd pw) ;;
                          Ok (acc ++ [PrimFloat.mul (fst pw) w]))
                       values [] ;;
  total <- py_float (sumZ (map snd values)) ;;
  py_div (py_sum products) total.

(** The weighted average as the specification words it: the sum of
    percentage times weight, divided by the sum of the weights. *)
Definition weighted_average (items : list (float * Z)) : float :=
  PrimFloat.div
    (fold_left (fun acc pw =>
                  PrimFloat.add acc (PrimFloat.mul (fst pw) (float_of_Z (snd pw))))
               items PrimFloat.zero)
    (float_of_Z (fold_left Z.add (map snd items) 0)).

(** The percentage and the weight of an item of [inst_data]. *)
Definition pct_weight (kv : name_t * item_data) : float * Z :=
  (pct_cov (snd kv), weight (snd kv)).

(** The names of the coverpoints, then of the crosses, of an instance. *)
Definition item_names (cgInstance : Element) : list name_t :=
  map (get "name") (findall_ucis_children cgInstance "coverpoint")
  ++ map (get "name") (findall_ucis_children cgInstance "cross").

(** [cg_data] of an instance. *)
Record cg_data_t : Type := mk_cg_data {
  cg_weight : Z;
  inst_data : inst_data_t;
  cg_pct_cov : float
}.

(** The body of the loop of [get_covergroup_report_data], for one instance:
    the data of its coverpoints, then of its crosses, then the roll-up. *)
Definition get_covergroup_report_data_body (cgInstance : Element)
  : result cg_data_t :=
  options <- not_none (find_ucis_element cgInstance "options") ;;
  w <- py_int (get "weight" options) ;;
  st <- get_coverpoint_report_data cgInstance ([], []) ;;
  st <- get_cross_report_data cgInstance st ;;
  let items := snd st in
  pct <- rollup (map pct_weight items) ;;
  Ok (mk_cg_data w items pct).

(** [get_covergroup_report_data]: [module_data['instances']] by instance
    name. *)
Definition get_covergroup_report_data (covergroupCoverage : option Element)
  (instances : list (name_t * cg_data_t)) : result (list (name_t * cg_data_t)) :=
  cg <- not_none covergroupCoverage ;;
  for_each (fun cgInstance instances =>
              cg_data <- get_covergroup_report_data_body cgInstance ;;
              Ok (store option_string_eqb (get "name" cgInstance) cg_data instances))
           (findall_ucis_children cg "cgInstance") instances.

End Report.

(* ================================================================== *)
(** ** Queries of the merge engine and relations between merge databases *)

(** The query [parse_xml] and [parse_covergroup_type] build for an instance
    of a covergroup type. *)
Definition cgInstance_query (cgTypeName cgInstName : option string) : xpath :=
  [format_et_query "instanceCoverages" (Some "moduleName") cgTypeName;
   format_et_query "covergroupCoverage" None None;
   format_et_query "cgInstance" (Some "name") cgInstName].

(** The attributes the queries of the engine test. *)
Definition identity_key (k : string) : bool :=
  (String.eqb k "name" || String.eqb k "moduleName")%bool.

Definition step_keys_ok (keep : string -> bool) (st : step) : bool :=
  match step_pred st with
  | Some (k, _) => keep k
  | None => true
  end.

(** [skel keep e e']: [e'] is [e] up to the text and the attributes outside
    [keep]; the tree shape, the tags and the attributes in [keep] agree. *)
Unset Elimination Schemes.
Inductive skel (keep : string -> bool) : Element -> Element -> Prop :=
| skel_intro t a a' x x' cs cs' :
    (forall k, keep k = true -> dict_get k a = dict_get k a') ->
    Forall2 (skel keep) cs cs' ->
    skel keep (mkElement t a x cs) (mkElement t a' x' cs').

(** A query result is sound: its element stands at its location. *)
Definition located (e : Element) (r : loc * Element) : Prop :=
  get_at (fst r) e = Some (snd r).

(** Two query results agree: the same location, elements of the same
    shape. *)
Definition same_result (keep : string -> bool) (r r' : loc * Element) : Prop :=
  fst r = fst r' /\ skel keep (snd r) (snd r').

(** An element with the given UCIS tag occurs in [e] ([e] included). *)
Fixpoint mentions (name : string) (e : Element) : bool :=
  match e with
  | mkElement t _ _ cs => (String.eqb t (qname name) || existsb (mentions name) cs)%bool
  end.

(** A bin or cross bin subtree that holds no covergroup type: what the
    engine adds below a coverpoint or a cross. *)
Definition inert (c : Element) : bool :=
  ((has_tag "coverpointBin" c || has_tag "crossBin" c)
   && negb (mentions "instanceCoverages" c))%bool.

(** [grows e e']: [e'] comes from [e] by changes that keep the tags and the
    identity attributes, drop or reorder children, and add inert children. *)
Inductive grows : Element -> Element -> Prop :=
| grows_intro t a a' x x' cs cs' :
    (forall k, identity_key k = true -> dict_get k a = dict_get k a') ->
    Forall (fun c' => inert c' = true \/ Exists (fun c => grows c c') cs) cs' ->
    grows (mkElement t a x cs) (mkElement t a' x' cs').
Set Elimination Schemes.

(** The bins of the coverpoints of a parsed instance follow the UCIS schema
    in that no covergroup type is nested in them. *)
Definition bins_flat (cgInstance : Element) : bool :=
  forallb (fun coverpoint =>
             forallb (fun bin => negb (mentions "instanceCoverages" bin))
                     (findall_ucis_children coverpoint "coverpointBin"))
          (findall_ucis_children cgInstance "coverpoint").

(** All the cross bins of a list, read in order. *)
Fixpoint read_crossBins (l : list Element) : result (list (list Z * Z)) :=
  match l with
  | [] => Ok []
  | crossBin :: l' =>
      entry <- Merge.read_crossBin crossBin ;;
      rest <- read_crossBins l' ;;
      Ok (entry :: rest)
  end.

(** The query [merge_bin_hits] builds for the ranges of a bin. *)
Definition range_query (parent_query : xpath) : xpath :=
  parent_query ++ [format_et_query "range" None None].

(** The bin at [binLoc] and the range counter of the merge database agree:
    the [alias] of the bin the query finds and the [coverageCount] of the
    contents of the range the range query finds are the same number. *)
Definition alias_in_sync (bin_query : xpath) (binLoc : loc) (mergeDBtree : Element)
  : Prop :=
  exists binElement rangeLoc rangeElement i contentsElement hits,
    find_merge_element_by_query bin_query mergeDBtree = Some (binLoc, binElement) /\
    find_merge_element_by_query (range_query bin_query) mergeDBtree
      = Some (rangeLoc, rangeElement) /\
    find_ucis_child rangeElement "contents" = Some (i, contentsElement) /\
    get "alias" binElement = Some (py_str hits) /\
    get "coverageCount" contentsElement = Some (py_str hits).

(** Every attribute but [coverageCount]. *)
Definition not_coverageCount (k : string) : bool :=
  negb (String.eqb k "coverageCount").

(** The query [parse_coverpoints] builds for a parsed coverpoint. *)
Definition coverpoint_query (parent_query : xpath) (coverpoint : Element) : xpath :=
  parent_query ++ [format_et_query "coverpoint" (Some "name") (get "name" coverpoint)].

(** A query above the bins: it starts at a covergroup type, tests identity
    attributes only, and none of its child steps selects a bin or a cross
    bin. *)
Definition above_bins (q : xpath) : bool :=
  match q with
  | [] => false
  | st :: steps =>
      (String.eqb (step_tag st) "instanceCoverages"
       && forallb (step_keys_ok identity_key) q
       && forallb (fun s => negb (String.eqb (step_tag s) "coverpointBin")
                            && negb (String.eqb (step_tag s) "crossBin")) steps)%bool
  end.

(** The query [parse_crosses] builds for a parsed cross. *)
Definition cross_query (parent_query : xpath) (cross : Element) : xpath :=
  parent_query ++ [format_et_query "cross" (Some "name") (get "name" cross)].

(** What the loops of [parse_crosses] compute, as functions of the entries
    read from the cross bins: the dictionary after the first loop, the
    dictionary after the second loop, and the [crossBin] element the third
    loop builds for an entry ([numCvps] index elements, the first ones
    holding the tuple, and the contents element). *)
Definition set_entry (m : Merge.mergeMap_t) (e : list Z * Z) : Merge.mergeMap_t :=
  Merge.map_set (fst e) (snd e) m.

Definition add_entry (m : Merge.mergeMap_t) (e : list Z * Z) : Merge.mergeMap_t :=
  match Merge.map_get (fst e) m with
  | Some n => Merge.map_set (fst e) (n + snd e) m
  | None => Merge.map_set (fst e) (snd e) m
  end.

Definition index_element (x : string) : Element :=
  mkElement (qname "index") [] (Some x) [].

Definition contents_element (count : string) : Element :=
  mkElement (qname "contents") [("coverageCount", count)] None [].

Definition crossBin_element (numCvps : nat) (e : list Z * Z) : Element :=
  mkElement (qname "crossBin")
            [("name", ""); ("key", "0"); ("type", "default")]
            (Some Merge.newline)
            (map (fun v => index_element (py_str v)) (fst e)
             ++ repeat (index_element "0") (numCvps - List.length (fst e))
             ++ [contents_element (py_str (snd e))]).

(** The dictionary [merge_crossBins] rebuilds the cross from. *)
Definition merged_map (accE srcE : list (list Z * Z)) : Merge.mergeMap_t :=
  fold_left add_entry srcE (fold_left set_entry accE []).

(** The hits of a list of cross bin entries, all tuples together. *)
Definition total_hits (entries : list (list Z * Z)) : Z :=
  fold_right (fun e acc => snd e + acc) 0 entries.

(** An entry as the rebuilt cross bin reads back: the tuple filled up with
    zeros to the number of crossed coverpoints. *)
Definition pad_entry (numCvps : nat) (e : list Z * Z) : list Z * Z :=
  (fst e ++ repeat 0 (numCvps - List.length (fst e)), snd e).

(** The matches of the query [.//st/steps] in an element and below it: those
    whose first step selects the element itself, then those in its
    descendants. *)
Definition matches_from (st : step) (steps : list step) (e : Element)
  : list (loc * Element) :=
  (if matches st e then select_children steps e else []) ++ iterfind (st :: steps) e.

(** The root element of the merge database is kept: its tag, attributes and
    text are the same and it has lost no child position. *)
Definition root_kept (e e' : Element) : Prop :=
  tag e' = tag e /\ attrib e' = attrib e /\ text e' = text e /\
  (List.length (children e) <= List.length (children e'))%nat.

(** The query [parse_xml] builds for the covergroup type of a parsed
    [instanceCoverages] element. *)
Definition covergroup_type_query (instanceCoverages : Element) : xpath :=
  [format_et_query "instanceCoverages" (Some "moduleName")
                   (get "moduleName" instanceCoverages);
   format_et_query "covergroupCoverage" None None].

(** The query [parse_coverpoint_bins] builds for a parsed bin, and the query
    [parse_covergroup_type] builds for a parsed instance. *)
Definition bin_query (parent_query : xpath) (bin : Element) : xpath :=
  parent_query ++ [format_et_query "coverpointBin" (Some "name") (get "name" bin)].

Definition cgInstance_child_query (parent_query : xpath) (cgInstance : Element) : xpath :=
  parent_query ++ [format_et_query "cgInstance" (Some "name") (get "name" cgInstance)].

(** The hit count of a [range], read the way [merge_bin_hits] reads it, and
    the hit counts of a list of ranges. *)
Definition range_hits (range : Element) : result Z :=
  contents <- not_none (find_ucis_element range "contents") ;;
  py_int (get "coverageCount" contents).

Fixpoint read_ranges (l : list Element) : result (list Z) :=
  match l with
  | [] => Ok []
  | range :: l' =>
      n <- range_hits range ;;
      rest <- read_ranges l' ;;
      Ok (n :: rest)
  end.

Definition sum_hits (counts : list Z) : Z := fold_right Z.add 0 counts.

(** The two attributes [merge_bin_hits] writes, and every other one. *)
Definition counter_key (k : string) : bool :=
  (String.eqb k "alias" || String.eqb k "coverageCount")%bool.

Definition not_counter (k : string) : bool := negb (counter_key k).

(** [touched free e e']: [e'] is [e] up to the values of the attributes in
    [free]: the same elements with the same tags and texts in the same
    places, and the same values for every other attribute. *)
Unset Elimination Schemes.
Inductive touched (free : string -> bool) : Element -> Element -> Prop :=
| touched_intro t a a' x cs cs' :
    (forall k, free k = false -> dict_get k a = dict_get k a') ->
    Forall2 (touched free) cs cs' ->
    touched free (mkElement t a x cs) (mkElement t a' x cs').
Set Elimination Schemes.

(** ** The report of a document *)

(** [module_data] of a covergroup type and [data] of a document. *)
Record module_data_t : Type := mk_module_data {
  module_pct_cov : float;
  module_weight : Z;
  instances : list (Report.name_t * Report.cg_data_t)
}.

Record report_data_t : Type := mk_report_data {
  modules : list (Report.name_t * module_data_t);
  data_pct_cov : float
}.

(** The percentage and the weight of an instance and of a covergroup type. *)
Definition cg_pct_weight (kv : Report.name_t * Report.cg_data_t) : float * Z :=
  (Report.cg_pct_cov (snd kv), Report.cg_weight (snd kv)).

Definition module_pct_weight (kv : Report.name_t * module_data_t) : float * Z :=
  (module_pct_cov (snd kv), module_weight (snd kv)).

(** The body of the loop of [get_report_data], for one covergroup type: its
    weight is 1, its instances are reported and rolled up. *)
Definition get_report_data_body (instanceCoverages : Element)
  (modules : list (Report.name_t * module_data_t))
  : result (list (Report.name_t * module_data_t)) :=
  let covergroupCoverage := find_ucis_element instanceCoverages "covergroupCoverage" in
  instances <- Report.get_covergroup_report_data covergroupCoverage [] ;;
  pct <- Report.rollup (map cg_pct_weight instances) ;;
  Ok (store option_string_eqb (get "moduleName" instanceCoverages)
            (mk_module_data pct 1 instances) modules).

(** [get_report_data] on a parsed document. *)
Definition get_report_data (parseRoot : Element) : result report_data_t :=
  modules <- for_each get_report_data_body
                      (findall_ucis_children parseRoot "instanceCoverages") [] ;;
  pct <- Report.rollup (map module_pct_weight modules) ;;
  Ok (mk_report_data modules pct).

(** A bin counts as hit when its [alias] is a positive number. *)
Definition bin_is_hit (bin : Element) : bool :=
  match py_int (get "alias" bin) with
  | Ok n => 0 <? n
  | Err _ => false
  end.



(** All the hits a list of cross bin entries gives for a tuple, whether the
    list has the tuple, and the last count it gives for it. *)
Definition tuple_total (t : list Z) (entries : list (list Z * Z)) : Z :=
  fold_right (fun e acc => if Merge.tuple_eqb t (fst e) then snd e + acc else acc) 0 entries.

Definition occurs (t : list Z) (entries : list (list Z * Z)) : bool :=
  existsb (fun e => Merge.tuple_eqb t (fst e)) entries.

Definition last_count (t : list Z) (entries : list (list Z * Z)) : option Z :=
  lookup Merge.tuple_eqb t (List.rev entries).


(** ** Values a query can carry *)

(** A string without an apostrophe, and an attribute value that is absent or
    such a string: what [format_et_query] pastes into a query and ElementPath
    reads back unchanged. *)
Fixpoint quote_free (s : string) : bool :=
  match s with
  | EmptyString => true
  | String c s' => (negb (Ascii.eqb c "'"%char) && quote_free s')%bool
  end.

Definition plain_value (v : option string) : bool :=
  match v with
  | Some s => quote_free s
  | None => true
  end.

(** A query all of whose attribute tests carry such a value. *)
Definition plain_step (st : step) : bool :=
  match step_pred st with
  | Some (_, v) => quote_free v
  | None => true
  end.

Definition plain_query (q : xpath) : bool := forallb plain_step q.

(** A document none of whose [name] and [moduleName] attributes, the values
    the engine pastes into its queries, has an apostrophe. *)
Fixpoint plain_names (e : Element) : bool :=
  match e with
  | mkElement _ a _ cs =>
      (plain_value (dict_get "name" a) && plain_value (dict_get "moduleName" a)
       && forallb plain_names cs)%bool
  end.

(** ** Two bins of one name *)

(** A coverpoint with two bins named "b": the first has no range, the second
    has the range (0,10) with 2 hits and the alias 2.  A run of the same
    coverpoint with one bin "b" over (0,10) with 3 hits.  What the merge of
    the second into the first leaves. *)
Definition same_name_bins : Element :=
  Sample.coverpoint "cp" "1"
    [Sample.coverpointBin "b" "default" "0" [];
     Sample.coverpointBin "b" "default" "2" [Sample.range "0" "10" "2"]].

Definition same_name_run : Element :=
  Sample.coverpoint "cp" "1"
    [Sample.coverpointBin "b" "default" "3" [Sample.range "0" "10" "3"]].

Definition same_name_merged : Element :=
  Sample.coverpoint "cp" "1"
    [Sample.coverpointBin "b" "default" "5" [];
     Sample.coverpointBin "b" "default" "2" [Sample.range "0" "10" "5"]].

(** ** A covergroup type nested in a bin *)

(** A run of instance "I" whose coverpoint "A" has, beside the bin "a0", a
    bin "x" that holds a covergroup type "M" of its own, with an instance
    "I" and a coverpoint "B"; the run also has a coverpoint "B" with the bin
    "b0".  What the merge of this run leaves of a merge database that has
    the coverpoint "A" only. *)
Definition nested_type_bin (bins : list Element) : Element :=
  Sample.coverpointBin "x" "default" "0"
    [Sample.instanceCoverages "M"
       [Sample.cgInstance "I" "1" [Sample.coverpoint "B" "1" bins]]].

Definition nested_type_run : list Element :=
  [Sample.coverpoint "A" "1"
     [Sample.coverpointBin "a0" "default" "1" [Sample.range "0" "1" "1"];
      nested_type_bin []];
   Sample.cvp_B].

Definition nested_type_merged : list Element :=
  [Sample.coverpoint "A" "1"
     [Sample.coverpointBin "a0" "default" "2" [Sample.range "0" "1" "2"];
      nested_type_bin
        [Sample.coverpointBin "b0" "default" "1" [Sample.range "0" "1" "1"]]]].

(** ** Tuples a cross lists once *)




(** ** What the report holds for an instance *)












(* ================================================================== *)
(** * Properties *)

(** ** The error monad and loops *)

Lemma bind_Ok {A B : Type} (r : result A) (k : A -> result B) (b : B) :
  bind r k = Ok b -> exists a, r = Ok a /\ k a = Ok b.
Proof.
  destruct r as [a|e]; simpl; intros H; [eauto | discriminate].
Qed.

Lemma for_each_app {A S : Type} (body : A -> S -> result S) (l1 l2 : list A) (s : S) :
  for_each body (l1 ++ l2) s = bind (for_each body l1 s) (for_each body l2).
Proof.
  revert s; induction l1 as [|a l1 IH]; intros s; simpl; [reflexivity|].
  destruct (body a s) as [s'|e]; simpl; [apply IH | reflexivity].
Qed.

(** A property kept by every successful iteration holds after the loop. *)
Lemma for_each_invariant {A S : Type} (P : S -> Prop) (body : A -> S -> result S)
  (l : list A) :
  (forall a s s', In a l -> P s -> body a s = Ok s' -> P s') ->
  forall s s', P s -> for_each body l s = Ok s' -> P s'.
Proof.
  induction l as [|a l IH]; intros Hstep s s' Hs Hrun; simpl in Hrun.
  - inversion Hrun; subst; assumption.
  - apply bind_Ok in Hrun as (s1 & Hb & Hrest).
    apply (IH (fun a0 t t' Hin => Hstep a0 t t' (or_intror Hin)) s1 s'); [|assumption].
    eapply Hstep; [left; reflexivity | eassumption | eassumption].
Qed.

(** A loop fails as soon as one of its iterations cannot succeed from any
    state the invariant allows. *)
Lemma for_each_fails {A S : Type} (P : S -> Prop) (body : A -> S -> result S)
  (l : list A) (bad : A) :
  (forall a s s', In a l -> P s -> body a s = Ok s' -> P s') ->
  In bad l ->
  (forall s, P s -> exists e, body bad s = Err e) ->
  forall s, P s -> exists e, for_each body l s = Err e.
Proof.
  induction l as [|a l IH]; intros Hstep Hin Hbad s Hs; [contradiction|].
  simpl. destruct (body a s) as [s1|e] eqn:Hb; simpl; [|eauto].
  destruct Hin as [->|Hin].
  - destruct (Hbad s Hs) as (e & He). congruence.
  - apply IH; auto.
    + intros a0 t t' Hin0; apply Hstep; right; assumption.
    + eapply Hstep; [left; reflexivity | eassumption | eassumption].
Qed.

(** ** Dictionaries *)

Section DictFacts.
Context {K V : Type} (eqb : K -> K -> bool).
Hypothesis eqb_spec : forall a b, eqb a b = true <-> a = b.

Lemma eqb_refl_of_spec (k : K) : eqb k k = true.
Proof. apply eqb_spec; reflexivity. Qed.

Lemma eqb_neq_of_spec (k k' : K) : k <> k' -> eqb k k' = false.
Proof.
  intros Hne. destruct (eqb k k') eqn:E; [|reflexivity].
  apply eqb_spec in E. contradiction.
Qed.

Lemma lookup_store_same (k : K) (v : V) (d : list (K * V)) :
  lookup eqb k (store eqb k v d) = Some v.
Proof.
  induction d as [|[k' v'] d IH]; simpl.
  - rewrite eqb_refl_of_spec; reflexivity.
  - destruct (eqb k k') eqn:E; simpl; rewrite E; [reflexivity | exact IH].
Qed.

Lemma lookup_store_other (k k' : K) (v : V) (d : list (K * V)) :
  k <> k' -> lookup eqb k' (store eqb k v d) = lookup eqb k' d.
Proof.
  intros Hne. induction d as [|[k0 v0] d IH]; simpl.
  - rewrite eqb_neq_of_spec; [reflexivity | congruence].
  - destruct (eqb k k0) eqn:E; simpl.
    + apply eqb_spec in E; subst k0.
      rewrite (eqb_neq_of_spec k' k); [reflexivity | congruence].
    + destruct (eqb k' k0); [reflexivity | exact IH].
Qed.

Lemma lookup_None_not_In (k : K) (d : list (K * V)) :
  lookup eqb k d = None <-> ~ In k (map fst d).
Proof.
  induction d as [|[k' v'] d IH]; simpl; [tauto|].
  destruct (eqb k k') eqn:E.
  - apply eqb_spec in E; subst. split; [discriminate | intros H; exfalso; auto].
  - rewrite IH. split.
    + intros H [Heq|Hin]; [subst k'; rewrite eqb_refl_of_spec in E; discriminate | auto].
    + intros H Hin; apply H; right; assumption.
Qed.

Lemma lookup_In (k : K) (v : V) (d : list (K * V)) :
  NoDup (map fst d) -> (lookup eqb k d = Some v <-> In (k, v) d).
Proof.
  induction d as [|[k' v'] d IH]; simpl; intros Hnd.
  - split; [discriminate | contradiction].
  - inversion Hnd as [|? ? Hnotin Hnd']; subst.
    destruct (eqb k k') eqn:E.
    + apply eqb_spec in E; subst k'. split.
      * intros H; inversion H; subst; left; reflexivity.
      * intros [H|H]; [inversion H; reflexivity|].
        exfalso; apply Hnotin. apply (in_map fst) in H. exact H.
    + rewrite (IH Hnd'). split; [intros H; right; exact H|].
      intros [H|H]; [|exact H].
      inversion H; subst. rewrite eqb_refl_of_spec in E; discriminate.
Qed.

Lemma keys_store (k : K) (v : V) (d : list (K * V)) :
  map fst (store eqb k v d) =
  match lookup eqb k d with
  | Some _ => map fst d
  | None => map fst d ++ [k]
  end.
Proof.
  induction d as [|[k' v'] d IH]; simpl; [reflexivity|].
  destruct (eqb k k') eqn:E; simpl; [reflexivity|].
  rewrite IH. destruct (lookup eqb k d); reflexivity.
Qed.

Lemma store_NoDup (k : K) (v : V) (d : list (K * V)) :
  NoDup (map fst d) -> NoDup (map fst (store eqb k v d)).
Proof.
  intros Hnd. rewrite keys_store.
  destruct (lookup eqb k d) eqn:E; [assumption|].
  apply lookup_None_not_In in E.
  apply NoDup_app; [assumption | repeat constructor; intros [] | ].
  intros a Ha [Hb|[]]; subst; contradiction.
Qed.
End DictFacts.

(** ** Locations *)

Lemma nth_error_update_nth {A : Type} (i : nat) (f : A -> A) (l : list A) :
  nth_error (update_nth i f l) i = option_map f (nth_error l i).
Proof.
  revert i; induction l as [|a l IH]; intros [|i]; simpl; auto.
Qed.

Lemma nth_error_update_nth_other {A : Type} (i j : nat) (f : A -> A) (l : list A) :
  i <> j -> nth_error (update_nth i f l) j = nth_error l j.
Proof.
  revert i j; induction l as [|a l IH]; intros [|i] [|j] Hne; simpl; auto.
  contradiction.
Qed.

Lemma get_at_update_at (l : loc) (f : Element -> Element) (e x : Element) :
  get_at l e = Some x -> get_at l (update_at l f e) = Some (f x).
Proof.
  revert e; induction l as [|i l IH]; intros e H; simpl in *.
  - inversion H; reflexivity.
  - rewrite nth_error_update_nth.
    destruct (nth_error (children e) i) as [c|]; [simpl; auto | discriminate].
Qed.

Lemma get_at_app (p l : loc) (e : Element) :
  get_at (p ++ l) e =
  match get_at p e with
  | Some x => get_at l x
  | None => None
  end.
Proof.
  revert e; induction p as [|i p IH]; intros e; simpl; [reflexivity|].
  destruct (nth_error (children e) i); [apply IH | reflexivity].
Qed.

(** ** Children found by tag *)

Lemma find_index_spec (p : Element -> bool) (l : list Element) (i j : nat) (c : Element) :
  find_index p i l = Some (j, c) ->
  exists n, j = (i + n)%nat /\ nth_error l n = Some c /\ p c = true /\
            List.find p l = Some c.
Proof.
  revert i; induction l as [|a l IH]; intros i H; simpl in *; [discriminate|].
  destruct (p a) eqn:Ha.
  - inversion H; subst. exists 0%nat. rewrite Nat.add_0_r. auto.
  - destruct (IH _ H) as (n & -> & Hn & Hp & Hf).
    exists (S n). split; [lia | auto].
Qed.

Lemma find_ucis_child_spec (e : Element) (name : string) (i : nat) (c : Element) :
  find_ucis_child e name = Some (i, c) ->
  nth_error (children e) i = Some c /\ has_tag name c = true /\
  find_ucis_element e name = Some c.
Proof.
  unfold find_ucis_child, find_ucis_element. intros H.
  apply find_index_spec in H as (n & -> & Hn & Hp & Hf). simpl. auto.
Qed.

Lemma find_index_of_find (p : Element -> bool) (l : list Element) (i : nat) (c : Element) :
  List.find p l = Some c -> exists j, find_index p i l = Some (j, c).
Proof.
  revert i; induction l as [|a l IH]; intros i H; simpl in *; [discriminate|].
  destruct (p a); [inversion H; eauto | apply IH; assumption].
Qed.

(** ** Soundness of the query results: a match is the element at its
    location *)

Lemma indexed_located (cs : list Element) (i : nat) :
  Forall (fun ic => exists n, fst ic = (i + n)%nat /\ nth_error cs n = Some (snd ic))
         (indexed i cs).
Proof.
  revert i; induction cs as [|c cs IH]; intros i; simpl; constructor.
  - exists 0%nat. simpl. split; [lia | reflexivity].
  - specialize (IH (S i)). rewrite Forall_forall in *. intros ic Hin.
    destruct (IH ic Hin) as (n & Hn & Hc). exists (S n). split; [lia | exact Hc].
Qed.

Lemma select_children_located (steps : list step) (e : Element) :
  Forall (located e) (select_children steps e).
Proof.
  revert e; induction steps as [|st steps IH]; intros e; simpl.
  - repeat constructor.
  - apply Forall_forall. intros r Hin.
    apply in_flat_map in Hin as (ic & Hic & Hr).
    pose proof (indexed_located (children e) 0) as Hloc.
    rewrite Forall_forall in Hloc. destruct (Hloc ic Hic) as (n & Hn & Hc).
    simpl in Hn. destruct (matches st (snd ic)); [|contradiction].
    apply in_map_iff in Hr as (r0 & <- & Hr0).
    specialize (IH (snd ic)). rewrite Forall_forall in IH.
    specialize (IH r0 Hr0). unfold located in *; simpl.
    rewrite Hn, Hc. exact IH.
Qed.

Lemma descendants_from_located (f : Element -> list (loc * Element)) (cs : list Element) :
  Forall (fun c => Forall (located c) (f c)) cs ->
  forall i (pre : list Element), List.length pre = i ->
  forall e, children e = pre ++ cs ->
  Forall (located e) (descendants_from f i cs).
Proof.
  induction 1 as [|c cs Hc Hcs IH]; intros i pre Hlen e He; simpl; [constructor|].
  assert (Hnth : nth_error (children e) i = Some c).
  { rewrite He, nth_error_app2 by lia. subst i. rewrite Nat.sub_diag. reflexivity. }
  constructor; [|apply Forall_app; split].
  - unfold located; simpl. rewrite Hnth. reflexivity.
  - apply Forall_forall. intros r Hin. apply in_map_iff in Hin as (r0 & <- & Hr0).
    rewrite Forall_forall in Hc. specialize (Hc r0 Hr0).
    unfold located in *; simpl. rewrite Hnth. exact Hc.
  - apply (IH (S i) (pre ++ [c])).
    + rewrite length_app; simpl; lia.
    + rewrite He, <- app_assoc. reflexivity.
Qed.

Lemma descendants_located (e : Element) : Forall (located e) (descendants e).
Proof.
  induction e as [t a x cs IH] using Element_children_ind. simpl.
  apply (descendants_from_located descendants cs IH 0%nat []); reflexivity.
Qed.

Lemma iterfind_located (q : xpath) (root : Element) :
  Forall (located root) (iterfind q root).
Proof.
  destruct q as [|st steps]; simpl; [constructor|].
  apply Forall_forall. intros r Hin.
  apply in_flat_map in Hin as (d & Hd & Hr).
  destruct (matches st (snd d)); [|contradiction].
  apply in_map_iff in Hr as (r0 & <- & Hr0).
  pose proof (descendants_located root) as HD. rewrite Forall_forall in HD.
  pose proof (select_children_located steps (snd d)) as HS. rewrite Forall_forall in HS.
  unfold located, prefix; simpl. rewrite get_at_app, (HD d Hd). exact (HS r0 Hr0).
Qed.

Lemma find_located (q : xpath) (root : Element) (l : loc) (e : Element) :
  find_merge_element_by_query q root = Some (l, e) -> get_at l root = Some e.
Proof.
  unfold find_merge_element_by_query. intros H.
  pose proof (iterfind_located q root) as HF.
  destruct (iterfind q root) as [|r rs]; [discriminate|].
  inversion H; subst. inversion HF; subst. assumption.
Qed.

(** ** [int(str(z)) = z] *)

Lemma digits_acc_digit (c : ascii) (d : Z) (s : string) (b : bool) (acc : Z) :
  Ascii.eqb c "_"%char = false -> digit_val c = Some d ->
  digits_acc (String c s) b acc = digits_acc s true (10 * acc + d).
Proof. intros Hu Hd. simpl. rewrite Hu, Hd. reflexivity. Qed.

Ltac digit_step :=
  cbn [NilEmpty.string_of_uint];
  erewrite digits_acc_digit by reflexivity;
  repeat match goal with
         | |- context [Z.of_nat ?n] =>
             let v := eval compute in (Z.of_nat n) in change (Z.of_nat n) with v
         end.

Lemma digits_acc_of_uint_acc (d : uint) (p : positive) :
  digits_acc (NilEmpty.string_of_uint d) true (Z.pos p) =
  Some (Z.pos (Pos.of_uint_acc d p)).
Proof.
  revert p; induction d; intros p; [reflexivity | ..]; digit_step;
    cbn [Pos.of_uint_acc]; rewrite <- IHd; f_equal; lia.
Qed.

Lemma digits_acc_of_uint (d : uint) :
  digits_acc (NilEmpty.string_of_uint d) true 0 = Some (Z.of_uint d).
Proof.
  induction d; [reflexivity | ..]; digit_step; unfold Z.of_uint;
    cbn [Pos.of_uint]; first [ exact IHd | apply digits_acc_of_uint_acc ].
Qed.

Lemma digits_acc_of_uint_start (d : uint) :
  d <> Nil ->
  digits_acc (NilEmpty.string_of_uint d) false 0 = Some (Z.of_uint d).
Proof.
  intros Hd. rewrite <- digits_acc_of_uint.
  destruct d; [contradiction | ..]; digit_step; symmetry; digit_step; reflexivity.
Qed.

Lemma rstrip_string_of_uint (d : uint) :
  rstrip (NilEmpty.string_of_uint d) = NilEmpty.string_of_uint d.
Proof.
  induction d; [reflexivity | ..]; cbn [NilEmpty.string_of_uint rstrip];
    rewrite IHd; destruct (NilEmpty.string_of_uint d); reflexivity.
Qed.

Lemma lstrip_string_of_uint (d : uint) :
  lstrip (NilEmpty.string_of_uint d) = NilEmpty.string_of_uint d.
Proof. destruct d; reflexivity. Qed.

Lemma int_of_str_string_of_uint (d : uint) :
  d <> Nil -> int_of_str (NilEmpty.string_of_uint d) = Some (Z.of_uint d).
Proof.
  intros Hd. unfold int_of_str.
  rewrite lstrip_string_of_uint, rstrip_string_of_uint.
  rewrite <- (digits_acc_of_uint_start d Hd).
  destruct d; [contradiction | ..]; reflexivity.
Qed.

Lemma int_of_str_minus (d : uint) :
  d <> Nil ->
  int_of_str (String "-" (NilEmpty.string_of_uint d)) = Some (- Z.of_uint d).
Proof.
  intros Hd. unfold int_of_str. cbn [lstrip].
  replace (is_space "-") with false by reflexivity.
  cbn [rstrip]. rewrite rstrip_string_of_uint.
  destruct (NilEmpty.string_of_uint d) eqn:E.
  - destruct d; try contradiction; discriminate.
  - rewrite <- E. rewrite (digits_acc_of_uint_start d Hd). reflexivity.
Qed.

Lemma int_of_str_py_str (z : Z) : int_of_str (py_str z) = Some z.
Proof.
  unfold py_str. destruct z as [|p|p]; cbn [Z.to_int NilEmpty.string_of_int].
  - reflexivity.
  - rewrite int_of_str_string_of_uint by apply Unsigned.to_uint_nonnil.
    unfold Z.of_uint. rewrite DecimalPos.Unsigned.of_to. reflexivity.
  - rewrite int_of_str_minus by apply Unsigned.to_uint_nonnil.
    unfold Z.of_uint. rewrite DecimalPos.Unsigned.of_to. reflexivity.
Qed.

Lemma py_int_py_str (z : Z) : py_int (Some (py_str z)) = Ok z.
Proof. unfold py_int. rewrite int_of_str_py_str. reflexivity. Qed.

Import Merge.

(** ** The cross bin loops *)

Lemma tuple_eqb_spec (a b : list Z) : tuple_eqb a b = true <-> a = b.
Proof.
  unfold tuple_eqb. destruct (list_eq_dec Z.eq_dec a b); split; congruence.
Qed.

Lemma has_tag_qname (name : string) (a : list (string * string)) (x : option string)
  (cs : list Element) :
  has_tag name (mkElement (qname name) a x cs) = true.
Proof. unfold has_tag; simpl. apply String.eqb_refl. Qed.

Lemma has_tag_exclusive (n1 n2 : string) (e : Element) :
  String.eqb (qname n1) (qname n2) = false ->
  has_tag n1 e = true -> has_tag n2 e = false.
Proof.
  unfold has_tag. intros Hne H1. apply String.eqb_eq in H1. rewrite H1. exact Hne.
Qed.

Lemma remove_first_app_clean (p : Element -> bool) (pre l : list Element) :
  filter p pre = [] -> remove_first p (pre ++ l) = pre ++ remove_first p l.
Proof.
  induction pre as [|a pre IH]; simpl; intros H; [reflexivity|].
  destruct (p a); [discriminate|]. rewrite IH by assumption. reflexivity.
Qed.

(** The first loop leaves the cross without its cross bins. *)
Lemma drain_children (numCvps : nat) (cs : list Element) :
  forall (pre : list Element) (m m' : mergeMap_t) (x x' : Element),
  filter (has_tag "crossBin") pre = [] ->
  children x = pre ++ cs ->
  for_each (drain_body numCvps) (filter (has_tag "crossBin") cs) (m, x) = Ok (m', x') ->
  x' = set_children (pre ++ filter (fun c => negb (has_tag "crossBin" c)) cs) x.
Proof.
  induction cs as [|c cs IH]; intros pre m m' x x' Hpre Hx Hrun; simpl in *.
  - inversion Hrun; subst. rewrite <- Hx. destruct x'; reflexivity.
  - destruct (has_tag "crossBin" c) eqn:Hc; simpl in *.
    + apply bind_Ok in Hrun as ([m1 x1] & Hbody & Hrest).
      unfold drain_body in Hbody.
      apply bind_Ok in Hbody as ([t h] & _ & Hbody).
      destruct (negb (Nat.eqb (List.length t) numCvps)); [discriminate|].
      inversion Hbody; subst m1 x1; clear Hbody.
      rewrite Hx, remove_first_app_clean in Hrest by assumption.
      simpl in Hrest. rewrite Hc in Hrest.
      apply (IH pre) in Hrest; [| assumption | reflexivity].
      rewrite Hrest. destruct x; reflexivity.
    + apply (IH (pre ++ [c])) in Hrun.
      * rewrite Hrun, <- app_assoc. reflexivity.
      * rewrite filter_app; simpl. rewrite Hc, Hpre. reflexivity.
      * rewrite Hx, <- app_assoc. reflexivity.
Qed.

(** The first loop succeeds exactly on readable cross bins of the right
    size, and stores their entries in order. *)
Lemma drain_map (numCvps : nat) (bins : list Element) :
  forall (m m' : mergeMap_t) (x x' : Element),
  for_each (drain_body numCvps) bins (m, x) = Ok (m', x') ->
  exists entries,
    read_crossBins bins = Ok entries /\
    Forall (fun e => List.length (fst e) = numCvps) entries /\
    m' = fold_left set_entry entries m.
Proof.
  induction bins as [|b bins IH]; intros m m' x x' Hrun; simpl in *.
  - inversion Hrun; subst. exists []. repeat split; constructor.
  - apply bind_Ok in Hrun as ([m1 x1] & Hbody & Hrest).
    unfold drain_body in Hbody.
    apply bind_Ok in Hbody as ([t h] & Hread & Hbody).
    destruct (Nat.eqb (List.length t) numCvps) eqn:Hlen; [|discriminate].
    simpl in Hbody. inversion Hbody; subst m1 x1; clear Hbody.
    apply IH in Hrest as (entries & Hr & Hl & Hm).
    exists ((t, h) :: entries). rewrite Hread, Hr. simpl.
    repeat split; [|exact Hm].
    constructor; [apply Nat.eqb_eq; exact Hlen | exact Hl].
Qed.

Lemma drain_total (numCvps : nat) (bins : list Element) :
  forall (entries : list (list Z * Z)) (m : mergeMap_t) (x : Element),
  read_crossBins bins = Ok entries ->
  Forall (fun e => List.length (fst e) = numCvps) entries ->
  exists x', for_each (drain_body numCvps) bins (m, x) =
             Ok (fold_left set_entry entries m, x').
Proof.
  induction bins as [|b bins IH]; intros entries m x Hread Hlen; simpl in *.
  - inversion Hread; subst. eexists; reflexivity.
  - apply bind_Ok in Hread as ([t h] & Hb & Hread).
    apply bind_Ok in Hread as (rest & Hrest & Hread).
    inversion Hread; subst entries; clear Hread.
    apply Forall_cons_iff in Hlen as [Hl Hlen'].
    unfold drain_body at 1. rewrite Hb. simpl in *.
    apply Nat.eqb_eq in Hl. rewrite Hl. simpl.
    apply (IH rest); assumption.
Qed.

(** The second loop folds the entries of the parsed cross bins. *)
Lemma fold_body_eq (b : Element) (m : mergeMap_t) :
  fold_body b m = e <- read_crossBin b ;; Ok (add_entry m e).
Proof.
  unfold fold_body, add_entry. destruct (read_crossBin b) as [[t h]|]; simpl; [|reflexivity].
  destruct (map_get t m); reflexivity.
Qed.

Lemma fold_total (bins : list Element) :
  forall (entries : list (list Z * Z)) (m : mergeMap_t),
  read_crossBins bins = Ok entries ->
  for_each fold_body bins m = Ok (fold_left add_entry entries m).
Proof.
  induction bins as [|b bins IH]; intros entries m Hread; simpl in *.
  - inversion Hread; reflexivity.
  - apply bind_Ok in Hread as (e & Hb & Hread).
    apply bind_Ok in Hread as (rest & Hrest & Hread).
    inversion Hread; subst entries; clear Hread.
    rewrite fold_body_eq, Hb. simpl. apply IH. assumption.
Qed.

Lemma fold_map (bins : list Element) :
  forall (m m' : mergeMap_t),
  for_each fold_body bins m = Ok m' ->
  exists entries, read_crossBins bins = Ok entries /\ m' = fold_left add_entry entries m.
Proof.
  induction bins as [|b bins IH]; intros m m' Hrun; simpl in *.
  - inversion Hrun; subst. exists []. split; reflexivity.
  - apply bind_Ok in Hrun as (m1 & Hb & Hrest).
    rewrite fold_body_eq in Hb. apply bind_Ok in Hb as (e & Hread & Hm1).
    inversion Hm1; subst m1; clear Hm1.
    apply IH in Hrest as (entries & Hr & Hm).
    exists (e :: entries). rewrite Hread, Hr. simpl. split; [reflexivity | exact Hm].
Qed.

(** The third loop: the fresh [crossBin] elements. *)
Lemma fill_indexes_template (indexesTuple : list Z) :
  forall (numCvps : nat) (rest : Element),
  has_tag "index" rest = false ->
  fill_indexes (repeat (index_element "0") numCvps ++ [rest]) indexesTuple =
  if Nat.leb (List.length indexesTuple) numCvps
  then Ok (map (fun v => index_element (py_str v)) indexesTuple
           ++ repeat (index_element "0") (numCvps - List.length indexesTuple)
           ++ [rest])
  else Err StopIteration.
Proof.
  induction indexesTuple as [|v t IH]; intros n rest Hrest.
  - simpl. rewrite Nat.sub_0_r. reflexivity.
  - destruct n as [|n]; simpl.
    + rewrite Hrest. reflexivity.
    + rewrite (IH n rest Hrest).
      destruct (Nat.leb (List.length t) n); reflexivity.
Qed.

Lemma find_index_app_clean (p : Element -> bool) (pre l : list Element) (i : nat) :
  filter p pre = [] ->
  find_index p i (pre ++ l) = find_index p (i + List.length pre) l.
Proof.
  revert i; induction pre as [|a pre IH]; simpl; intros i H.
  - rewrite Nat.add_0_r. reflexivity.
  - destruct (p a); [discriminate|]. rewrite IH by assumption.
    f_equal. lia.
Qed.

Lemma update_nth_app_clean {A : Type} (f : A -> A) (pre : list A) (a : A) (l : list A) :
  update_nth (List.length pre) f (pre ++ a :: l) = pre ++ f a :: l.
Proof. induction pre as [|b pre IH]; simpl; [reflexivity | rewrite IH; reflexivity]. Qed.

Lemma filter_repeat_false (p : Element -> bool) (c : Element) (n : nat) :
  p c = false -> filter p (repeat c n) = [].
Proof. intros H. induction n; simpl; [reflexivity | rewrite H; exact IHn]. Qed.

Lemma filter_repeat_true (p : Element -> bool) (c : Element) (n : nat) :
  p c = true -> filter p (repeat c n) = repeat c n.
Proof. intros H. induction n; simpl; [reflexivity | rewrite H, IHn; reflexivity]. Qed.

Lemma filter_map_index (name : string) (b : bool) (t : list Z) :
  has_tag name (index_element "0") = b ->
  filter (has_tag name) (map (fun v => index_element (py_str v)) t) =
  if b then map (fun v => index_element (py_str v)) t else [].
Proof.
  intros H. induction t as [|v t IH]; simpl; [destruct b; reflexivity|].
  change (has_tag name (index_element (py_str v))) with (has_tag name (index_element "0")).
  rewrite H, IH. destruct b; reflexivity.
Qed.

Lemma new_crossBin_eq (numCvps : nat) (t : list Z) (h : Z) :
  new_crossBin numCvps t h =
  if Nat.leb (List.length t) numCvps
  then Ok (crossBin_element numCvps (t, h))
  else Err StopIteration.
Proof.
  unfold new_crossBin, crossBinTemplate. cbn [children].
  rewrite fill_indexes_template by reflexivity.
  destruct (Nat.leb (List.length t) numCvps); [|reflexivity].
  cbn [bind]. unfold find_ucis_child. cbn [children set_children].
  rewrite app_assoc.
  rewrite find_index_app_clean.
  2:{ rewrite filter_app, (filter_map_index "contents" false) by reflexivity.
      rewrite filter_repeat_false by reflexivity. reflexivity. }
  cbn [find_index]. change (has_tag "contents" _) with true. cbv iota.
  cbn [not_none bind fst update_at]. cbn [children set_children tag attrib text].
  rewrite Nat.add_0_l, update_nth_app_clean, <- app_assoc.
  reflexivity.
Qed.

Lemma rebuild_eq (numCvps : nat) (m : mergeMap_t) :
  forall x : Element,
  for_each (rebuild_body numCvps) m x =
  if forallb (fun e => Nat.leb (List.length (fst e)) numCvps) m
  then Ok (set_children (children x ++ map (crossBin_element numCvps) m) x)
  else Err StopIteration.
Proof.
  induction m as [|[t h] m IH]; intros x; simpl.
  - rewrite app_nil_r. destruct x; reflexivity.
  - unfold rebuild_body at 1. cbn [fst snd]. rewrite new_crossBin_eq.
    destruct (Nat.leb (List.length t) numCvps); [|reflexivity].
    cbn [bind andb]. rewrite IH.
    destruct (forallb _ m); [|reflexivity].
    unfold append, set_children; simpl. rewrite <- app_assoc. reflexivity.
Qed.

(** Reading a fresh [crossBin] back gives its entry, padded with zeros when
    the tuple was shorter than the cross. *)
Lemma read_indexes_fresh (t : list Z) :
  read_indexes (map (fun v => index_element (py_str v)) t) = Ok t.
Proof.
  induction t as [|v t IH]; simpl; [reflexivity|].
  unfold py_int. rewrite int_of_str_py_str. simpl. rewrite IH. reflexivity.
Qed.

Lemma read_indexes_zeros (n : nat) :
  read_indexes (repeat (index_element "0") n) = Ok (repeat 0 n).
Proof. induction n; simpl; [reflexivity | rewrite IHn; reflexivity]. Qed.

Lemma read_indexes_app (l1 l2 : list Element) :
  read_indexes (l1 ++ l2) =
  a <- read_indexes l1 ;; b <- read_indexes l2 ;; Ok (a ++ b).
Proof.
  induction l1 as [|c l1 IH]; simpl.
  - destruct (read_indexes l2); reflexivity.
  - destruct (py_int (text c)); simpl; [|reflexivity].
    rewrite IH. destruct (read_indexes l1); simpl; [|reflexivity].
    destruct (read_indexes l2); reflexivity.
Qed.

Lemma find_app_clean (p : Element -> bool) (pre l : list Element) :
  filter p pre = [] -> List.find p (pre ++ l) = List.find p l.
Proof.
  induction pre as [|a pre IH]; simpl; intros H; [reflexivity|].
  destruct (p a); [discriminate | auto].
Qed.

Lemma read_crossBin_fresh (numCvps : nat) (e : list Z * Z) :
  read_crossBin (crossBin_element numCvps e) =
  Ok (fst e ++ repeat 0 (numCvps - List.length (fst e)), snd e).
Proof.
  destruct e as [t h]. unfold read_crossBin, findall_ucis_children, find_ucis_element.
  cbn [crossBin_element children fst snd].
  rewrite !filter_app, (filter_map_index "index" true) by reflexivity.
  rewrite filter_repeat_true by reflexivity.
  cbn [filter]. change (has_tag "index" (contents_element _)) with false. cbv iota.
  rewrite app_nil_r, read_indexes_app, read_indexes_fresh, read_indexes_zeros.
  cbn [bind]. rewrite app_assoc, find_app_clean.
  2:{ rewrite filter_app, (filter_map_index "contents" false) by reflexivity.
      rewrite filter_repeat_false by reflexivity. reflexivity. }
  cbn [List.find]. change (has_tag "contents" (contents_element _)) with true. cbv iota.
  cbn [not_none bind].
  change (get "coverageCount" (contents_element (py_str h))) with (Some (py_str h)).
  rewrite py_int_py_str. reflexivity.
Qed.

Lemma read_crossBins_fresh (numCvps : nat) (m : mergeMap_t) :
  Forall (fun e => List.length (fst e) = numCvps) m ->
  read_crossBins (map (crossBin_element numCvps) m) = Ok m.
Proof.
  induction 1 as [|[t h] m Hl Hm IH]; simpl; [reflexivity|].
  rewrite read_crossBin_fresh, IH. cbn [fst snd bind] in *.
  rewrite Hl, Nat.sub_diag, app_nil_r. reflexivity.
Qed.

(** ** The merge of one cross *)

Lemma filter_remove_first (p q : Element -> bool) (l : list Element) :
  (forall x, q x = true -> p x = false) ->
  filter p (remove_first q l) = filter p l.
Proof.
  intros Hpq. induction l as [|a l IH]; simpl; [reflexivity|].
  destruct (q a) eqn:Hq.
  - rewrite (Hpq a Hq). reflexivity.
  - simpl. rewrite IH. reflexivity.
Qed.

Lemma filter_filter_negb (p : Element -> bool) (l : list Element) :
  filter p (filter (fun c => negb (p c)) l) = [].
Proof.
  induction l as [|a l IH]; simpl; [reflexivity|].
  destruct (p a) eqn:Hp; simpl; [exact IH | rewrite Hp; exact IH].
Qed.

Lemma find_filter_negb (p q : Element -> bool) (l : list Element) :
  (forall x, q x = true -> p x = false) ->
  List.find q (filter (fun c => negb (p c)) l) = List.find q l.
Proof.
  intros Hpq. induction l as [|a l IH]; simpl; [reflexivity|].
  destruct (q a) eqn:Hq.
  - rewrite (Hpq a Hq). simpl. rewrite Hq. reflexivity.
  - destruct (p a); simpl; [exact IH | rewrite Hq; exact IH].
Qed.

Lemma find_app_left (q : Element -> bool) (l1 l2 : list Element) :
  filter q l2 = [] -> List.find q (l1 ++ l2) = List.find q l1.
Proof.
  intros H. induction l1 as [|a l1 IH]; simpl.
  - induction l2 as [|b l2 IH2]; simpl in *; [reflexivity|].
    destruct (q b); [discriminate | auto].
  - destruct (q a); [reflexivity | exact IH].
Qed.

Lemma crossBin_not_userAttr (x : Element) :
  has_tag "userAttr" x = true -> has_tag "crossBin" x = false.
Proof. apply has_tag_exclusive. reflexivity. Qed.

Lemma filter_fresh_crossBin (numCvps : nat) (m : mergeMap_t) :
  filter (has_tag "crossBin") (map (crossBin_element numCvps) m) =
  map (crossBin_element numCvps) m.
Proof.
  induction m as [|e m IH]; simpl; [reflexivity|].
  change (has_tag "crossBin" (crossBin_element numCvps e)) with true.
  cbv iota. rewrite IH. reflexivity.
Qed.

Lemma filter_fresh_userAttr (numCvps : nat) (m : mergeMap_t) :
  filter (has_tag "userAttr") (map (crossBin_element numCvps) m) = [].
Proof.
  induction m as [|e m IH]; simpl; [reflexivity|].
  change (has_tag "userAttr" (crossBin_element numCvps e)) with false.
  exact IH.
Qed.

(** A successful merge of a cross: both lists of cross bins were readable,
    the cross bins of the merge database had the size of the cross, and the
    cross bins of the result are the fresh ones of the merged dictionary; the
    tag and the attributes of the cross are kept. *)
Lemma merge_crossBins_spec (cross mce mce' : Element) :
  merge_crossBins cross mce = Ok mce' ->
  let numCvps := List.length (findall_ucis_children mce "crossExpr") in
  exists accE srcE,
    read_crossBins (findall_ucis_children mce "crossBin") = Ok accE /\
    Forall (fun e => List.length (fst e) = numCvps) accE /\
    read_crossBins (findall_ucis_children cross "crossBin") = Ok srcE /\
    forallb (fun e => Nat.leb (List.length (fst e)) numCvps) (merged_map accE srcE) = true /\
    findall_ucis_children mce' "crossBin" =
      map (crossBin_element numCvps) (merged_map accE srcE) /\
    (exists userAttrElement,
       find_ucis_element mce "userAttr" = Some userAttrElement /\
       children mce' =
         remove_first (has_tag "userAttr")
           (filter (fun c => negb (has_tag "crossBin" c)) (children mce)
            ++ map (crossBin_element numCvps) (merged_map accE srcE))
         ++ [userAttrElement]) /\
    tag mce' = tag mce /\ attrib mce' = attrib mce.
Proof.
  intros Hrun numCvps. unfold merge_crossBins in Hrun. fold numCvps in Hrun.
  apply bind_Ok in Hrun as ([m1 x1] & Hdrain & Hrun).
  apply bind_Ok in Hrun as (m2 & Hfold & Hrun).
  apply bind_Ok in Hrun as (x2 & Hrebuild & Hrun).
  cbn [fst snd] in *.
  pose proof (drain_map _ _ _ _ _ _ Hdrain) as (accE & HaccE & Hlen & Hm1).
  unfold findall_ucis_children in Hdrain.
  apply (drain_children numCvps (children mce) []) in Hdrain; [|reflexivity|reflexivity].
  apply fold_map in Hfold as (srcE & HsrcE & Hm2).
  rewrite rebuild_eq in Hrebuild.
  destruct (forallb _ m2) eqn:Hfit; [|discriminate].
  inversion Hrebuild; subst x2; clear Hrebuild.
  subst x1 m1. cbn [List.app children set_children] in Hrun.
  assert (HM : m2 = merged_map accE srcE) by exact Hm2. clear Hm2.
  unfold find_ucis_element in Hrun. cbn [children set_children] in Hrun.
  destruct (List.find (has_tag "userAttr") _) as [ua|] eqn:Hua; [|discriminate].
  inversion Hrun; subst mce'; clear Hrun.
  assert (Hua' : find_ucis_element mce "userAttr" = Some ua).
  { unfold find_ucis_element.
    rewrite find_app_left in Hua by apply filter_fresh_userAttr.
    rewrite find_filter_negb in Hua by apply crossBin_not_userAttr. exact Hua. }
  exists accE, srcE. subst m2.
  repeat split; try assumption.
  - unfold findall_ucis_children, append. cbn [children set_children].
    rewrite filter_app.
    rewrite filter_remove_first by apply crossBin_not_userAttr.
    rewrite filter_app, filter_filter_negb, filter_fresh_crossBin. cbn [List.app filter].
    apply find_some in Hua as [_ Hua].
    rewrite (crossBin_not_userAttr ua Hua). apply app_nil_r.
  - exists ua. split; [exact Hua' | reflexivity].
Qed.

(** Conversely the merge of a cross succeeds when its inputs are well
    formed. *)
Lemma merge_crossBins_total (cross mce : Element) (accE srcE : list (list Z * Z)) :
  let numCvps := List.length (findall_ucis_children mce "crossExpr") in
  read_crossBins (findall_ucis_children mce "crossBin") = Ok accE ->
  Forall (fun e => List.length (fst e) = numCvps) accE ->
  read_crossBins (findall_ucis_children cross "crossBin") = Ok srcE ->
  forallb (fun e => Nat.leb (List.length (fst e)) numCvps) (merged_map accE srcE) = true ->
  find_ucis_element mce "userAttr" <> None ->
  exists mce', merge_crossBins cross mce = Ok mce'.
Proof.
  intros numCvps HaccE Hlen HsrcE Hfit Hua.
  unfold merge_crossBins. change (List.length (findall_ucis_children mce "crossExpr")) with numCvps.
  destruct (drain_total numCvps _ accE [] mce HaccE Hlen) as (x1 & Hdrain).
  pose proof Hdrain as Hshape. unfold findall_ucis_children in Hshape.
  apply (drain_children numCvps (children mce) []) in Hshape; [|reflexivity|reflexivity].
  unfold find_ucis_element in Hua.
  destruct (List.find (has_tag "userAttr") (children mce)) as [ua|] eqn:Hfind;
    [|contradiction].
  eexists.
  change (@pair (list (list Z * Z)) Element [] mce)
    with (@pair mergeMap_t Element [] mce).
  rewrite Hdrain. cbn [bind fst snd].
  rewrite (fold_total _ srcE _ HsrcE). cbn [bind].
  rewrite rebuild_eq. fold (merged_map accE srcE). rewrite Hfit. cbn [bind].
  unfold find_ucis_element. subst x1. cbn [List.app children set_children].
  rewrite find_app_left by apply filter_fresh_userAttr.
  rewrite find_filter_negb by apply crossBin_not_userAttr.
  rewrite Hfind. reflexivity.
Qed.

(** ** The merged dictionary *)

Lemma keys_set_entry_fresh (entries : list (list Z * Z)) :
  forall m : mergeMap_t,
  NoDup (map fst m ++ map fst entries) ->
  fold_left set_entry entries m = m ++ entries.
Proof.
  induction entries as [|[t h] entries IH]; intros m Hnd; simpl.
  - rewrite app_nil_r. reflexivity.
  - assert (Hfresh : lookup tuple_eqb t m = None).
    { apply (lookup_None_not_In tuple_eqb tuple_eqb_spec).
      apply NoDup_remove_2 in Hnd. intros Hin. apply Hnd.
      apply in_or_app. left. exact Hin. }
    assert (Hstore : set_entry m (t, h) = m ++ [(t, h)]).
    { unfold set_entry, map_set. cbn [fst snd]. clear -Hfresh.
      induction m as [|[t' h'] m IHm]; simpl in *; [reflexivity|].
      destruct (tuple_eqb t t'); [discriminate|]. rewrite IHm by assumption.
      reflexivity. }
    rewrite Hstore, IH.
    + rewrite <- app_assoc. reflexivity.
    + rewrite map_app. simpl. rewrite <- app_assoc. exact Hnd.
Qed.

Lemma add_entry_keys (m : mergeMap_t) (e : list Z * Z) :
  map fst (add_entry m e) =
  match lookup tuple_eqb (fst e) m with
  | Some _ => map fst m
  | None => map fst m ++ [fst e]
  end.
Proof.
  unfold add_entry, map_get, map_set.
  destruct (lookup tuple_eqb (fst e) m) eqn:E; rewrite keys_store, E; reflexivity.
Qed.

Lemma merged_keys_NoDup (srcE : list (list Z * Z)) :
  forall m : mergeMap_t,
  NoDup (map fst m) -> NoDup (map fst (fold_left add_entry srcE m)).
Proof.
  induction srcE as [|e srcE IH]; intros m Hnd; simpl; [assumption|].
  apply IH. unfold add_entry, map_get, map_set.
  destruct (lookup tuple_eqb (fst e) m); apply store_NoDup; auto using tuple_eqb_spec.
Qed.

Lemma merged_keys_Forall (P : list Z -> Prop) (srcE : list (list Z * Z)) :
  forall m : mergeMap_t,
  Forall P (map fst m) -> Forall P (map fst srcE) ->
  Forall P (map fst (fold_left add_entry srcE m)).
Proof.
  induction srcE as [|e srcE IH]; intros m Hm Hs; simpl; [assumption|].
  inversion Hs; subst. apply IH; [|assumption].
  rewrite add_entry_keys. destruct (lookup tuple_eqb (fst e) m); [assumption|].
  apply Forall_app. split; [assumption | repeat constructor; assumption].
Qed.

(** The count of a tuple after the second loop: what the merge database had
    plus what the parsed cross has, each where present. *)
Lemma merged_lookup (srcE : list (list Z * Z)) :
  NoDup (map fst srcE) ->
  forall (m : mergeMap_t) (t : list Z),
  lookup tuple_eqb t (fold_left add_entry srcE m) =
  match lookup tuple_eqb t srcE, lookup tuple_eqb t m with
  | Some s, Some a => Some (a + s)
  | Some s, None => Some s
  | None, r => r
  end.
Proof.
  induction srcE as [|[t1 s1] srcE IH]; intros Hnd m t; simpl.
  - destruct (lookup tuple_eqb t m); reflexivity.
  - inversion Hnd as [|? ? Hfresh Hnd']; subst.
    rewrite (IH Hnd').
    destruct (tuple_eqb t t1) eqn:E.
    + apply tuple_eqb_spec in E; subst t1.
      assert (Hnone : lookup tuple_eqb t srcE = None)
        by (apply (lookup_None_not_In tuple_eqb tuple_eqb_spec); exact Hfresh).
      rewrite Hnone. unfold add_entry, map_get, map_set; cbn [fst snd].
      destruct (lookup tuple_eqb t m) eqn:Em;
        rewrite (lookup_store_same tuple_eqb tuple_eqb_spec); reflexivity.
    + assert (Hne : t1 <> t).
      { intros ->. rewrite (proj2 (tuple_eqb_spec t t) eq_refl) in E. discriminate. }
      assert (Hsame : lookup tuple_eqb t (add_entry m (t1, s1)) = lookup tuple_eqb t m).
      { unfold add_entry, map_get, map_set; cbn [fst snd].
        destruct (lookup tuple_eqb t1 m);
          apply (lookup_store_other tuple_eqb tuple_eqb_spec); exact Hne. }
      rewrite Hsame. reflexivity.
Qed.

Lemma find_none_filter (p : Element -> bool) (l : list Element) :
  List.find p l = None <-> filter p l = [].
Proof.
  induction l as [|a l IH]; simpl; [tauto|].
  destruct (p a); [split; discriminate | exact IH].
Qed.

Lemma read_crossBins_nil (l : list Element) :
  read_crossBins l = Ok [] -> l = [].
Proof.
  destruct l as [|b l]; simpl; [reflexivity|].
  destruct (read_crossBin b); simpl; [|discriminate].
  destruct (read_crossBins l); simpl; discriminate.
Qed.

(** ** Claims about the merge of crosses *)

(** C9.  When the parsed cross has no [crossBin] child and its query finds a
    cross in the merge database, the iteration of [parse_crosses] for it
    returns the merge database as it was: nothing is drained, checked,
    rebuilt or moved. *)
Theorem C9_empty_cross_skipped (parent_query : xpath) (cross mergeDBtree : Element) :
  find_merge_element_by_query (cross_query parent_query cross) mergeDBtree <> None ->
  findall_ucis_children cross "crossBin" = [] ->
  parse_crosses_body parent_query cross mergeDBtree = Ok mergeDBtree.
Proof.
  intros Hfound Hempty. unfold parse_crosses_body.
  fold (cross_query parent_query cross).
  destruct (find_merge_element_by_query _ mergeDBtree) as [[crossLoc mce]|];
    [|contradiction].
  unfold find_ucis_element, findall_ucis_children in *.
  apply find_none_filter in Hempty. rewrite Hempty. reflexivity.
Qed.

(** C10.  After an iteration of [parse_crosses] that rebuilt a cross, every
    [crossBin] of that cross in the merge database is a fresh element with
    exactly the attributes name="", key="0" and type="default", whatever the
    cross bins of the two documents carried; its children are the index
    elements and the contents element holding the merged entry. *)
Theorem C10_rebuilt_crossBins_fresh (parent_query : xpath)
  (cross mergeDBtree tree' : Element) (crossLoc : loc) (mergeCrossElement : Element) :
  find_merge_element_by_query (cross_query parent_query cross) mergeDBtree
    = Some (crossLoc, mergeCrossElement) ->
  findall_ucis_children cross "crossBin" <> [] ->
  parse_crosses_body parent_query cross mergeDBtree = Ok tree' ->
  exists merged accE srcE,
    get_at crossLoc tree' = Some merged /\
    read_crossBins (findall_ucis_children mergeCrossElement "crossBin") = Ok accE /\
    read_crossBins (findall_ucis_children cross "crossBin") = Ok srcE /\
    findall_ucis_children merged "crossBin" =
      map (crossBin_element
             (List.length (findall_ucis_children mergeCrossElement "crossExpr")))
          (merged_map accE srcE) /\
    Forall (fun crossBin =>
              attrib crossBin = [("name", ""); ("key", "0"); ("type", "default")])
           (findall_ucis_children merged "crossBin").
Proof.
  intros Hfind Hne Hrun. unfold parse_crosses_body in Hrun.
  fold (cross_query parent_query cross) in Hrun. rewrite Hfind in Hrun.
  destruct (find_ucis_element cross "crossBin") eqn:Hbin.
  2:{ exfalso. apply Hne. apply find_none_filter. exact Hbin. }
  apply bind_Ok in Hrun as (merged & Hmerge & Hrun).
  inversion Hrun; subst tree'; clear Hrun.
  pose proof (merge_crossBins_spec _ _ _ Hmerge)
    as (accE & srcE & HaccE & _ & HsrcE & _ & Hbins & _).
  exists merged, accE, srcE. repeat split; try assumption.
  - apply (get_at_update_at crossLoc (fun _ => merged) mergeDBtree mergeCrossElement).
    eapply find_located. exact Hfind.
  - rewrite Hbins. apply Forall_map. apply Forall_forall. intros entry _. reflexivity.
Qed.

Lemma C9_empty_cross_skipped_witness :
  parse_crosses_body Sample.instance_query Sample.cross_empty
                     (Sample.document [Sample.cross_acc])
  = Ok (Sample.document [Sample.cross_acc]).
Proof.
  apply (C9_empty_cross_skipped Sample.instance_query Sample.cross_empty
           (Sample.document [Sample.cross_acc])).
  - vm_compute; discriminate.
  - vm_compute; reflexivity.
Defined.

Lemma C10_rebuilt_crossBins_fresh_witness :
  exists merged accE srcE,
    get_at [0; 0; 0; 1]%nat (Sample.document [Sample.cross_merged]) = Some merged /\
    read_crossBins (findall_ucis_children Sample.cross_acc "crossBin") = Ok accE /\
    read_crossBins (findall_ucis_children Sample.cross_src "crossBin") = Ok srcE /\
    findall_ucis_children merged "crossBin" =
      map (crossBin_element
             (List.length (findall_ucis_children Sample.cross_acc "crossExpr")))
          (merged_map accE srcE) /\
    Forall (fun crossBin =>
              attrib crossBin = [("name", ""); ("key", "0"); ("type", "default")])
           (findall_ucis_children merged "crossBin").
Proof.
  apply (C10_rebuilt_crossBins_fresh Sample.instance_query Sample.cross_src
           (Sample.document [Sample.cross_acc]) (Sample.document [Sample.cross_merged])
           [0; 0; 0; 1]%nat Sample.cross_acc).
  - vm_compute; reflexivity.
  - vm_compute; discriminate.
  - vm_compute; reflexivity.
Defined.

(** ** Where the engine departs from its description *)

(** C3.  Bins named "lo" over (0,10), of kind default in the merge database
    and of kind ignore in the parsed document: the kinds are never compared,
    the merge succeeds and adds the hits under the kind default. *)
Theorem C3_kind_mismatch_merged :
  parse_xml (Sample.document [Sample.lo_ignore]) (Sample.document [Sample.lo_default])
  = Ok (Sample.document [Sample.lo_merged]).
Proof. vm_compute; reflexivity. Qed.

(** C4.  Every range of the parsed bin is looked up with the same query and
    so meets the first range of the bin in the merge database.  A bin with
    the ranges (0,5) and (6,10) cannot be merged with itself; a bin that
    lists (0,5) twice has the hits of both ranges added to the first one. *)
Theorem C4_ranges_meet_first_range :
  parse_xml (Sample.document [Sample.two_ranges]) (Sample.document [Sample.two_ranges])
  = Err (ValueError "Range limits differ between mergeDBtree and parsed XML!")
  /\
  parse_xml (Sample.document [Sample.twin_ranges "1" "1" "2"])
            (Sample.document [Sample.twin_ranges "1" "1" "2"])
  = Ok (Sample.document [Sample.twin_ranges "4" "4" "2"]).
Proof. split; vm_compute; reflexivity. Qed.

(** C5.  The parsed cross bin has one index, the cross two crossed
    coverpoints: only the cross bins of the merge database are checked, the
    merge succeeds and the rebuilt cross holds the tuple (4,0). *)
Theorem C5_short_source_tuple_padded :
  parse_xml (Sample.document [Sample.cross_short]) (Sample.document [Sample.cross_acc])
  = Ok (Sample.document [Sample.cross_padded]).
Proof. vm_compute; reflexivity. Qed.

(** C7.  A document whose bin has two ranges becomes the merge database and
    is then merged into it: the second merge raises instead of doubling the
    hit counts. *)
Theorem C7_self_merge_raises :
  process_xml (Sample.document [Sample.two_ranges]) None
  = Ok (true, Some (Sample.document [Sample.two_ranges]))
  /\
  process_xml (Sample.document [Sample.two_ranges])
              (Some (Sample.document [Sample.two_ranges]))
  = Err (ValueError "Range limits differ between mergeDBtree and parsed XML!").
Proof. split; vm_compute; reflexivity. Qed.

(** ** Merge databases of the same shape *)

Section Skeleton.
Variable keep : string -> bool.

Lemma skel_refl (e : Element) : skel keep e e.
Proof.
  induction e as [t a x cs IH] using Element_children_ind.
  constructor; [reflexivity|].
  induction IH; constructor; assumption.
Qed.

Lemma skel_trans (e1 : Element) :
  forall e2 e3, skel keep e1 e2 -> skel keep e2 e3 -> skel keep e1 e3.
Proof.
  induction e1 as [t a x cs IH] using Element_children_ind.
  intros e2 e3 H12 H23.
  inversion H12 as [t1 a1 a2 x1 x2 cs1 cs2 Ha12 Hc12]; subst.
  inversion H23 as [t2 a2' a3 x2' x3 cs2' cs3 Ha23 Hc23]; subst.
  constructor.
  - intros k Hk. rewrite (Ha12 k Hk). apply Ha23. exact Hk.
  - clear -IH Hc12 Hc23. revert cs3 Hc23.
    induction Hc12 as [|c1 c2 cs1 cs2 H1 Hrest IHrest]; intros cs3 Hc23;
      inversion Hc23; subst; constructor.
    + inversion IH; subst. eauto.
    + inversion IH; subst. eauto.
Qed.

Lemma skel_tag (e e' : Element) : skel keep e e' -> tag e = tag e'.
Proof. inversion 1; reflexivity. Qed.

Lemma skel_get (e e' : Element) (k : string) :
  skel keep e e' -> keep k = true -> get k e = get k e'.
Proof. inversion 1; subst. intros Hk. unfold get; simpl. auto. Qed.

Lemma skel_children (e e' : Element) :
  skel keep e e' -> Forall2 (skel keep) (children e) (children e').
Proof. inversion 1; assumption. Qed.

Lemma skel_has_tag (e e' : Element) (name : string) :
  skel keep e e' -> has_tag name e = has_tag name e'.
Proof. intros H. unfold has_tag. rewrite (skel_tag _ _ H). reflexivity. Qed.

Lemma skel_matches (st : step) (e e' : Element) :
  skel keep e e' -> step_keys_ok keep st = true -> matches st e = matches st e'.
Proof.
  intros H Hk. unfold matches. rewrite (skel_has_tag _ _ _ H).
  unfold step_keys_ok in Hk. destruct (step_pred st) as [[k v]|]; [|reflexivity].
  rewrite (skel_get _ _ k H Hk). reflexivity.
Qed.

Lemma Forall2_flat_map {A B : Type} (R : A -> A -> Prop) (S : B -> B -> Prop)
  (f f' : A -> list B) (l l' : list A) :
  Forall2 R l l' ->
  (forall a a', R a a' -> Forall2 S (f a) (f' a')) ->
  Forall2 S (flat_map f l) (flat_map f' l').
Proof.
  intros H Hf. induction H; simpl; [constructor|].
  apply Forall2_app; auto.
Qed.

Lemma under_same (i : nat) (l l' : list (loc * Element)) :
  Forall2 (same_result keep) l l' ->
  Forall2 (same_result keep) (map (under i) l) (map (under i) l').
Proof.
  induction 1 as [|r r' l l' [Hl He] _ IH]; simpl; constructor; [|exact IH].
  split; simpl; [rewrite Hl; reflexivity | exact He].
Qed.

Lemma prefix_same (p : loc) (l l' : list (loc * Element)) :
  Forall2 (same_result keep) l l' ->
  Forall2 (same_result keep) (map (prefix p) l) (map (prefix p) l').
Proof.
  induction 1 as [|r r' l l' [Hl He] _ IH]; simpl; constructor; [|exact IH].
  split; simpl; [rewrite Hl; reflexivity | exact He].
Qed.

Lemma indexed_same (cs cs' : list Element) :
  Forall2 (skel keep) cs cs' ->
  forall i,
  Forall2 (fun ic ic' : nat * Element =>
             fst ic = fst ic' /\ skel keep (snd ic) (snd ic'))
          (indexed i cs) (indexed i cs').
Proof.
  induction 1; intros i; simpl; constructor; auto.
Qed.

Lemma select_children_same (steps : list step) :
  forallb (step_keys_ok keep) steps = true ->
  forall e e', skel keep e e' ->
  Forall2 (same_result keep) (select_children steps e) (select_children steps e').
Proof.
  induction steps as [|st steps IH]; intros Hk e e' H; simpl.
  - constructor; [split; [reflexivity | exact H] | constructor].
  - simpl in Hk. apply andb_true_iff in Hk as [Hst Hsteps].
    eapply Forall2_flat_map.
    + apply indexed_same. apply skel_children. exact H.
    + intros [i c] [i' c'] [Hi Hc]; simpl in *. subst i'.
      rewrite (skel_matches st c c' Hc Hst).
      destruct (matches st c'); [|constructor].
      apply under_same. apply IH; assumption.
Qed.

Lemma descendants_from_same (cs cs' : list Element) :
  Forall2 (fun c c' => skel keep c c' /\
                       Forall2 (same_result keep) (descendants c) (descendants c')) cs cs' ->
  forall i,
  Forall2 (same_result keep) (descendants_from descendants i cs)
                      (descendants_from descendants i cs').
Proof.
  induction 1 as [|c c' cs cs' [Hc Hd] _ IH]; intros i; simpl; [constructor|].
  constructor; [split; [reflexivity | exact Hc]|].
  apply Forall2_app; [apply under_same; exact Hd | apply IH].
Qed.

Lemma descendants_same (e : Element) :
  forall e', skel keep e e' ->
  Forall2 (same_result keep) (descendants e) (descendants e').
Proof.
  induction e as [t a x cs IH] using Element_children_ind.
  intros e' H. inversion H as [t1 a1 a2 x1 x2 cs1 cs2 Ha Hc]; subst. simpl.
  apply descendants_from_same.
  clear -IH Hc. induction Hc; constructor.
  - inversion IH; subst. split; auto.
  - inversion IH; subst. auto.
Qed.

Lemma iterfind_same (q : xpath) (e e' : Element) :
  forallb (step_keys_ok keep) q = true ->
  skel keep e e' ->
  Forall2 (same_result keep) (iterfind q e) (iterfind q e').
Proof.
  intros Hk H. destruct q as [|st steps]; simpl; [constructor|].
  simpl in Hk. apply andb_true_iff in Hk as [Hst Hsteps].
  eapply Forall2_flat_map.
  - apply descendants_same. exact H.
  - intros [l d] [l' d'] [Hl Hd]; simpl in *. subst l'.
    rewrite (skel_matches st d d' Hd Hst).
    destruct (matches st d'); [|constructor].
    apply prefix_same. apply select_children_same; assumption.
Qed.

Lemma find_same (q : xpath) (e e' : Element) (l : loc) (x : Element) :
  forallb (step_keys_ok keep) q = true ->
  skel keep e e' ->
  find_merge_element_by_query q e = Some (l, x) ->
  exists x', find_merge_element_by_query q e' = Some (l, x') /\ skel keep x x'.
Proof.
  intros Hk H Hfind. unfold find_merge_element_by_query in *.
  pose proof (iterfind_same q e e' Hk H) as HF.
  destruct HF as [|r r' rs rs' [Hl Hx] _]; [discriminate|].
  simpl in *. inversion Hfind; subst r. destruct r' as [l' x']; simpl in *.
  subst l'. exists x'. split; [reflexivity | exact Hx].
Qed.

Lemma get_at_same (l : loc) :
  forall e e' x,
  skel keep e e' -> get_at l e = Some x ->
  exists x', get_at l e' = Some x' /\ skel keep x x'.
Proof.
  induction l as [|i l IH]; intros e e' x H Hget; simpl in *.
  - inversion Hget; subst. eauto.
  - apply skel_children in H.
    destruct (nth_error (children e) i) as [c|] eqn:Hc; [|discriminate].
    revert i Hc. induction H as [|c0 c0' cs cs' H0 Hrest IHrest]; intros i Hc.
    + destruct i; discriminate.
    + destruct i as [|i]; simpl in *.
      * inversion Hc; subst. eapply IH; eassumption.
      * apply IHrest. exact Hc.
Qed.

Lemma find_index_same (p : Element -> bool) (cs cs' : list Element) :
  Forall2 (fun c c' => skel keep c c' /\ p c = p c') cs cs' ->
  forall i j c,
  find_index p i cs = Some (j, c) ->
  exists c', find_index p i cs' = Some (j, c') /\ skel keep c c'.
Proof.
  induction 1 as [|c0 c0' cs cs' [H0 Hp] _ IH]; intros i j c Hf; simpl in *;
    [discriminate|].
  rewrite <- Hp. destruct (p c0).
  - inversion Hf; subst. eauto.
  - eapply IH. exact Hf.
Qed.

Lemma find_ucis_child_same (e e' : Element) (name : string) (i : nat) (c : Element) :
  skel keep e e' ->
  find_ucis_child e name = Some (i, c) ->
  exists c', find_ucis_child e' name = Some (i, c') /\ skel keep c c'.
Proof.
  intros H. unfold find_ucis_child. apply find_index_same.
  apply skel_children in H. induction H; constructor; auto.
  split; [assumption | apply skel_has_tag; assumption].
Qed.

(** Setting an attribute outside [keep] keeps the shape. *)
Lemma skel_set (k v : string) (e : Element) :
  keep k = false -> skel keep e (set k v e).
Proof.
  intros Hk. destruct e as [t a x cs]. unfold set; simpl.
  constructor.
  - intros k' Hk'. unfold dict_get, dict_set. symmetry.
    apply (lookup_store_other String.eqb String.eqb_eq). congruence.
  - clear. induction cs; constructor; [apply skel_refl | assumption].
Qed.

Lemma skel_update_at (f : Element -> Element) (l : loc) :
  (forall x, skel keep x (f x)) ->
  forall e, skel keep e (update_at l f e).
Proof.
  intros Hf. induction l as [|i l IH]; intros e; simpl; [apply Hf|].
  destruct e as [t a x cs]. unfold set_children; simpl.
  constructor; [reflexivity|].
  assert (Hrefl : forall l0 : list Element, Forall2 (skel keep) l0 l0)
    by (induction l0; constructor; [apply skel_refl | assumption]).
  revert i. induction cs as [|c cs IHcs]; intros [|i]; simpl; constructor; auto.
  apply skel_refl.
Qed.

End Skeleton.

(** ** The bin merge keeps [alias] and [coverageCount] together *)

Lemma get_set_same (k v : string) (e : Element) : get k (set k v e) = Some v.
Proof.
  unfold get, set, dict_get, dict_set; simpl.
  apply (lookup_store_same String.eqb String.eqb_eq).
Qed.

Lemma range_query_keys_ok (q : xpath) :
  forallb (step_keys_ok identity_key) q = true ->
  forallb (step_keys_ok identity_key) (range_query q) = true.
Proof.
  intros H. unfold range_query. rewrite forallb_app, H. reflexivity.
Qed.

(** One successful iteration of the loop of [merge_bin_hits] keeps the shape
    of the merge database and leaves the two counters equal. *)
Lemma merge_bin_hits_body_sync (bin_query : xpath) (binLoc : loc) (b0 : Element)
  (tree0 t t2 : Element) (range : Element) (th th2 : option Z) :
  forallb (step_keys_ok identity_key) bin_query = true ->
  find_merge_element_by_query bin_query tree0 = Some (binLoc, b0) ->
  skel identity_key tree0 t ->
  merge_bin_hits_body binLoc bin_query range (t, th) = Ok (t2, th2) ->
  skel identity_key tree0 t2 /\ th2 <> None /\ alias_in_sync bin_query binLoc t2.
Proof.
  intros Hq Hfind0 Hskel Hbody.
  unfold merge_bin_hits_body in Hbody. cbn [fst] in Hbody.
  apply bind_Ok in Hbody as (contents & _ & Hbody).
  apply bind_Ok in Hbody as (rangeHitCount & _ & Hbody).
  fold (range_query bin_query) in Hbody.
  destruct (find_merge_element_by_query (range_query bin_query) t)
    as [[rloc relem]|] eqn:Hrange; [|discriminate].
  destruct (negb _); [discriminate|].
  apply bind_Ok in Hbody as ([i c] & Hc & Hbody).
  apply bind_Ok in Hbody as (total & _ & Hbody).
  apply bind_Ok in Hbody as (parsedContents & _ & Hbody).
  apply bind_Ok in Hbody as (parsedHits & _ & Hbody).
  inversion Hbody; subst t2 th2; clear Hbody.
  destruct (find_ucis_child relem "contents") as [[i' c']|] eqn:Hchild;
    inversion Hc; subst i' c'; clear Hc.
  set (v := py_str (total + parsedHits)).
  set (t1 := update_at binLoc (set "alias" v) t).
  set (t2 := update_at (rloc ++ [i]) (set "coverageCount" v) t1).
  assert (H01 : skel identity_key t t1)
    by (apply skel_update_at; intros x; apply skel_set; reflexivity).
  assert (H12 : skel identity_key t1 t2)
    by (apply skel_update_at; intros x; apply skel_set; reflexivity).
  assert (H12' : skel not_coverageCount t1 t2)
    by (apply skel_update_at; intros x; apply skel_set; reflexivity).
  assert (H02 : skel identity_key t t2) by (eapply skel_trans; eassumption).
  assert (Htree : skel identity_key tree0 t2) by (eapply skel_trans; eassumption).
  split; [exact Htree|]. split; [discriminate|].
  (* the bin *)
  destruct (find_same identity_key bin_query tree0 t binLoc b0 Hq Hskel Hfind0)
    as (bt & Hfindt & _).
  destruct (find_same identity_key bin_query tree0 t2 binLoc b0 Hq Htree Hfind0)
    as (b2 & Hfind2 & _).
  assert (Hbt1 : get_at binLoc t1 = Some (set "alias" v bt))
    by (apply get_at_update_at; eapply find_located; exact Hfindt).
  destruct (get_at_same not_coverageCount binLoc t1 t2 _ H12' Hbt1) as (b2' & Hb2' & Hsk).
  assert (Hb2 : get_at binLoc t2 = Some b2) by (eapply find_located; exact Hfind2).
  rewrite Hb2 in Hb2'. inversion Hb2'; subst b2'; clear Hb2'.
  (* the range and its contents *)
  destruct (find_same identity_key (range_query bin_query) t t2 rloc relem
              (range_query_keys_ok _ Hq) H02 Hrange) as (r2 & Hrange2 & Hr2).
  destruct (find_ucis_child_same identity_key relem r2 "contents" i c Hr2 Hchild)
    as (c2 & Hchild2 & _).
  assert (Hc_t : get_at (rloc ++ [i]) t = Some c).
  { rewrite get_at_app, (find_located _ _ _ _ Hrange). simpl.
    apply find_ucis_child_spec in Hchild as (Hn & _). rewrite Hn. reflexivity. }
  destruct (get_at_same identity_key (rloc ++ [i]) t t1 c H01 Hc_t) as (c1 & Hc1 & _).
  assert (Hc_t2 : get_at (rloc ++ [i]) t2 = Some (set "coverageCount" v c1))
    by (apply get_at_update_at; exact Hc1).
  assert (Hc2 : get_at (rloc ++ [i]) t2 = Some c2).
  { rewrite get_at_app, (find_located _ _ _ _ Hrange2). simpl.
    apply find_ucis_child_spec in Hchild2 as (Hn & _). rewrite Hn. reflexivity. }
  rewrite Hc2 in Hc_t2. inversion Hc_t2; subst c2; clear Hc_t2.
  exists b2, rloc, r2, i, (set "coverageCount" v c1), (total + parsedHits).
  repeat split; try assumption.
  - rewrite <- (skel_get not_coverageCount _ _ "alias" Hsk eq_refl).
    apply get_set_same.
  - apply get_set_same.
Qed.

(** ** Merge databases that grew *)

Lemma grows_refl (e : Element) : grows e e.
Proof.
  induction e as [t a x cs IH] using Element_children_ind.
  constructor; [reflexivity|].
  apply Forall_forall. intros c Hc. right. apply Exists_exists.
  exists c. split; [exact Hc|]. rewrite Forall_forall in IH. auto.
Qed.

Lemma grows_tag (e e' : Element) : grows e e' -> tag e = tag e'.
Proof. inversion 1; reflexivity. Qed.

Lemma grows_get (e e' : Element) (k : string) :
  grows e e' -> identity_key k = true -> get k e = get k e'.
Proof. inversion 1; subst. intros Hk. unfold get; simpl. auto. Qed.

Lemma grows_children (e e' : Element) :
  grows e e' ->
  Forall (fun c' => inert c' = true \/ Exists (fun c => grows c c') (children e))
         (children e').
Proof. inversion 1; assumption. Qed.

Lemma grows_matches (st : step) (e e' : Element) :
  grows e e' -> step_keys_ok identity_key st = true -> matches st e = matches st e'.
Proof.
  intros H Hk. unfold matches, has_tag. rewrite (grows_tag _ _ H).
  unfold step_keys_ok in Hk. destruct (step_pred st) as [[k v]|]; [|reflexivity].
  rewrite (grows_get _ _ k H Hk). reflexivity.
Qed.

Lemma inert_silent (c : Element) :
  inert c = true -> mentions "instanceCoverages" c = false.
Proof.
  unfold inert. intros H. apply andb_true_iff in H as [_ H].
  apply negb_true_iff in H. exact H.
Qed.

(** An element that holds no covergroup type grows into elements that hold
    none. *)
Lemma grows_silent (b : Element) :
  forall c, mentions "instanceCoverages" b = false -> grows b c ->
            mentions "instanceCoverages" c = false.
Proof.
  induction b as [t a x cs IH] using Element_children_ind.
  intros c Hb Hg. inversion Hg as [t1 a1 a2 x1 x2 cs1 cs2 Ha Hc]; subst.
  simpl in *. apply orb_false_iff in Hb as [Ht Hcs].
  rewrite Ht. simpl.
  destruct (existsb (mentions "instanceCoverages") cs2) eqn:E; [|reflexivity].
  exfalso. apply existsb_exists in E as (c' & Hin & Hm).
  rewrite Forall_forall in Hc. destruct (Hc c' Hin) as [Hi|Hex].
  - apply inert_silent in Hi. congruence.
  - apply Exists_exists in Hex as (b' & Hb' & Hg').
    rewrite Forall_forall in IH.
    assert (Hsil : mentions "instanceCoverages" b' = false).
    { destruct (mentions "instanceCoverages" b') eqn:E'; [|reflexivity].
      assert (existsb (mentions "instanceCoverages") cs = true)
        by (apply existsb_exists; eauto).
      congruence. }
    rewrite (IH b' Hb' c' Hsil Hg') in Hm. discriminate.
Qed.

Lemma inert_grows (b c : Element) : inert b = true -> grows b c -> inert c = true.
Proof.
  intros Hb Hg. unfold inert in *. apply andb_true_iff in Hb as [Ht Hs].
  apply negb_true_iff in Hs. unfold has_tag in *.
  rewrite <- (grows_tag _ _ Hg), Ht. simpl.
  rewrite (grows_silent b c Hs Hg). reflexivity.
Qed.

Lemma grows_trans (e1 : Element) :
  forall e2 e3, grows e1 e2 -> grows e2 e3 -> grows e1 e3.
Proof.
  induction e1 as [t a x cs IH] using Element_children_ind.
  intros e2 e3 H12 H23.
  inversion H12 as [t1 a1 a2 x1 x2 cs1 cs2 Ha12 Hc12]; subst.
  inversion H23 as [t2 a2' a3 x2' x3 cs2' cs3 Ha23 Hc23]; subst.
  constructor.
  - intros k Hk. rewrite (Ha12 k Hk). apply Ha23. exact Hk.
  - rewrite Forall_forall in *. intros c3 Hin3.
    destruct (Hc23 c3 Hin3) as [Hi|Hex]; [left; exact Hi|].
    apply Exists_exists in Hex as (c2 & Hin2 & H23').
    destruct (Hc12 c2 Hin2) as [Hi|Hex].
    + left. eapply inert_grows; eassumption.
    + right. apply Exists_exists in Hex as (c1 & Hin1 & H12').
      apply Exists_exists. exists c1. split; [exact Hin1|].
      eapply IH; eassumption.
Qed.

(** Children that grew one by one. *)
Lemma grows_pairwise (cs cs' : list Element) :
  Forall2 grows cs cs' ->
  Forall (fun c' => inert c' = true \/ Exists (fun c => grows c c') cs) cs'.
Proof.
  induction 1 as [|c c' cs cs' Hc _ IH]; constructor.
  - right. constructor. exact Hc.
  - eapply Forall_impl; [|exact IH]. intros a [Hi|Hex]; [left; exact Hi|].
    right. apply Exists_cons_tl. exact Hex.
Qed.

Lemma Forall2_grows_refl (cs : list Element) : Forall2 grows cs cs.
Proof. induction cs; constructor; [apply grows_refl | assumption]. Qed.

Lemma grows_update_at (f : Element -> Element) (l : loc) :
  forall e,
  (forall x, get_at l e = Some x -> grows x (f x)) ->
  grows e (update_at l f e).
Proof.
  induction l as [|i l IH]; intros e Hf; simpl.
  - apply Hf. reflexivity.
  - destruct e as [t a x cs]. unfold set_children; simpl in *.
    constructor; [reflexivity|]. apply grows_pairwise.
    revert i Hf. induction cs as [|c cs IHcs]; intros [|i] Hf; simpl;
      try constructor; auto using grows_refl, Forall2_grows_refl.
Qed.

Lemma grows_set (k v : string) (e : Element) :
  identity_key k = false -> grows e (set k v e).
Proof.
  intros Hk. destruct e as [t a x cs]. unfold set; simpl.
  constructor.
  - intros k' Hk'. unfold dict_get, dict_set. symmetry.
    apply (lookup_store_other String.eqb String.eqb_eq). congruence.
  - apply grows_pairwise, Forall2_grows_refl.
Qed.

Lemma grows_append (b e : Element) : inert b = true -> grows e (append b e).
Proof.
  intros Hb. destruct e as [t a x cs]. unfold append; simpl.
  constructor; [reflexivity|].
  apply Forall_app. split.
  - apply grows_pairwise, Forall2_grows_refl.
  - constructor; [left; exact Hb | constructor].
Qed.

(** The fresh cross bins are inert. *)
Lemma existsb_map_index (t : list Z) :
  existsb (mentions "instanceCoverages") (map (fun v => index_element (py_str v)) t) = false.
Proof. induction t as [|v t IH]; simpl; [reflexivity | exact IH]. Qed.

Lemma existsb_repeat_index (n : nat) :
  existsb (mentions "instanceCoverages") (repeat (index_element "0") n) = false.
Proof. induction n as [|n IH]; simpl; [reflexivity | exact IH]. Qed.

Lemma crossBin_element_inert (numCvps : nat) (e : list Z * Z) :
  inert (crossBin_element numCvps e) = true.
Proof.
  unfold inert. change (has_tag "crossBin" (crossBin_element numCvps e)) with true.
  rewrite orb_true_r. simpl.
  rewrite !existsb_app, existsb_map_index, existsb_repeat_index. reflexivity.
Qed.

Lemma In_remove_first (p : Element -> bool) (l : list Element) (c : Element) :
  In c (remove_first p l) -> In c l.
Proof.
  induction l as [|a l IH]; simpl; [tauto|].
  destruct (p a); simpl; [tauto|]. intros [H|H]; auto.
Qed.

Lemma merge_crossBins_grows (cross mce mce' : Element) :
  merge_crossBins cross mce = Ok mce' -> grows mce mce'.
Proof.
  intros H. apply merge_crossBins_spec in H
    as (accE & srcE & _ & _ & _ & _ & _ & (ua & Hua & Hch) & Ht & Ha).
  destruct mce as [t a x cs], mce' as [t' a' x' cs']. simpl in *. subst t' a' cs'.
  constructor; [reflexivity|].
  assert (Hold : forall c, In c cs -> Exists (fun c0 => grows c0 c) cs)
    by (intros c Hc; apply Exists_exists; exists c; split; [exact Hc | apply grows_refl]).
  apply Forall_forall. intros c Hc. apply in_app_or in Hc as [Hc|[Hc|[]]].
  - apply In_remove_first in Hc. apply in_app_or in Hc as [Hc|Hc].
    + right. apply Hold. apply filter_In in Hc. tauto.
    + left. apply in_map_iff in Hc as (e & <- & _). apply crossBin_element_inert.
  - subst c. right. apply Hold. unfold find_ucis_element in Hua.
    apply find_some in Hua. tauto.
Qed.

(** ** Queries above the bins find nothing new in a merge database that
    grew *)

Lemma flat_map_nil {A B : Type} (f : A -> list B) (l : list A) :
  flat_map f l = [] <-> forall a, In a l -> f a = [].
Proof.
  induction l as [|a l IH]; simpl; [tauto|]. split.
  - intros H. apply app_eq_nil in H as [Ha Hl]. intros b [<-|Hb]; [exact Ha|].
    apply IH; assumption.
  - intros H. rewrite (H a (or_introl eq_refl)). simpl. apply IH. auto.
Qed.

Lemma indexed_In (cs : list Element) :
  forall i (ic : nat * Element), In ic (indexed i cs) -> In (snd ic) cs.
Proof.
  induction cs as [|c cs IH]; intros i ic; simpl; [tauto|].
  intros [<-|H]; [left; reflexivity | right; eapply IH; exact H].
Qed.

Lemma In_indexed (cs : list Element) (c : Element) :
  In c cs -> forall i, exists j, In (j, c) (indexed i cs).
Proof.
  induction cs as [|a cs IH]; simpl; [tauto|].
  intros [<-|H] i; [exists i; left; reflexivity|].
  destruct (IH H (S i)) as (j & Hj). exists j. right. exact Hj.
Qed.

(** A chain of child steps matches below [e]. *)
Lemma select_children_reach (st : step) (steps : list step) (e : Element) :
  select_children (st :: steps) e <> [] <->
  exists c, In c (children e) /\ matches st c = true /\ select_children steps c <> [].
Proof.
  simpl. split.
  - intros H.
    destruct (flat_map _ (indexed 0 (children e))) as [|r rs] eqn:E; [contradiction|].
    assert (Hin : In r (flat_map
              (fun ic : nat * Element =>
                 if matches st (snd ic)
                 then map (under (fst ic)) (select_children steps (snd ic)) else [])
              (indexed 0 (children e)))) by (rewrite E; left; reflexivity).
    apply in_flat_map in Hin as (ic & Hic & Hr).
    exists (snd ic). split; [eapply indexed_In; exact Hic|].
    destruct (matches st (snd ic)); [|contradiction]. split; [reflexivity|].
    intros Hnil. rewrite Hnil in Hr. contradiction.
  - intros (c & Hc & Hm & Hs) Hnil.
    destruct (In_indexed _ _ Hc 0%nat) as (j & Hj).
    rewrite flat_map_nil in Hnil. specialize (Hnil (j, c) Hj). simpl in Hnil.
    rewrite Hm in Hnil. apply map_eq_nil in Hnil. contradiction.
Qed.

Lemma append_inj_l (p a b : string) : (p ++ a)%string = (p ++ b)%string -> a = b.
Proof.
  induction p as [|c p IH]; simpl; intros H; [exact H|].
  inversion H. auto.
Qed.

Lemma qname_inj (a b : string) : qname a = qname b -> a = b.
Proof.
  unfold qname. intros H.
  do 3 apply append_inj_l in H. exact H.
Qed.

Lemma inert_not_matched (st : step) (c : Element) :
  (negb (String.eqb (step_tag st) "coverpointBin")
   && negb (String.eqb (step_tag st) "crossBin"))%bool = true ->
  inert c = true -> matches st c = false.
Proof.
  intros Hst Hc. apply andb_true_iff in Hst as [H1 H2].
  apply negb_true_iff in H1, H2. apply String.eqb_neq in H1, H2.
  unfold inert in Hc. apply andb_true_iff in Hc as [Hc _].
  unfold matches. destruct (has_tag (step_tag st) c) eqn:E; [|reflexivity].
  exfalso. unfold has_tag in *. apply String.eqb_eq in E.
  apply orb_true_iff in Hc as [Hc|Hc]; apply String.eqb_eq in Hc;
    rewrite E in Hc; apply qname_inj in Hc; contradiction.
Qed.

Lemma reach_grows (steps : list step) :
  forallb (step_keys_ok identity_key) steps = true ->
  forallb (fun s => negb (String.eqb (step_tag s) "coverpointBin")
                    && negb (String.eqb (step_tag s) "crossBin"))%bool steps = true ->
  forall d d', grows d d' ->
  select_children steps d' <> [] -> select_children steps d <> [].
Proof.
  induction steps as [|st steps IH]; intros Hk Ht d d' Hg Hr.
  - simpl. discriminate.
  - simpl in Hk, Ht. apply andb_true_iff in Hk as [Hk Hks].
    apply andb_true_iff in Ht as [Ht Hts].
    apply select_children_reach in Hr as (c' & Hc' & Hm & Hr).
    apply select_children_reach.
    pose proof (grows_children _ _ Hg) as Hch. rewrite Forall_forall in Hch.
    destruct (Hch c' Hc') as [Hi|Hex].
    + rewrite (inert_not_matched st c' Ht Hi) in Hm. discriminate.
    + apply Exists_exists in Hex as (c & Hc & Hgc).
      exists c. split; [exact Hc|]. split.
      * rewrite (grows_matches st c c' Hgc Hk). exact Hm.
      * eapply IH; eassumption.
Qed.

(** The elements below an element. *)
Lemma In_descendants_from (f : Element -> list (loc * Element)) (cs : list Element) :
  forall i (d : Element),
  In d (map snd (descendants_from f i cs)) <->
  exists c, In c cs /\ (d = c \/ In d (map snd (f c))).
Proof.
  induction cs as [|c cs IH]; intros i d; simpl.
  - split; [tauto | intros (c & [] & _)].
  - rewrite map_app, in_app_iff, IH, map_map. simpl. split.
    + intros [H|[H|(c' & Hc' & H)]].
      * exists c. split; [left; reflexivity | left; symmetry; exact H].
      * exists c. split; [left; reflexivity | right; exact H].
      * exists c'. split; [right; exact Hc' | exact H].
    + intros (c' & [<-|Hc'] & [H|H]); subst; eauto 6.
Qed.

Lemma In_descendants (d : Element) (t : string) (a : list (string * string))
  (x : option string) (cs : list Element) :
  In d (map snd (descendants (mkElement t a x cs))) <->
  exists c, In c cs /\ (d = c \/ In d (map snd (descendants c))).
Proof. simpl. apply In_descendants_from. Qed.

Lemma mentions_self (name : string) (e : Element) :
  has_tag name e = true -> mentions name e = true.
Proof. destruct e as [t a x cs]. unfold has_tag; simpl. intros ->. reflexivity. Qed.

Lemma mentions_descendant (name : string) (e : Element) :
  forall d, In d (map snd (descendants e)) -> has_tag name d = true ->
            mentions name e = true.
Proof.
  induction e as [t a x cs IH] using Element_children_ind.
  intros d Hd Ht. apply In_descendants in Hd as (c & Hc & Hd).
  simpl. apply orb_true_iff. right. apply existsb_exists. exists c.
  split; [exact Hc|]. destruct Hd as [->|Hd]; [apply mentions_self; exact Ht|].
  rewrite Forall_forall in IH. eapply IH; eassumption.
Qed.

(** A covergroup type below a merge database that grew was there before. *)
Lemma covergroup_type_was_there (e' : Element) :
  forall e d',
  grows e e' ->
  In d' (map snd (descendants e')) ->
  has_tag "instanceCoverages" d' = true ->
  exists d, In d (map snd (descendants e)) /\ grows d d'.
Proof.
  induction e' as [t' a' x' cs' IH] using Element_children_ind.
  intros e d' Hg Hd Ht.
  apply In_descendants in Hd as (c' & Hc' & Hd).
  inversion Hg as [t a a2 x x2 cs cs2 Ha Hch]; subst.
  rewrite Forall_forall in Hch. destruct (Hch c' Hc') as [Hi|Hex].
  - exfalso. apply inert_silent in Hi.
    destruct Hd as [->|Hd].
    + rewrite (mentions_self _ _ Ht) in Hi. discriminate.
    + rewrite (mentions_descendant _ _ _ Hd Ht) in Hi. discriminate.
  - apply Exists_exists in Hex as (c & Hc & Hgc).
    destruct Hd as [->|Hd].
    + exists c. split; [|exact Hgc]. apply In_descendants. eauto.
    + rewrite Forall_forall in IH.
      destruct (IH c' Hc' c d' Hgc Hd Ht) as (d & Hdin & Hgd).
      exists d. split; [|exact Hgd]. apply In_descendants. eauto.
Qed.

Lemma iterfind_reach (st : step) (steps : list step) (e : Element) :
  iterfind (st :: steps) e <> [] <->
  exists d, In d (map snd (descendants e)) /\ matches st d = true /\
            select_children steps d <> [].
Proof.
  simpl. split.
  - intros H.
    destruct (flat_map _ (descendants e)) as [|r rs] eqn:E; [contradiction|].
    assert (Hin : In r (flat_map
              (fun d : loc * Element =>
                 if matches st (snd d)
                 then map (prefix (fst d)) (select_children steps (snd d)) else [])
              (descendants e))) by (rewrite E; left; reflexivity).
    apply in_flat_map in Hin as (d & Hd & Hr).
    exists (snd d). split; [apply in_map; exact Hd|].
    destruct (matches st (snd d)); [|contradiction]. split; [reflexivity|].
    intros Hnil. rewrite Hnil in Hr. contradiction.
  - intros (d & Hd & Hm & Hs) Hnil.
    apply in_map_iff in Hd as ([l d0] & <- & Hd). simpl in *.
    rewrite flat_map_nil in Hnil. specialize (Hnil (l, d0) Hd). simpl in Hnil.
    rewrite Hm in Hnil. apply map_eq_nil in Hnil. contradiction.
Qed.

Lemma find_none_iterfind (q : xpath) (e : Element) :
  find_merge_element_by_query q e = None <-> iterfind q e = [].
Proof.
  unfold find_merge_element_by_query. destruct (iterfind q e); simpl; split;
    congruence.
Qed.

(** What a query above the bins does not find, it does not find after the
    merge database grew. *)
Lemma find_none_grows (q : xpath) (e e' : Element) :
  above_bins q = true -> grows e e' ->
  find_merge_element_by_query q e = None ->
  find_merge_element_by_query q e' = None.
Proof.
  intros Hq Hg Hnone. rewrite find_none_iterfind in *.
  destruct q as [|st steps]; [reflexivity|].
  destruct (iterfind (st :: steps) e') eqn:E; [reflexivity|]. exfalso.
  assert (Hne : iterfind (st :: steps) e' <> []) by (rewrite E; discriminate).
  clear E. apply iterfind_reach in Hne as (d' & Hd' & Hm & Hr).
  unfold above_bins in Hq. apply andb_true_iff in Hq as [Hq Htags].
  apply andb_true_iff in Hq as [Htag Hkeys].
  simpl in Hkeys. apply andb_true_iff in Hkeys as [Hk Hks].
  apply String.eqb_eq in Htag.
  assert (Ht : has_tag "instanceCoverages" d' = true).
  { unfold matches in Hm. apply andb_true_iff in Hm as [Hm _].
    rewrite Htag in Hm. exact Hm. }
  destruct (covergroup_type_was_there e' e d' Hg Hd' Ht) as (d & Hd & Hgd).
  assert (Hne : iterfind (st :: steps) e <> []).
  { apply iterfind_reach. exists d. split; [exact Hd|]. split.
    - rewrite (grows_matches st d d' Hgd Hk). exact Hm.
    - eapply reach_grows; eassumption. }
  contradiction.
Qed.

(** ** The engine lets the merge database grow *)

Lemma merge_bin_hits_body_grows (binLoc : loc) (q : xpath) (range : Element)
  (t t2 : Element) (th th2 : option Z) :
  merge_bin_hits_body binLoc q range (t, th) = Ok (t2, th2) -> grows t t2.
Proof.
  intros Hbody. unfold merge_bin_hits_body in Hbody. cbn [fst] in Hbody.
  apply bind_Ok in Hbody as (contents & _ & Hbody).
  apply bind_Ok in Hbody as (rangeHitCount & _ & Hbody).
  destruct (find_merge_element_by_query _ t) as [[rloc relem]|]; [|discriminate].
  destruct (negb _); [discriminate|].
  apply bind_Ok in Hbody as ([i c] & _ & Hbody).
  apply bind_Ok in Hbody as (total & _ & Hbody).
  apply bind_Ok in Hbody as (parsedContents & _ & Hbody).
  apply bind_Ok in Hbody as (parsedHits & _ & Hbody).
  inversion Hbody; subst t2 th2; clear Hbody.
  eapply grows_trans; apply grows_update_at; intros x _; apply grows_set; reflexivity.
Qed.

Lemma merge_bin_hits_grows (bin : Element) (binLoc : loc) (q : xpath) (t t' : Element) :
  merge_bin_hits bin binLoc q t = Ok t' -> grows t t'.
Proof.
  intros Hrun. unfold merge_bin_hits in Hrun.
  apply bind_Ok in Hrun as ([t1 th] & Hloop & Hrun). cbn [fst snd] in Hrun.
  destruct th; [|discriminate]. inversion Hrun; subst t1; clear Hrun.
  apply (for_each_invariant (fun st : Element * option Z => grows t (fst st))
           (merge_bin_hits_body binLoc q) (findall_ucis_children bin "range"))
    in Hloop; [exact Hloop | | apply grows_refl].
  intros range [s th] [s2 th2] _ Hs Hbody. cbn [fst] in *.
  eapply grows_trans; [exact Hs|]. eapply merge_bin_hits_body_grows. exact Hbody.
Qed.

Lemma parse_coverpoint_bins_body_grows (q : xpath) (bin t t' : Element) :
  has_tag "coverpointBin" bin = true ->
  mentions "instanceCoverages" bin = false ->
  parse_coverpoint_bins_body q bin t = Ok t' -> grows t t'.
Proof.
  intros Htag Hsilent Hrun. unfold parse_coverpoint_bins_body in Hrun.
  destruct (find_merge_element_by_query _ t) as [[binLoc b]|].
  - eapply merge_bin_hits_grows. exact Hrun.
  - apply bind_Ok in Hrun as ([ploc p] & _ & Hrun). inversion Hrun; subst t'.
    apply grows_update_at. intros x _. apply grows_append.
    unfold inert. rewrite Htag, Hsilent. reflexivity.
Qed.

Lemma parse_coverpoint_bins_grows (coverpoint : Element) (q : xpath) (t t' : Element) :
  forallb (fun bin => negb (mentions "instanceCoverages" bin))
          (findall_ucis_children coverpoint "coverpointBin") = true ->
  parse_coverpoint_bins coverpoint q t = Ok t' -> grows t t'.
Proof.
  intros Hflat Hrun. unfold parse_coverpoint_bins in Hrun.
  apply (for_each_invariant (fun s : Element => grows t s)
           (parse_coverpoint_bins_body q)
           (findall_ucis_children coverpoint "coverpointBin"))
    in Hrun; [exact Hrun | | apply grows_refl].
  intros bin s s' Hin Hs Hbody.
  eapply grows_trans; [exact Hs|].
  rewrite forallb_forall in Hflat. pose proof (Hflat bin Hin) as Hsil.
  apply negb_true_iff in Hsil.
  unfold findall_ucis_children in Hin. apply filter_In in Hin as [_ Htag].
  eapply parse_coverpoint_bins_body_grows; eassumption.
Qed.

Lemma parse_coverpoints_grows (cgInstance : Element) (q : xpath) (t t' : Element) :
  bins_flat cgInstance = true ->
  parse_coverpoints cgInstance q t = Ok t' -> grows t t'.
Proof.
  intros Hflat Hrun. unfold parse_coverpoints in Hrun.
  apply (for_each_invariant (fun s : Element => grows t s)
           (parse_coverpoints_body q)
           (findall_ucis_children cgInstance "coverpoint"))
    in Hrun; [exact Hrun | | apply grows_refl].
  intros cp s s' Hin Hs Hbody.
  eapply grows_trans; [exact Hs|].
  unfold bins_flat in Hflat. rewrite forallb_forall in Hflat.
  unfold parse_coverpoints_body in Hbody.
  destruct (find_merge_element_by_query _ s); [|discriminate].
  eapply parse_coverpoint_bins_grows; [apply Hflat; exact Hin | exact Hbody].
Qed.

Lemma parse_crosses_body_grows (q : xpath) (cross t t' : Element) :
  parse_crosses_body q cross t = Ok t' -> grows t t'.
Proof.
  intros Hrun. unfold parse_crosses_body in Hrun.
  destruct (find_merge_element_by_query _ t) as [[crossLoc mce]|] eqn:Hfind;
    [|discriminate].
  destruct (find_ucis_element cross "crossBin").
  - apply bind_Ok in Hrun as (merged & Hmerge & Hrun). inversion Hrun; subst t'.
    apply grows_update_at. intros x Hx.
    rewrite (find_located _ _ _ _ Hfind) in Hx. inversion Hx; subst x.
    eapply merge_crossBins_grows. exact Hmerge.
  - inversion Hrun; subst. apply grows_refl.
Qed.

Lemma coverpoint_query_above_bins (cgTypeName cgInstName : option string)
  (coverpoint : Element) :
  above_bins (coverpoint_query (cgInstance_query cgTypeName cgInstName) coverpoint) = true.
Proof.
  unfold coverpoint_query, cgInstance_query.
  destruct cgTypeName, cgInstName, (get "name" coverpoint); reflexivity.
Qed.

Lemma cross_query_above_bins (cgTypeName cgInstName : option string) (cross : Element) :
  above_bins (cross_query (cgInstance_query cgTypeName cgInstName) cross) = true.
Proof.
  unfold cross_query, cgInstance_query.
  destruct cgTypeName, cgInstName, (get "name" cross); reflexivity.
Qed.

(** X25.  An instance that is in the merge database is merged with a parsed
    instance whose bins follow the schema, in that they hold no covergroup
    type, and whose names, like the names of the type and of the instance,
    have no apostrophe.  If the parsed instance has a coverpoint, or a cross,
    whose query finds nothing in the merge database, the merge of the
    instance raises, at that item or at an earlier one: it returns no merge
    database, so the missing coverpoint or cross is not inserted. *)
Theorem missing_coverpoint_or_cross_raises (cgTypeName cgInstName : option string)
  (cgInstance mergeDBtree item : Element) :
  bins_flat cgInstance = true ->
  plain_value cgTypeName = true ->
  plain_value cgInstName = true ->
  plain_names cgInstance = true ->
  (In item (findall_ucis_children cgInstance "coverpoint") /\
   find_merge_element_by_query
     (coverpoint_query (cgInstance_query cgTypeName cgInstName) item) mergeDBtree = None)
  \/
  (In item (findall_ucis_children cgInstance "cross") /\
   find_merge_element_by_query
     (cross_query (cgInstance_query cgTypeName cgInstName) item) mergeDBtree = None) ->
  exists e,
    merge_cgInstance cgInstance (cgInstance_query cgTypeName cgInstName) mergeDBtree
    = Err e.
Proof.
  intros Hflat _ _ _ Hmissing. unfold merge_cgInstance.
  destruct Hmissing as [[Hin Hnone]|[Hin Hnone]].
  - destruct (for_each_fails (fun s => grows mergeDBtree s)
                (parse_coverpoints_body (cgInstance_query cgTypeName cgInstName))
                (findall_ucis_children cgInstance "coverpoint") item) with (s := mergeDBtree)
      as (e & He); try assumption.
    + intros cp s s' Hcp Hs Hbody. eapply grows_trans; [exact Hs|].
      unfold parse_coverpoints_body in Hbody.
      destruct (find_merge_element_by_query _ s); [|discriminate].
      unfold bins_flat in Hflat. rewrite forallb_forall in Hflat.
      eapply parse_coverpoint_bins_grows; [apply Hflat; exact Hcp | exact Hbody].
    + intros s Hs. unfold parse_coverpoints_body.
      fold (coverpoint_query (cgInstance_query cgTypeName cgInstName) item).
      rewrite (find_none_grows _ _ _ (coverpoint_query_above_bins _ _ _) Hs Hnone).
      eexists; reflexivity.
    + apply grows_refl.
    + exists e. unfold parse_coverpoints. rewrite He. reflexivity.
  - destruct (parse_coverpoints cgInstance (cgInstance_query cgTypeName cgInstName) mergeDBtree) as [tree1|e] eqn:Hcp;
      [|exists e; reflexivity].
    cbn [bind]. apply parse_coverpoints_grows in Hcp; [|exact Hflat].
    apply (for_each_fails (fun s => grows mergeDBtree s)
             (parse_crosses_body (cgInstance_query cgTypeName cgInstName))
             (findall_ucis_children cgInstance "cross") item); try assumption.
    + intros cr s s' _ Hs Hbody. eapply grows_trans; [exact Hs|].
      eapply parse_crosses_body_grows. exact Hbody.
    + intros s Hs. unfold parse_crosses_body. fold (cross_query (cgInstance_query cgTypeName cgInstName) item).
      rewrite (find_none_grows _ _ _ (cross_query_above_bins _ _ _) Hs Hnone).
      eexists; reflexivity.
Qed.

(** The merge database has coverpoint "A" only; the parsed instance has "A"
    and "B". *)
Lemma missing_coverpoint_or_cross_raises_witness :
  exists e,
    merge_cgInstance (Sample.cgInstance "I" "1" [Sample.cvp_A; Sample.cvp_B])
                     (cgInstance_query (Some "M") (Some "I"))
                     (Sample.document [Sample.cvp_A])
    = Err e.
Proof.
  apply (missing_coverpoint_or_cross_raises (Some "M") (Some "I")
           (Sample.cgInstance "I" "1" [Sample.cvp_A; Sample.cvp_B])
           (Sample.document [Sample.cvp_A]) Sample.cvp_B).
  - vm_compute; reflexivity.
  - vm_compute; reflexivity.
  - vm_compute; reflexivity.
  - vm_compute; reflexivity.
  - left. split.
    + right. left. reflexivity.
    + vm_compute; reflexivity.
Defined.

(** ** The roll-up of the report builder *)

Lemma option_string_eqb_spec (a b : option string) :
  option_string_eqb a b = true <-> a = b.
Proof.
  destruct a as [x|], b as [y|]; simpl; try (split; congruence).
  rewrite String.eqb_eq. split; congruence.
Qed.

Lemma py_float_Ok (n : Z) (f : float) : Report.py_float n = Ok f -> f = Report.float_of_Z n.
Proof.
  unfold Report.py_float. destruct (is_infinity _); congruence.
Qed.

Lemma rollup_products (values : list (float * Z)) :
  forall acc products,
  for_each (fun (pw : float * Z) (acc : list float) =>
              w <- Report.py_float (snd pw) ;;
              Ok (acc ++ [PrimFloat.mul (fst pw) w]))
           values acc = Ok products ->
  products =
  acc ++ map (fun pw => PrimFloat.mul (fst pw) (Report.float_of_Z (snd pw))) values.
Proof.
  induction values as [|pw values IH]; intros acc products H; simpl in *.
  - inversion H. rewrite app_nil_r. reflexivity.
  - apply bind_Ok in H as (acc1 & Hb & H).
    apply bind_Ok in Hb as (w & Hw & Hb). inversion Hb; subst acc1.
    apply py_float_Ok in Hw. subst w.
    rewrite (IH _ _ H), <- app_assoc. reflexivity.
Qed.

Lemma fold_left_add_map {A : Type} (g : A -> float) (l : list A) :
  forall a,
  fold_left PrimFloat.add (map g l) a =
  fold_left (fun acc x => PrimFloat.add acc (g x)) l a.
Proof. induction l as [|x l IH]; intros a; simpl; [reflexivity | apply IH]. Qed.

(** The roll-up the code computes is the weighted average. *)
Lemma rollup_weighted_average (values : list (float * Z)) (r : float) :
  Report.rollup values = Ok r -> r = Report.weighted_average values.
Proof.
  unfold Report.rollup, Report.weighted_average. intros H.
  apply bind_Ok in H as (products & Hp & H).
  apply bind_Ok in H as (total & Ht & H).
  apply rollup_products in Hp. simpl in Hp. subst products.
  apply py_float_Ok in Ht. subst total.
  unfold Report.py_div in H. destruct (is_zero _); [discriminate|].
  inversion H. unfold Report.py_sum, Report.sumZ.
  rewrite fold_left_add_map. reflexivity.
Qed.

(** Each coverpoint and each cross stores one item under its name. *)
Lemma coverpoint_body_keys (coverpoint : Element)
  (st st' : Report.bin_map_t * Report.inst_data_t) :
  Report.get_coverpoint_report_data_body coverpoint st = Ok st' ->
  exists d, snd st' = store option_string_eqb (get "name" coverpoint) d (snd st).
Proof.
  destruct st as [bm idata]. unfold Report.get_coverpoint_report_data_body.
  intros H.
  apply bind_Ok in H as (options & _ & H).
  apply bind_Ok in H as (w & _ & H).
  apply bind_Ok in H as ([[[idx names] [[count nhits] nmisses]] [hn mn]] & _ & H).
  apply bind_Ok in H as (pct & _ & H).
  inversion H; subst st'. simpl. eauto.
Qed.

Lemma cross_body_keys (cross : Element)
  (st st' : Report.bin_map_t * Report.inst_data_t) :
  Report.get_cross_report_data_body cross st = Ok st' ->
  exists d, snd st' = store option_string_eqb (get "name" cross) d (snd st).
Proof.
  destruct st as [bm idata]. unfold Report.get_cross_report_data_body.
  intros H.
  apply bind_Ok in H as (options & _ & H).
  apply bind_Ok in H as (w & _ & H).
  apply bind_Ok in H as (bins & _ & H).
  apply bind_Ok in H as ([[idx names] hits] & _ & H).
  apply bind_Ok in H as ([[nh nm] [hn mn]] & _ & H).
  apply bind_Ok in H as (pct & _ & H).
  inversion H; subst st'. simpl. eauto.
Qed.

Lemma stored_keys (body : Element -> Report.bin_map_t * Report.inst_data_t ->
                          result (Report.bin_map_t * Report.inst_data_t))
  (items : list Element) :
  (forall item st st', body item st = Ok st' ->
     exists d, snd st' = store option_string_eqb (get "name" item) d (snd st)) ->
  forall st st',
  for_each body items st = Ok st' ->
  NoDup (map fst (snd st) ++ map (get "name") items) ->
  map fst (snd st') = map fst (snd st) ++ map (get "name") items.
Proof.
  intros Hbody. induction items as [|item items IH]; intros st st' Hrun Hnd; simpl in *.
  - inversion Hrun. rewrite app_nil_r. reflexivity.
  - apply bind_Ok in Hrun as (st1 & Hb & Hrun).
    destruct (Hbody _ _ _ Hb) as (d & Hst1).
    assert (Hkeys : map fst (snd st1) = map fst (snd st) ++ [get "name" item]).
    { rewrite Hst1, keys_store.
      assert (Hnone : lookup option_string_eqb (get "name" item) (snd st) = None).
      { apply (lookup_None_not_In option_string_eqb option_string_eqb_spec).
        apply NoDup_remove_2 in Hnd. intros Hin. apply Hnd.
        apply in_or_app. left. exact Hin. }
      destruct (lookup _ _ _) eqn:E; [|reflexivity].
      exfalso. clear -E Hnone. cbv beta delta [Report.name_t Report.inst_data_t] in *.
      congruence. }
    rewrite (IH _ _ Hrun); rewrite Hkeys, <- app_assoc; [reflexivity | exact Hnd].
Qed.

(** ** More on the merge of crosses *)

Lemma read_crossBins_rebuilt (numCvps : nat) (m : mergeMap_t) :
  read_crossBins (map (crossBin_element numCvps) m) = Ok (map (pad_entry numCvps) m).
Proof.
  induction m as [|e m IH]; simpl; [reflexivity|].
  rewrite read_crossBin_fresh, IH. reflexivity.
Qed.

Lemma total_hits_pad (numCvps : nat) (m : mergeMap_t) :
  total_hits (map (pad_entry numCvps) m) = total_hits m.
Proof. induction m as [|e m IH]; simpl; [reflexivity | rewrite IH; reflexivity]. Qed.

Lemma total_hits_app (l1 l2 : list (list Z * Z)) :
  total_hits (l1 ++ l2) = total_hits l1 + total_hits l2.
Proof. induction l1 as [|e l1 IH]; simpl; [reflexivity | rewrite IH; lia]. Qed.

Lemma total_hits_store (t : list Z) (v : Z) (m : mergeMap_t) :
  total_hits (store tuple_eqb t v m) =
  match lookup tuple_eqb t m with
  | Some old => total_hits m - old + v
  | None => total_hits m + v
  end.
Proof.
  induction m as [|[t' v'] m IH]; simpl; [lia|].
  destruct (tuple_eqb t t'); simpl; [lia|].
  rewrite IH. destruct (lookup tuple_eqb t m); lia.
Qed.

Lemma total_hits_add_entry (m : mergeMap_t) (e : list Z * Z) :
  total_hits (add_entry m e) = total_hits m + snd e.
Proof.
  unfold add_entry, map_get, map_set.
  destruct (lookup tuple_eqb (fst e) m) eqn:E; rewrite total_hits_store, E; lia.
Qed.

Lemma total_hits_folded (srcE : list (list Z * Z)) :
  forall m : mergeMap_t,
  total_hits (fold_left add_entry srcE m) = total_hits m + total_hits srcE.
Proof.
  induction srcE as [|e srcE IH]; intros m; simpl; [lia|].
  rewrite IH, total_hits_add_entry. lia.
Qed.

(** X1.  No hit is lost or invented by the merge of a cross: when the cross
    of the merge database lists each index tuple once, the hit counts of the
    rebuilt cross bins add up to the hits of the cross bins of the merge
    database plus the hits of the cross bins of the parsed cross, whether or
    not the parsed cross repeats a tuple. *)
Theorem merge_crossBins_conserves_hits (cross mce mce' : Element)
  (accE srcE : list (list Z * Z)) :
  merge_crossBins cross mce = Ok mce' ->
  read_crossBins (findall_ucis_children mce "crossBin") = Ok accE ->
  read_crossBins (findall_ucis_children cross "crossBin") = Ok srcE ->
  NoDup (map fst accE) ->
  exists resE,
    read_crossBins (findall_ucis_children mce' "crossBin") = Ok resE /\
    total_hits resE = total_hits accE + total_hits srcE.
Proof.
  intros Hrun HaccE HsrcE Hnd.
  pose proof (merge_crossBins_spec _ _ _ Hrun)
    as (accE' & srcE' & HaccE' & _ & HsrcE' & _ & Hbins & _).
  rewrite HaccE in HaccE'. rewrite HsrcE in HsrcE'.
  inversion HaccE'; subst accE'. inversion HsrcE'; subst srcE'.
  eexists. split.
  - rewrite Hbins. apply read_crossBins_rebuilt.
  - rewrite total_hits_pad. unfold merged_map.
    rewrite (keys_set_entry_fresh accE []) by exact Hnd.
    apply total_hits_folded.
Qed.

Lemma merge_crossBins_conserves_hits_witness :
  exists resE,
    read_crossBins (findall_ucis_children Sample.cross_merged "crossBin") = Ok resE /\
    total_hits resE = total_hits [([0; 1], 3)] + total_hits [([0; 1], 5); ([2; 3], 7)].
Proof.
  apply (merge_crossBins_conserves_hits Sample.cross_src Sample.cross_acc
           Sample.cross_merged [([0; 1], 3)] [([0; 1], 5); ([2; 3], 7)]).
  - vm_compute; reflexivity.
  - vm_compute; reflexivity.
  - vm_compute; reflexivity.
  - repeat constructor. intros [].
Defined.

(** The first loop stops at the first cross bin of the wrong size. *)
Lemma drain_stops_at_wrong_size (numCvps : nat) (before after : list Element)
  (bad : Element) (entries : list (list Z * Z)) (t : list Z) (h : Z)
  (m : mergeMap_t) (x : Element) :
  read_crossBins before = Ok entries ->
  Forall (fun e => List.length (fst e) = numCvps) entries ->
  read_crossBin bad = Ok (t, h) ->
  List.length t <> numCvps ->
  for_each (drain_body numCvps) (before ++ bad :: after) (m, x) =
  Err (ValueError "Found crossBin of bigger size than the number of coverpoints!").
Proof.
  intros Hread Hlen Hbad Hsize.
  rewrite for_each_app.
  destruct (drain_total numCvps before entries m x Hread Hlen) as (x' & Hrun).
  rewrite Hrun. cbn [bind for_each]. unfold drain_body at 1.
  rewrite Hbad. cbn [bind].
  apply Nat.eqb_neq in Hsize. rewrite Hsize. reflexivity.
Qed.

(** X2.  A parsed cross with at least one cross bin meets, in the merge
    database, a cross with a cross bin whose number of indexes differs from
    the number of crossed coverpoints, more or fewer.  When that cross bin is
    readable and the cross bins before it are readable and of the right size,
    the iteration of [parse_crosses] raises the [ValueError] of the size
    check, whatever the later cross bins and the parsed cross hold. *)
Theorem parse_crosses_wrong_size (parent_query : xpath) (cross mergeDBtree : Element)
  (crossLoc : loc) (mergeCrossElement : Element) (before after : list Element)
  (bad : Element) (entries : list (list Z * Z)) (t : list Z) (h : Z) :
  find_merge_element_by_query (cross_query parent_query cross) mergeDBtree
    = Some (crossLoc, mergeCrossElement) ->
  find_ucis_element cross "crossBin" <> None ->
  findall_ucis_children mergeCrossElement "crossBin" = before ++ bad :: after ->
  read_crossBins before = Ok entries ->
  Forall (fun e => List.length (fst e) =
                   List.length (findall_ucis_children mergeCrossElement "crossExpr"))
         entries ->
  read_crossBin bad = Ok (t, h) ->
  List.length t <> List.length (findall_ucis_children mergeCrossElement "crossExpr") ->
  parse_crosses_body parent_query cross mergeDBtree =
  Err (ValueError "Found crossBin of bigger size than the number of coverpoints!").
Proof.
  intros Hfind Hbin Hbins Hread Hlen Hbad Hsize.
  unfold parse_crosses_body. fold (cross_query parent_query cross). rewrite Hfind.
  destruct (find_ucis_element cross "crossBin"); [|contradiction].
  unfold merge_crossBins. rewrite Hbins.
  change (@pair (list (list Z * Z)) Element [] mergeCrossElement)
    with (@pair mergeMap_t Element [] mergeCrossElement).
  rewrite (drain_stops_at_wrong_size _ before after bad entries t h [] mergeCrossElement
             Hread Hlen Hbad Hsize).
  reflexivity.
Qed.

(** The cross of the merge database lists (0,1), then the one-index tuple
    (4), then a cross bin without contents; the parsed cross has two cross
    bins. *)
Lemma parse_crosses_wrong_size_witness :
  parse_crosses_body Sample.instance_query Sample.cross_src
    (Sample.document
       [Sample.cross "XY" "1" ["X"; "Y"]
          [Sample.crossBin "a" ["0"; "1"] "3"; Sample.crossBin "s" ["4"] "9";
           Sample.el "crossBin" [] []]]) =
  Err (ValueError "Found crossBin of bigger size than the number of coverpoints!").
Proof.
  apply (parse_crosses_wrong_size Sample.instance_query Sample.cross_src _
           [0; 0; 0; 1]%nat
           (Sample.cross "XY" "1" ["X"; "Y"]
              [Sample.crossBin "a" ["0"; "1"] "3"; Sample.crossBin "s" ["4"] "9";
               Sample.el "crossBin" [] []])
           [Sample.crossBin "a" ["0"; "1"] "3"] [Sample.el "crossBin" [] []]
           (Sample.crossBin "s" ["4"] "9") [([0; 1], 3)] [4] 9).
  - vm_compute; reflexivity.
  - vm_compute; discriminate.
  - vm_compute; reflexivity.
  - vm_compute; reflexivity.
  - repeat constructor.
  - vm_compute; reflexivity.
  - vm_compute; discriminate.
Defined.

(** X3.  The merge of a non-empty parsed cross into a cross of the merge
    database that has no [userAttr] child always raises: the last step
    removes the element [find] did not find. *)
Theorem merge_crossBins_needs_userAttr (cross mce : Element) :
  find_ucis_element mce "userAttr" = None ->
  exists e, merge_crossBins cross mce = Err e.
Proof.
  intros Hnone. destruct (merge_crossBins cross mce) as [mce'|e] eqn:Hrun; [|eauto].
  apply merge_crossBins_spec in Hrun
    as (_ & _ & _ & _ & _ & _ & _ & (ua & Hua & _) & _).
  congruence.
Qed.

Lemma remove_first_app_found (p : Element -> bool) (l1 l2 : list Element) (x : Element) :
  List.find p l1 = Some x -> remove_first p (l1 ++ l2) = remove_first p l1 ++ l2.
Proof.
  induction l1 as [|a l1 IH]; simpl; [discriminate|].
  destruct (p a); [reflexivity|]. intros H. rewrite IH by exact H. reflexivity.
Qed.

(** X4.  The children of a merged cross: what the cross had apart from its
    cross bins and its first [userAttr] element, in the order it had them,
    then the rebuilt cross bins, then that [userAttr] element as the last
    child.  The tag and the attributes of the cross are kept. *)
Theorem merge_crossBins_layout (cross mce mce' : Element) :
  merge_crossBins cross mce = Ok mce' ->
  exists userAttrElement,
    find_ucis_element mce "userAttr" = Some userAttrElement /\
    children mce' =
      remove_first (has_tag "userAttr")
        (filter (fun c => negb (has_tag "crossBin" c)) (children mce))
      ++ findall_ucis_children mce' "crossBin" ++ [userAttrElement] /\
    tag mce' = tag mce /\ attrib mce' = attrib mce.
Proof.
  intros Hrun.
  apply merge_crossBins_spec in Hrun
    as (accE & srcE & _ & _ & _ & _ & Hbins & (ua & Hua & Hcs) & Ht & Ha).
  exists ua. repeat split; try assumption.
  rewrite Hcs, Hbins.
  rewrite (remove_first_app_found _ _ _ ua), <- app_assoc; [reflexivity|].
  rewrite find_filter_negb by apply crossBin_not_userAttr. exact Hua.
Qed.

Lemma merge_crossBins_layout_witness :
  exists userAttrElement,
    find_ucis_element Sample.cross_acc "userAttr" = Some userAttrElement /\
    children Sample.cross_merged =
      remove_first (has_tag "userAttr")
        (filter (fun c => negb (has_tag "crossBin" c)) (children Sample.cross_acc))
      ++ findall_ucis_children Sample.cross_merged "crossBin" ++ [userAttrElement] /\
    tag Sample.cross_merged = tag Sample.cross_acc /\
    attrib Sample.cross_merged = attrib Sample.cross_acc.
Proof.
  apply (merge_crossBins_layout Sample.cross_src Sample.cross_acc Sample.cross_merged).
  vm_compute; reflexivity.
Defined.

Lemma filter_other_tag (n m : string) (l : list Element) :
  String.eqb (qname n) (qname m) = false ->
  Forall (fun x => has_tag n x = true) l ->
  filter (has_tag m) l = [].
Proof.
  intros Hne. induction 1 as [|a l Ha _ IH]; simpl; [reflexivity|].
  rewrite (has_tag_exclusive n m a Hne Ha). exact IH.
Qed.

Lemma filter_filter_other (p q : Element -> bool) (l : list Element) :
  (forall x, p x = true -> q x = false) ->
  filter p (filter (fun c => negb (q c)) l) = filter p l.
Proof.
  intros Hpq. induction l as [|a l IH]; simpl; [reflexivity|].
  destruct (p a) eqn:Hp.
  - rewrite (Hpq a Hp). simpl. rewrite Hp, IH. reflexivity.
  - destruct (q a); simpl; [exact IH | rewrite Hp; exact IH].
Qed.

Lemma fresh_all_crossBin (numCvps : nat) (m : mergeMap_t) :
  Forall (fun x => has_tag "crossBin" x = true) (map (crossBin_element numCvps) m).
Proof. apply Forall_map. apply Forall_forall. intros e _. reflexivity. Qed.

(** The merge of a cross keeps its crossed coverpoints. *)
Lemma merge_crossBins_crossExpr (cross mce mce' : Element) :
  merge_crossBins cross mce = Ok mce' ->
  findall_ucis_children mce' "crossExpr" = findall_ucis_children mce "crossExpr".
Proof.
  intros Hrun.
  apply merge_crossBins_spec in Hrun
    as (accE & srcE & _ & _ & _ & _ & _ & (ua & Hua & Hcs) & _).
  unfold findall_ucis_children. rewrite Hcs.
  rewrite !filter_app.
  rewrite filter_remove_first by (intros z; apply has_tag_exclusive; reflexivity).
  rewrite filter_app.
  rewrite filter_filter_other by (intros z; apply has_tag_exclusive; reflexivity).
  rewrite (filter_other_tag "crossBin" "crossExpr" _ eq_refl (fresh_all_crossBin _ _)).
  apply find_some in Hua as [_ Hua]. simpl.
  rewrite (has_tag_exclusive "userAttr" "crossExpr" ua eq_refl Hua).
  rewrite !app_nil_r. reflexivity.
Qed.

Lemma find_app_last (p : Element -> bool) (l : list Element) (x : Element) :
  p x = true -> List.find p (l ++ [x]) <> None.
Proof.
  intros Hp. induction l as [|a l IH]; simpl.
  - rewrite Hp. discriminate.
  - destruct (p a); [discriminate | exact IH].
Qed.

Lemma set_entry_keys_Forall (P : list Z -> Prop) (entries : list (list Z * Z)) :
  forall m : mergeMap_t,
  Forall P (map fst m) -> Forall P (map fst entries) ->
  Forall P (map fst (fold_left set_entry entries m)).
Proof.
  induction entries as [|e entries IH]; intros m Hm Hs; simpl; [assumption|].
  inversion Hs; subst. apply IH; [|assumption].
  unfold set_entry, map_set. rewrite keys_store.
  destruct (lookup tuple_eqb (fst e) m); [assumption|].
  apply Forall_app. split; [assumption | repeat constructor; assumption].
Qed.

Lemma pad_entry_length (numCvps : nat) (e : list Z * Z) :
  (List.length (fst e) <= numCvps)%nat ->
  List.length (fst (pad_entry numCvps e)) = numCvps.
Proof.
  intros H. unfold pad_entry. cbn [fst].
  rewrite length_app, repeat_length. lia.
Qed.

(** X5.  A merged cross can be merged again: after a successful merge, the
    merge of any parsed cross whose cross bins are readable and have no more
    indexes than the cross has crossed coverpoints succeeds too. *)
Theorem merge_crossBins_chain (cross1 cross2 mce mce1 : Element)
  (srcE2 : list (list Z * Z)) :
  merge_crossBins cross1 mce = Ok mce1 ->
  read_crossBins (findall_ucis_children cross2 "crossBin") = Ok srcE2 ->
  Forall (fun e => (List.length (fst e) <=
                    List.length (findall_ucis_children mce "crossExpr"))%nat) srcE2 ->
  exists mce2, merge_crossBins cross2 mce1 = Ok mce2.
Proof.
  intros Hrun Hsrc2 Hfit2.
  pose proof (merge_crossBins_crossExpr _ _ _ Hrun) as Hexpr.
  pose proof (merge_crossBins_spec _ _ _ Hrun)
    as (accE & srcE & _ & _ & _ & Hfit & Hbins & (ua & Hua & Hcs) & _).
  set (n := List.length (findall_ucis_children mce "crossExpr")) in *.
  set (accE1 := map (pad_entry n) (merged_map accE srcE)).
  assert (Hlen1 : Forall (fun e => List.length (fst e) = n) accE1).
  { apply Forall_map. apply Forall_forall. intros e He.
    apply pad_entry_length. apply Nat.leb_le.
    rewrite forallb_forall in Hfit. apply Hfit. exact He. }
  apply (merge_crossBins_total cross2 mce1 accE1 srcE2).
  - rewrite Hbins. apply read_crossBins_rebuilt.
  - rewrite Hexpr. exact Hlen1.
  - exact Hsrc2.
  - rewrite Hexpr. fold n. apply forallb_forall. intros e He.
    apply Nat.leb_le.
    assert (HF : Forall (fun t => (List.length t <= n)%nat)
                        (map fst (merged_map accE1 srcE2))).
    { unfold merged_map. apply merged_keys_Forall.
      - apply set_entry_keys_Forall; [constructor|].
        apply Forall_map. eapply Forall_impl; [|exact Hlen1].
        intros a Ha. simpl in Ha. rewrite Ha. apply Nat.le_refl.
      - apply Forall_map. exact Hfit2. }
    rewrite Forall_forall in HF. apply HF. apply in_map. exact He.
  - unfold find_ucis_element. rewrite Hcs. apply find_app_last.
    apply find_some in Hua as [_ Hua]. exact Hua.
Qed.

Lemma merge_crossBins_chain_witness :
  exists mce2, merge_crossBins Sample.cross_src Sample.cross_merged = Ok mce2.
Proof.
  apply (merge_crossBins_chain Sample.cross_src Sample.cross_src Sample.cross_acc
           Sample.cross_merged [([0; 1], 5); ([2; 3], 7)]).
  - vm_compute; reflexivity.
  - vm_compute; reflexivity.
  - repeat constructor.
Defined.

(** X6.  The hit counts do not depend on which of two crosses is the merge
    database and which is the parsed one: for crosses over the same number of
    coverpoints that list each index tuple once, merging either into the
    other gives every tuple the same count. *)
Theorem merge_crossBins_commutes (x y x' y' : Element) (ex ey : list (list Z * Z)) :
  List.length (findall_ucis_children x "crossExpr") =
  List.length (findall_ucis_children y "crossExpr") ->
  read_crossBins (findall_ucis_children x "crossBin") = Ok ex ->
  read_crossBins (findall_ucis_children y "crossBin") = Ok ey ->
  NoDup (map fst ex) ->
  NoDup (map fst ey) ->
  merge_crossBins x y = Ok y' ->
  merge_crossBins y x = Ok x' ->
  exists rx ry,
    read_crossBins (findall_ucis_children x' "crossBin") = Ok rx /\
    read_crossBins (findall_ucis_children y' "crossBin") = Ok ry /\
    forall t, lookup tuple_eqb t rx = lookup tuple_eqb t ry.
Proof.
  intros Hn Hex Hey Hndx Hndy Hy Hx.
  pose proof (merge_crossBins_spec _ _ _ Hy)
    as (a1 & s1 & Ha1 & Hl1 & Hs1 & _ & Hb1 & _).
  pose proof (merge_crossBins_spec _ _ _ Hx)
    as (a2 & s2 & Ha2 & Hl2 & Hs2 & _ & Hb2 & _).
  rewrite Hey in Ha1, Hs2. rewrite Hex in Hs1, Ha2.
  inversion Ha1; subst a1. inversion Hs1; subst s1.
  inversion Ha2; subst a2. inversion Hs2; subst s2.
  clear Ha1 Hs1 Ha2 Hs2.
  rewrite Hn in Hl2.
  set (n := List.length (findall_ucis_children y "crossExpr")) in *.
  assert (Hmx : merged_map ex ey = fold_left add_entry ey ex)
    by (unfold merged_map; rewrite (keys_set_entry_fresh ex []) by exact Hndx;
        reflexivity).
  assert (Hmy : merged_map ey ex = fold_left add_entry ex ey)
    by (unfold merged_map; rewrite (keys_set_entry_fresh ey []) by exact Hndy;
        reflexivity).
  exists (merged_map ex ey), (merged_map ey ex). split; [|split].
  - rewrite Hb2, Hn. fold n. apply read_crossBins_fresh.
    apply (proj1 (Forall_map fst (fun t => List.length t = n) _)).
    rewrite Hmx. apply merged_keys_Forall; apply Forall_map; assumption.
  - rewrite Hb1. apply read_crossBins_fresh.
    apply (proj1 (Forall_map fst (fun t => List.length t = n) _)).
    rewrite Hmy. apply merged_keys_Forall; apply Forall_map; assumption.
  - intros t. rewrite Hmx, Hmy.
    rewrite (merged_lookup ey Hndy ex t), (merged_lookup ex Hndx ey t).
    destruct (lookup tuple_eqb t ey), (lookup tuple_eqb t ex);
      try reflexivity. f_equal. lia.
Qed.

Lemma merge_crossBins_commutes_witness :
  exists rx ry,
    read_crossBins (findall_ucis_children Sample.cross_merged "crossBin") = Ok rx /\
    read_crossBins (findall_ucis_children Sample.cross_merged "crossBin") = Ok ry /\
    forall t, lookup tuple_eqb t rx = lookup tuple_eqb t ry.
Proof.
  apply (merge_crossBins_commutes Sample.cross_src Sample.cross_acc
           Sample.cross_merged Sample.cross_merged
           [([0; 1], 5); ([2; 3], 7)] [([0; 1], 3)]).
  - reflexivity.
  - vm_compute; reflexivity.
  - vm_compute; reflexivity.
  - repeat constructor; simpl; [intros [H|[]]; discriminate H | intros []].
  - repeat constructor. intros [].
  - vm_compute; reflexivity.
  - vm_compute. reflexivity.
Defined.

Lemma merge_crossBins_needs_userAttr_witness :
  exists e,
    merge_crossBins Sample.cross_src
      (Sample.el "cross" [("name", "XY")] [Sample.crossExpr "X"; Sample.crossExpr "Y"])
    = Err e.
Proof.
  apply (merge_crossBins_needs_userAttr Sample.cross_src
           (Sample.el "cross" [("name", "XY")]
                      [Sample.crossExpr "X"; Sample.crossExpr "Y"])).
  vm_compute; reflexivity.
Defined.

(** ** The matches of a query, child by child *)

Lemma flat_map_under (st : step) (steps : list step) (i : nat)
  (ds : list (loc * Element)) :
  flat_map (fun d : loc * Element =>
              if matches st (snd d)
              then map (prefix (fst d)) (select_children steps (snd d))
              else [])
           (map (under i) ds) =
  map (under i)
      (flat_map (fun d : loc * Element =>
                   if matches st (snd d)
                   then map (prefix (fst d)) (select_children steps (snd d))
                   else [])
                ds).
Proof.
  induction ds as [|d ds IH]; simpl; [reflexivity|].
  rewrite map_app, IH. f_equal.
  destruct (matches st (snd d)); [|reflexivity].
  rewrite map_map. apply map_ext. intros r. reflexivity.
Qed.

Lemma iterfind_descendants_from (st : step) (steps : list step) (cs : list Element) :
  forall i,
  flat_map (fun d : loc * Element =>
              if matches st (snd d)
              then map (prefix (fst d)) (select_children steps (snd d))
              else [])
           (descendants_from descendants i cs) =
  flat_map (fun ic : nat * Element =>
              map (under (fst ic)) (matches_from st steps (snd ic)))
           (indexed i cs).
Proof.
  induction cs as [|c cs IH]; intros i; simpl; [reflexivity|].
  rewrite flat_map_app, flat_map_under, IH, app_assoc. f_equal.
  unfold matches_from. rewrite map_app. f_equal.
  destruct (matches st c); [|reflexivity].
  apply map_ext. intros r. reflexivity.
Qed.

Lemma iterfind_children (st : step) (steps : list step) (e : Element) :
  iterfind (st :: steps) e =
  flat_map (fun ic : nat * Element =>
              map (under (fst ic)) (matches_from st steps (snd ic)))
           (indexed 0 (children e)).
Proof.
  destruct e as [t a x cs]. unfold iterfind. cbn [descendants children].
  apply iterfind_descendants_from.
Qed.

Lemma select_children_last (steps : list step) (st : step) :
  forall (e : Element) (r : loc * Element),
  In r (select_children (steps ++ [st]) e) -> matches st (snd r) = true.
Proof.
  induction steps as [|s steps IH]; intros e r Hin; simpl in Hin.
  - apply in_flat_map in Hin as (ic & _ & Hr).
    destruct (matches st (snd ic)) eqn:Hm; [|contradiction].
    simpl in Hr. destruct Hr as [<-|[]]. exact Hm.
  - apply in_flat_map in Hin as (ic & _ & Hr).
    destruct (matches s (snd ic)); [|contradiction].
    apply in_map_iff in Hr as (r0 & <- & Hr0). simpl. eapply IH. exact Hr0.
Qed.

Lemma iterfind_last (q : xpath) (st : step) (e : Element) (r : loc * Element) :
  In r (iterfind (q ++ [st]) e) -> matches st (snd r) = true.
Proof.
  destruct q as [|s q]; simpl; intros Hin;
    apply in_flat_map in Hin as (d & _ & Hr).
  - destruct (matches st (snd d)) eqn:Hm; [|contradiction].
    simpl in Hr. destruct Hr as [<-|[]]. exact Hm.
  - destruct (matches s (snd d)); [|contradiction].
    apply in_map_iff in Hr as (r0 & <- & Hr0). simpl.
    eapply select_children_last. exact Hr0.
Qed.

Lemma descendants_from_nonroot (f : Element -> list (loc * Element))
  (cs : list Element) :
  forall i d, In d (descendants_from f i cs) -> fst d <> [].
Proof.
  induction cs as [|c cs IH]; intros i d Hin; simpl in Hin; [contradiction|].
  destruct Hin as [<-|Hin]; [discriminate|].
  apply in_app_or in Hin as [Hin|Hin].
  - apply in_map_iff in Hin as (d0 & <- & _). discriminate.
  - eapply IH. exact Hin.
Qed.

Lemma iterfind_nonroot (q : xpath) (e : Element) (r : loc * Element) :
  In r (iterfind q e) -> fst r <> [].
Proof.
  destruct q as [|s q]; simpl; [contradiction|]. intros Hin.
  apply in_flat_map in Hin as (d & Hd & Hr).
  destruct (matches s (snd d)); [|contradiction].
  apply in_map_iff in Hr as (r0 & <- & _). simpl.
  destruct e as [t a x cs]. apply descendants_from_nonroot in Hd.
  destruct (fst d); [contradiction | discriminate].
Qed.

Lemma find_in_iterfind (q : xpath) (e : Element) (r : loc * Element) :
  find_merge_element_by_query q e = Some r -> In r (iterfind q e).
Proof.
  unfold find_merge_element_by_query. destruct (iterfind q e); simpl; [discriminate|].
  intros H. inversion H. left. reflexivity.
Qed.

Lemma find_nonroot (q : xpath) (e : Element) (l : loc) (x : Element) :
  find_merge_element_by_query q e = Some (l, x) -> l <> [].
Proof.
  intros H. apply find_in_iterfind in H. apply iterfind_nonroot in H. exact H.
Qed.

(** ** Which documents [process_xml] takes *)

Lemma substring_short (s : string) :
  forall m, (String.length s <= m)%nat -> substring 0 m s = s.
Proof.
  induction s as [|c s IH]; intros [|m] H; simpl in *; try reflexivity; try lia.
  rewrite IH by lia. reflexivity.
Qed.

Lemma substring_suffix (k : nat) :
  forall (s : string) (m : nat),
  (k + m = String.length s)%nat -> exists p, s = (p ++ substring k m s)%string.
Proof.
  induction k as [|k IH]; intros s m H.
  - exists "". simpl in H. subst m. rewrite substring_short by apply Nat.le_refl.
    reflexivity.
  - destruct s as [|c s]; simpl in H; [discriminate|].
    destruct (IH s m) as (p & Hp); [lia|].
    exists (String c p). simpl. rewrite <- Hp. reflexivity.
Qed.

Lemma last_chars_split (n : nat) (s : string) :
  exists p, s = (p ++ last_chars n s)%string.
Proof.
  unfold last_chars. destruct (Nat.le_gt_cases (String.length s) n) as [Hle|Hgt].
  - exists "". replace (String.length s - n)%nat with 0%nat by lia.
    rewrite substring_short by exact Hle. reflexivity.
  - apply substring_suffix. lia.
Qed.

Lemma substring_skip (p u : string) :
  substring (String.length p) (String.length u) (p ++ u) = u.
Proof.
  induction p as [|c p IH]; simpl; [|exact IH].
  apply substring_short. apply Nat.le_refl.
Qed.

Lemma string_length_append (p u : string) :
  String.length (p ++ u) = (String.length p + String.length u)%nat.
Proof. induction p as [|c p IH]; simpl; [reflexivity | rewrite IH; reflexivity]. Qed.

Lemma last_chars_suffix (p u : string) :
  last_chars (String.length u) (p ++ u) = u.
Proof.
  unfold last_chars. rewrite string_length_append.
  replace (String.length p + String.length u - String.length u)%nat
    with (String.length p) by lia.
  apply substring_skip.
Qed.

(** X8.  [process_xml] takes a document exactly when the tag of its root
    ends in UCIS, whatever stands before (a namespace or other letters).  A
    document it does not take leaves the merge database as it was; the first
    document it takes becomes the merge database itself. *)
Theorem process_xml_takes_UCIS_suffix (parseRoot : Element)
  (mergeDBtree : option Element) (r : bool * option Element) :
  process_xml parseRoot mergeDBtree = Ok r ->
  (fst r = true <-> exists p, tag parseRoot = (p ++ "UCIS")%string) /\
  (fst r = false -> snd r = mergeDBtree) /\
  (fst r = true -> mergeDBtree = None -> snd r = Some parseRoot).
Proof.
  unfold process_xml.
  destruct (String.eqb (last_chars 4 (tag parseRoot)) "UCIS") eqn:Htag; cbn [negb].
  - apply String.eqb_eq in Htag. intros Hrun.
    assert (Hfst : fst r = true).
    { destruct mergeDBtree as [tree|]; [|inversion Hrun; reflexivity].
      destruct (parse_xml parseRoot tree); inversion Hrun; reflexivity. }
    split; [|split].
    + split; [|intros _; exact Hfst]. intros _.
      destruct (last_chars_split 4 (tag parseRoot)) as (p & Hp).
      exists p. rewrite Htag in Hp. exact Hp.
    + rewrite Hfst. discriminate.
    + intros _ ->. inversion Hrun. reflexivity.
  - intros Hrun. inversion Hrun; subst r; clear Hrun. cbn [fst snd].
    split; [|split]; [|reflexivity|discriminate].
    split; [discriminate|]. intros (p & Hp). exfalso.
    rewrite Hp in Htag.
    pose proof (last_chars_suffix p "UCIS") as Hs.
    change (String.length "UCIS") with 4%nat in Hs.
    rewrite Hs in Htag. discriminate.
Qed.

Lemma process_xml_takes_UCIS_suffix_witness :
  (fst (true, Some (Sample.UCIS [])) = true <->
   exists p, tag (Sample.UCIS []) = (p ++ "UCIS")%string) /\
  (fst (true, Some (Sample.UCIS [])) = false ->
   snd (true, Some (Sample.UCIS [])) = None) /\
  (fst (true, Some (Sample.UCIS [])) = true -> @None Element = None ->
   snd (true, Some (Sample.UCIS [])) = Some (Sample.UCIS [])).
Proof.
  apply (process_xml_takes_UCIS_suffix (Sample.UCIS []) None
           (true, Some (Sample.UCIS []))).
  vm_compute; reflexivity.
Defined.

(** ** The root of the merge database *)

Lemma root_kept_refl (e : Element) : root_kept e e.
Proof. repeat split. apply Nat.le_refl. Qed.

Lemma root_kept_trans (e1 e2 e3 : Element) :
  root_kept e1 e2 -> root_kept e2 e3 -> root_kept e1 e3.
Proof.
  intros (Ht & Ha & Hx & Hn) (Ht' & Ha' & Hx' & Hn').
  repeat split; try congruence. lia.
Qed.

Lemma update_nth_length {A : Type} (f : A -> A) (l : list A) :
  forall i, List.length (update_nth i f l) = List.length l.
Proof.
  induction l as [|a l IH]; intros [|i]; simpl; try reflexivity.
  rewrite IH. reflexivity.
Qed.

Lemma root_kept_update_at (l : loc) (f : Element -> Element) (e : Element) :
  l <> [] -> root_kept e (update_at l f e).
Proof.
  destruct l as [|i l]; [contradiction|]. intros _.
  destruct e as [t a x cs]. unfold root_kept.
  cbn [update_at set_children tag attrib text children].
  repeat split. rewrite update_nth_length. apply Nat.le_refl.
Qed.

Lemma root_kept_append (c e : Element) : root_kept e (append c e).
Proof.
  destruct e as [t a x cs]. unfold root_kept, append.
  cbn [tag attrib text children].
  repeat split. rewrite List.length_app. simpl. lia.
Qed.

Lemma app_nonempty (l : loc) (i : nat) : l ++ [i] <> [].
Proof. destruct l; discriminate. Qed.

Lemma merge_bin_hits_body_root (binLoc : loc) (q : xpath) (range : Element)
  (t t2 : Element) (th th2 : option Z) :
  binLoc <> [] ->
  merge_bin_hits_body binLoc q range (t, th) = Ok (t2, th2) -> root_kept t t2.
Proof.
  intros Hloc Hbody. unfold merge_bin_hits_body in Hbody. cbn [fst] in Hbody.
  apply bind_Ok in Hbody as (contents & _ & Hbody).
  apply bind_Ok in Hbody as (rangeHitCount & _ & Hbody).
  destruct (find_merge_element_by_query _ t) as [[rloc relem]|]; [|discriminate].
  destruct (negb _); [discriminate|].
  apply bind_Ok in Hbody as ([i c] & _ & Hbody).
  apply bind_Ok in Hbody as (total & _ & Hbody).
  apply bind_Ok in Hbody as (parsedContents & _ & Hbody).
  apply bind_Ok in Hbody as (parsedHits & _ & Hbody).
  inversion Hbody; subst t2 th2; clear Hbody.
  eapply root_kept_trans; apply root_kept_update_at;
    [exact Hloc | apply app_nonempty].
Qed.

Lemma merge_bin_hits_root (bin : Element) (binLoc : loc) (q : xpath) (t t' : Element) :
  binLoc <> [] ->
  merge_bin_hits bin binLoc q t = Ok t' -> root_kept t t'.
Proof.
  intros Hloc Hrun. unfold merge_bin_hits in Hrun.
  apply bind_Ok in Hrun as ([t1 th] & Hloop & Hrun). cbn [fst snd] in Hrun.
  destruct th; [|discriminate]. inversion Hrun; subst t1; clear Hrun.
  apply (for_each_invariant (fun st : Element * option Z => root_kept t (fst st))
           (merge_bin_hits_body binLoc q) (findall_ucis_children bin "range"))
    in Hloop; [exact Hloop | | apply root_kept_refl].
  intros range [ta tha] [tb thb] _ Hinv Hbody. cbn [fst] in *.
  eapply root_kept_trans; [exact Hinv|].
  eapply merge_bin_hits_body_root; eassumption.
Qed.

Lemma parse_coverpoint_bins_body_root (q : xpath) (bin t t' : Element) :
  parse_coverpoint_bins_body q bin t = Ok t' -> root_kept t t'.
Proof.
  unfold parse_coverpoint_bins_body. intros Hrun.
  destruct (find_merge_element_by_query (q ++ _) t) as [[binLoc b]|] eqn:Hfind.
  - eapply merge_bin_hits_root; [|exact Hrun]. eapply find_nonroot. exact Hfind.
  - apply bind_Ok in Hrun as ([pl pe] & Hparent & Hrun).
    inversion Hrun; subst t'; clear Hrun. apply root_kept_update_at.
    destruct (find_merge_element_by_query q t) as [[l x]|] eqn:Hp; [|discriminate].
    inversion Hparent; subst. eapply find_nonroot. exact Hp.
Qed.

Lemma for_each_root (body : Element -> Element -> result Element) (l : list Element) :
  (forall a t t', body a t = Ok t' -> root_kept t t') ->
  forall t t', for_each body l t = Ok t' -> root_kept t t'.
Proof.
  intros Hbody t t' Hrun.
  apply (for_each_invariant (fun s => root_kept t s) body l) in Hrun;
    [exact Hrun | | apply root_kept_refl].
  intros a s s' _ Hinv Hb. eapply root_kept_trans; [exact Hinv|].
  eapply Hbody. exact Hb.
Qed.

Lemma parse_coverpoints_body_root (q : xpath) (coverpoint t t' : Element) :
  parse_coverpoints_body q coverpoint t = Ok t' -> root_kept t t'.
Proof.
  unfold parse_coverpoints_body, parse_coverpoint_bins. intros Hrun.
  destruct (find_merge_element_by_query (q ++ _) t); [|discriminate].
  eapply for_each_root; [|exact Hrun].
  intros a s s'. apply parse_coverpoint_bins_body_root.
Qed.

Lemma parse_crosses_body_root (q : xpath) (cross t t' : Element) :
  parse_crosses_body q cross t = Ok t' -> root_kept t t'.
Proof.
  unfold parse_crosses_body. intros Hrun.
  destruct (find_merge_element_by_query (q ++ _) t) as [[crossLoc mce]|] eqn:Hfind;
    [|discriminate].
  destruct (find_ucis_element cross "crossBin").
  - apply bind_Ok in Hrun as (merged & _ & Hrun).
    inversion Hrun; subst t'; clear Hrun.
    apply root_kept_update_at. eapply find_nonroot. exact Hfind.
  - inversion Hrun; subst. apply root_kept_refl.
Qed.

Lemma merge_cgInstance_root (cgInstance : Element) (q : xpath) (t t' : Element) :
  merge_cgInstance cgInstance q t = Ok t' -> root_kept t t'.
Proof.
  unfold merge_cgInstance, parse_coverpoints, parse_crosses. intros Hrun.
  apply bind_Ok in Hrun as (t1 & H1 & H2).
  eapply root_kept_trans.
  - eapply for_each_root; [|exact H1]. intros a s s'. apply parse_coverpoints_body_root.
  - eapply for_each_root; [|exact H2]. intros a s s'. apply parse_crosses_body_root.
Qed.

Lemma parse_covergroup_type_body_root (q : xpath) (cgInstance t t' : Element) :
  parse_covergroup_type_body q cgInstance t = Ok t' -> root_kept t t'.
Proof.
  unfold parse_covergroup_type_body. intros Hrun.
  destruct (find_merge_element_by_query (q ++ _) t).
  - eapply merge_cgInstance_root. exact Hrun.
  - apply bind_Ok in Hrun as ([pl pe] & Hparent & Hrun).
    inversion Hrun; subst t'; clear Hrun. apply root_kept_update_at.
    destruct (find_merge_element_by_query q t) as [[l x]|] eqn:Hp; [|discriminate].
    inversion Hparent; subst. eapply find_nonroot. exact Hp.
Qed.

Lemma parse_xml_body_root (instanceCoverages t t' : Element) :
  parse_xml_body instanceCoverages t = Ok t' -> root_kept t t'.
Proof.
  unfold parse_xml_body, parse_covergroup_type. intros Hrun.
  destruct (find_merge_element_by_query _ t).
  - apply bind_Ok in Hrun as (cg & _ & Hrun).
    eapply for_each_root; [|exact Hrun].
    intros a s s'. apply parse_covergroup_type_body_root.
  - inversion Hrun; subst. apply root_kept_append.
Qed.

(** X9.  For a parsed document whose [name] and [moduleName] attributes
    have no apostrophe, so that every query the engine builds reads back as
    the steps it was built from, a successful [parse_xml] keeps the root
    element of the merge database: its tag, its attributes and its text are
    those of the first document, and the root loses no child. *)
Theorem parse_xml_keeps_root (parseRoot mergeDBtree tree' : Element) :
  plain_names parseRoot = true ->
  parse_xml parseRoot mergeDBtree = Ok tree' -> root_kept mergeDBtree tree'.
Proof.
  intros _. unfold parse_xml. apply for_each_root.
  intros a s s'. apply parse_xml_body_root.
Qed.

Lemma parse_xml_keeps_root_witness :
  root_kept (Sample.document [Sample.lo_default]) (Sample.document [Sample.lo_merged]).
Proof.
  apply (parse_xml_keeps_root (Sample.document [Sample.lo_ignore])).
  - vm_compute; reflexivity.
  - vm_compute; reflexivity.
Defined.

(** ** What the engine adds is found afterwards *)

Lemma indexed_app (cs1 cs2 : list Element) :
  forall i, indexed i (cs1 ++ cs2) = indexed i cs1 ++ indexed (i + List.length cs1) cs2.
Proof.
  induction cs1 as [|c cs1 IH]; intros i; simpl.
  - rewrite Nat.add_0_r. reflexivity.
  - rewrite IH. replace (S i + List.length cs1)%nat with (i + S (List.length cs1))%nat by lia.
    reflexivity.
Qed.

Lemma hd_error_app_some {A : Type} (l1 l2 : list A) (a : A) :
  hd_error l1 = Some a -> hd_error (l1 ++ l2) = Some a.
Proof. destruct l1; simpl; [discriminate | auto]. Qed.

Lemma hd_error_app_cases {A : Type} (l1 l2 : list A) (a : A) :
  hd_error (l1 ++ l2) = Some a ->
  hd_error l1 = Some a \/ (l1 = [] /\ hd_error l2 = Some a).
Proof. destruct l1; simpl; auto. Qed.

Lemma hd_error_map {A B : Type} (f : A -> B) (l : list A) :
  hd_error (map f l) = option_map f (hd_error l).
Proof. destruct l; reflexivity. Qed.

Lemma hd_error_nil {A : Type} (l : list A) : hd_error l = None -> l = [].
Proof. destruct l; [reflexivity | discriminate]. Qed.


(** The first match of a single step without predicate is the first child
    with the tag. *)
Lemma select_first_child (name : string) (cs : list Element) :
  forall (i j : nat) (c : Element),
  find_index (has_tag name) i cs = Some (j, c) ->
  hd_error
    (flat_map (fun ic : nat * Element =>
                 if matches (mkStep name None) (snd ic)
                 then map (under (fst ic)) (select_children [] (snd ic))
                 else [])
              (indexed i cs)) = Some ([j], c).
Proof.
  induction cs as [|a cs IH]; intros i j c H; simpl in *; [discriminate|].
  unfold matches at 1. cbn [step_tag step_pred]. rewrite andb_true_r.
  destruct (has_tag name a).
  - inversion H; subst. reflexivity.
  - simpl. apply IH. exact H.
Qed.




(** *** Appending to the first match of a query *)

Lemma matches_update_append (b : Element) (st : step) (l : loc) (e : Element) :
  matches st (update_at l (append b) e) = matches st e.
Proof. destruct l, e; reflexivity. Qed.

Lemma hd_flat_map_in {A B : Type} (F : A -> list B) (l : list A) (r : B) :
  hd_error (flat_map F l) = Some r -> exists x, In x l /\ hd_error (F x) = Some r.
Proof.
  induction l as [|a l IH]; simpl; [discriminate|]. intros H.
  apply hd_error_app_cases in H as [H|[_ H]].
  - exists a. auto.
  - destruct (IH H) as (x & Hin & Hx). exists x. auto.
Qed.

Lemma indexed_ge (cs : list Element) :
  forall i j c, In (j, c) (indexed i cs) -> (i <= j)%nat.
Proof.
  induction cs as [|a cs IH]; intros i j c Hin; simpl in Hin; [contradiction|].
  destruct Hin as [Heq|Hin]; [inversion Heq; lia|].
  apply IH in Hin. lia.
Qed.

(** The first result of a loop over the children when the child that gives
    it is updated. *)
Lemma hd_flat_map_update {R : Type} (F : nat * Element -> list R)
  (g : Element -> Element) (k : nat) (r r' : R) (cs : list Element) :
  forall i0, (i0 <= k)%nat ->
  (forall j c, hd_error (F (j, c)) = Some r ->
               j = k /\ hd_error (F (j, g c)) = Some r') ->
  hd_error (flat_map F (indexed i0 cs)) = Some r ->
  hd_error (flat_map F (indexed i0 (update_nth (k - i0) g cs))) = Some r'.
Proof.
  induction cs as [|c cs IH]; intros i0 Hle HF H; simpl in H; [discriminate|].
  apply hd_error_app_cases in H as [Hh|[Hnil Hrest]].
  - destruct (HF i0 c Hh) as [Hk Hh']. subst k. rewrite Nat.sub_diag. simpl.
    apply hd_error_app_some. exact Hh'.
  - pose proof Hrest as Hj. apply hd_flat_map_in in Hj as ([j c'] & Hin & Hj).
    apply indexed_ge in Hin. destruct (HF j c' Hj) as [Hk _]. subst j.
    replace (k - i0)%nat with (S (k - S i0)) by lia. simpl. rewrite Hnil. simpl.
    apply IH; [lia | exact HF | exact Hrest].
Qed.

Lemma hd_flat_map_update0 {R : Type} (F : nat * Element -> list R)
  (g : Element -> Element) (k : nat) (r r' : R) (cs : list Element) :
  (forall j c, hd_error (F (j, c)) = Some r ->
               j = k /\ hd_error (F (j, g c)) = Some r') ->
  hd_error (flat_map F (indexed 0 cs)) = Some r ->
  hd_error (flat_map F (indexed 0 (update_nth k g cs))) = Some r'.
Proof.
  intros HF H.
  pose proof (hd_flat_map_update F g k r r' cs 0%nat (Nat.le_0_l k) HF H) as H'.
  rewrite Nat.sub_0_r in H'. exact H'.
Qed.

Lemma flat_map_nil_update {R : Type} (F : nat * Element -> list R)
  (g : Element -> Element) (cs : list Element) :
  (forall j c, F (j, c) = [] -> F (j, g c) = []) ->
  forall k i0,
  flat_map F (indexed i0 cs) = [] ->
  flat_map F (indexed i0 (update_nth k g cs)) = [].
Proof.
  intros HF. induction cs as [|c cs IH]; intros [|k] i0 H; simpl in *;
    try reflexivity; apply app_eq_nil in H as [H1 H2].
  - rewrite (HF _ _ H1), H2. reflexivity.
  - rewrite H1. simpl. apply IH. exact H2.
Qed.

Lemma select_children_length (steps : list step) :
  forall e r, In r (select_children steps e) -> List.length (fst r) = List.length steps.
Proof.
  induction steps as [|s steps IH]; intros e r Hin; simpl in Hin.
  - destruct Hin as [<-|[]]. reflexivity.
  - apply in_flat_map in Hin as (ic & _ & Hr).
    destruct (matches s (snd ic)); [|contradiction].
    apply in_map_iff in Hr as (r0 & <- & Hr0). simpl. f_equal. eapply IH. exact Hr0.
Qed.

Lemma select_head_append (b : Element) (steps : list step) :
  forall e l P,
  hd_error (select_children steps e) = Some (l, P) ->
  hd_error (select_children steps (update_at l (append b) e)) = Some (l, append b P).
Proof.
  induction steps as [|s steps IH]; intros e l P H; simpl in H.
  - inversion H; subst. reflexivity.
  - pose proof H as H0. apply hd_flat_map_in in H0 as ([j c] & _ & Hj).
    cbn [fst snd] in Hj. destruct (matches s c); [|discriminate].
    rewrite hd_error_map in Hj.
    destruct (hd_error (select_children steps c)) as [[l0 P0]|]; [|discriminate].
    inversion Hj; subst l P0; clear Hj.
    destruct e as [t a x cs]. cbn [update_at set_children children select_children].
    cbn [children] in H.
    apply (hd_flat_map_update0 _ _ j (j :: l0, P)); [|exact H].
    intros j' c' Hh. cbn [fst snd] in *.
    destruct (matches s c') eqn:Hm'; [|discriminate].
    rewrite hd_error_map in Hh.
    destruct (hd_error (select_children steps c')) as [[l1 P1]|] eqn:Hc'; [|discriminate].
    inversion Hh; subst j' l1 P1. split; [reflexivity|].
    rewrite matches_update_append, Hm', hd_error_map, (IH _ _ _ Hc'). reflexivity.
Qed.

Lemma select_nil_append (b : Element) (steps : list step) :
  forall e l,
  (List.length steps <= List.length l)%nat ->
  select_children steps e = [] ->
  select_children steps (update_at l (append b) e) = [].
Proof.
  induction steps as [|s steps IH]; intros e l Hlen H; simpl in H; [discriminate|].
  destruct l as [|k l0]; [simpl in Hlen; lia|].
  destruct e as [t a x cs]. cbn [update_at set_children children select_children].
  cbn [children] in H.
  apply flat_map_nil_update; [|exact H].
  intros j c Hnil. cbn [fst snd] in *. rewrite matches_update_append.
  destruct (matches s c); [|reflexivity].
  destruct (select_children steps c) eqn:Hs; [|discriminate Hnil].
  rewrite IH; [reflexivity | simpl in Hlen; lia | exact Hs].
Qed.

Lemma iterfind_length (st : step) (steps : list step) (e : Element) (r : loc * Element) :
  In r (iterfind (st :: steps) e) -> (List.length steps <= List.length (fst r))%nat.
Proof.
  unfold iterfind. intros Hin. apply in_flat_map in Hin as (d & _ & Hr).
  destruct (matches st (snd d)); [|contradiction].
  apply in_map_iff in Hr as (r0 & <- & Hr0). apply select_children_length in Hr0.
  simpl. rewrite length_app. lia.
Qed.

Lemma hd_error_In {A : Type} (l : list A) (a : A) : hd_error l = Some a -> In a l.
Proof. destruct l; simpl; [discriminate|]. intros H; inversion H; auto. Qed.

Lemma iter_head_append (b : Element) (st : step) (steps : list step)
  (k : nat) (l' : loc) (P e : Element) :
  (forall c, hd_error (matches_from st steps c) = Some (l', P) ->
             hd_error (matches_from st steps (update_at l' (append b) c))
             = Some (l', append b P)) ->
  hd_error (iterfind (st :: steps) e) = Some (k :: l', P) ->
  hd_error (iterfind (st :: steps) (update_at (k :: l') (append b) e))
  = Some (k :: l', append b P).
Proof.
  intros IH H. rewrite iterfind_children in *.
  destruct e as [t a x cs]. cbn [update_at set_children children] in *.
  apply (hd_flat_map_update0 _ _ k (k :: l', P)); [|exact H].
  intros j c Hh. cbn [fst snd] in *. rewrite hd_error_map in Hh.
  destruct (hd_error (matches_from st steps c)) as [[l1 P1]|] eqn:Hc; [|discriminate].
  inversion Hh; subst j l1 P1. split; [reflexivity|].
  rewrite hd_error_map, (IH _ Hc). reflexivity.
Qed.

Lemma matches_from_head_append (b : Element) (st : step) (steps : list step) :
  forall l e P,
  hd_error (matches_from st steps e) = Some (l, P) ->
  hd_error (matches_from st steps (update_at l (append b) e)) = Some (l, append b P).
Proof.
  induction l as [|k l' IH]; intros e P H; unfold matches_from in *;
    apply hd_error_app_cases in H as [Htop|[Hnil Hit]].
  - destruct (matches st e) eqn:Hm; [|discriminate].
    rewrite matches_update_append, Hm. apply hd_error_app_some.
    apply select_head_append. exact Htop.
  - apply hd_error_In in Hit. apply iterfind_nonroot in Hit. contradiction.
  - destruct (matches st e) eqn:Hm; [|discriminate].
    rewrite matches_update_append, Hm. apply hd_error_app_some.
    apply select_head_append. exact Htop.
  - rewrite matches_update_append.
    assert (Htop' : (if matches st e
                     then select_children steps (update_at (k :: l') (append b) e)
                     else []) = []).
    { destruct (matches st e); [|reflexivity].
      apply select_nil_append; [|exact Hnil].
      apply hd_error_In in Hit. apply iterfind_length in Hit. exact Hit. }
    rewrite Htop'. cbn [List.app].
    apply iter_head_append; [|exact Hit].
    intros c Hc. apply IH. exact Hc.
Qed.

(** The first match of a query is still its first match after a child was
    appended to it. *)
Lemma find_append_at_match (b : Element) (q : xpath) (t : Element) (l : loc) (P : Element) :
  find_merge_element_by_query q t = Some (l, P) ->
  find_merge_element_by_query q (update_at l (append b) t) = Some (l, append b P).
Proof.
  unfold find_merge_element_by_query. destruct q as [|st steps]; [discriminate|].
  intros H. destruct l as [|k l'].
  - apply hd_error_In in H. apply iterfind_nonroot in H. contradiction.
  - apply iter_head_append; [|exact H].
    intros c Hc. apply matches_from_head_append. exact Hc.
Qed.

(** *** A query with one more step *)

Lemma prefix_prefix (p q : loc) (r : loc * Element) :
  prefix p (prefix q r) = prefix (p ++ q) r.
Proof. unfold prefix. simpl. rewrite app_assoc. reflexivity. Qed.

Lemma flat_map_flat_map {A B C : Type} (G : A -> list B) (H : B -> list C) (l : list A) :
  flat_map H (flat_map G l) = flat_map (fun x => flat_map H (G x)) l.
Proof.
  induction l as [|a l IH]; simpl; [reflexivity|].
  rewrite flat_map_app, IH. reflexivity.
Qed.

Lemma flat_map_pointwise {A B : Type} (F G : A -> list B) (l : list A) :
  (forall a, F a = G a) -> flat_map F l = flat_map G l.
Proof.
  intros HFG. induction l as [|a l IH]; simpl; [reflexivity|].
  rewrite HFG, IH. reflexivity.
Qed.

Lemma next_step_prefix (s : step) (p : loc) (L : list (loc * Element)) :
  flat_map (fun r : loc * Element => map (prefix (fst r)) (select_children [s] (snd r)))
           (map (prefix p) L) =
  map (prefix p)
      (flat_map (fun r : loc * Element =>
                   map (prefix (fst r)) (select_children [s] (snd r))) L).
Proof.
  induction L as [|r L IH]; [reflexivity|].
  cbn [map flat_map]. rewrite map_app, IH. f_equal.
  rewrite map_map. apply map_ext.
  intros r0. rewrite prefix_prefix. reflexivity.
Qed.

Lemma next_step_under (s : step) (i : nat) (L : list (loc * Element)) :
  flat_map (fun r : loc * Element => map (prefix (fst r)) (select_children [s] (snd r)))
           (map (under i) L) =
  map (under i)
      (flat_map (fun r : loc * Element =>
                   map (prefix (fst r)) (select_children [s] (snd r))) L).
Proof.
  induction L as [|r L IH]; [reflexivity|].
  cbn [map flat_map]. rewrite map_app, IH. f_equal.
  rewrite map_map. apply map_ext.
  intros r0. reflexivity.
Qed.

Lemma select_children_snoc (steps : list step) (s : step) :
  forall e,
  select_children (steps ++ [s]) e =
  flat_map (fun r : loc * Element => map (prefix (fst r)) (select_children [s] (snd r)))
           (select_children steps e).
Proof.
  induction steps as [|a steps IH]; intros e.
  - cbn [List.app]. change (select_children [] e) with [([] : loc, e)].
    cbn [flat_map fst snd]. rewrite app_nil_r.
    rewrite <- (map_id (select_children [s] e)) at 1.
    apply map_ext. intros [l x]. reflexivity.
  - set (H := fun r : loc * Element =>
                map (prefix (fst r)) (select_children [s] (snd r))) in *.
    cbn [List.app select_children]. rewrite flat_map_flat_map.
    apply flat_map_pointwise. intros [i c]. cbn [fst snd].
    destruct (matches a c); [|reflexivity].
    subst H. rewrite next_step_under, IH. reflexivity.
Qed.

Lemma iterfind_snoc (st : step) (steps : list step) (s : step) (e : Element) :
  iterfind ((st :: steps) ++ [s]) e =
  flat_map (fun r : loc * Element => map (prefix (fst r)) (select_children [s] (snd r)))
           (iterfind (st :: steps) e).
Proof.
  cbn [List.app]. unfold iterfind. rewrite flat_map_flat_map.
  apply flat_map_pointwise. intros [p d]. cbn [fst snd].
  destruct (matches st d); [|reflexivity].
  rewrite next_step_prefix, select_children_snoc. reflexivity.
Qed.

Lemma select_children_append (b : Element) (s : step) (P : Element) :
  matches s b = true ->
  select_children [s] (append b P) =
  select_children [s] P ++ [([List.length (children P)], b)].
Proof.
  intros Hb. destruct P as [t a x cs]. cbn [append select_children children tag attrib text].
  rewrite indexed_app, flat_map_app. f_equal.
  cbn [indexed flat_map fst snd List.app]. rewrite Hb. reflexivity.
Qed.

(** An element appended to the first match of [q] because [q/s] found
    nothing is what [q/s] finds afterwards. *)
Lemma appended_child_found (b : Element) (q : xpath) (s : step) (t : Element)
  (l : loc) (P : Element) :
  matches s b = true ->
  find_merge_element_by_query q t = Some (l, P) ->
  find_merge_element_by_query (q ++ [s]) t = None ->
  find_merge_element_by_query (q ++ [s]) (update_at l (append b) t)
  = Some (l ++ [List.length (children P)], b).
Proof.
  intros Hb Hfind Hnone.
  pose proof (find_append_at_match b q t l P Hfind) as Hfind'.
  unfold find_merge_element_by_query in *.
  destruct q as [|st steps]; [discriminate|].
  apply hd_error_nil in Hnone. rewrite iterfind_snoc in *.
  destruct (iterfind (st :: steps) t) as [|r0 rest]; [discriminate|].
  inversion Hfind; subst r0; clear Hfind.
  cbn [flat_map fst snd] in Hnone. apply app_eq_nil in Hnone as [Hnone _].
  apply map_eq_nil in Hnone.
  destruct (iterfind (st :: steps) (update_at l (append b) t)) as [|r1 rest'];
    [discriminate|].
  inversion Hfind'; subst r1; clear Hfind'.
  cbn [flat_map fst snd]. rewrite (select_children_append b s P Hb), Hnone.
  reflexivity.
Qed.

Lemma matches_own_query (name k : string) (e : Element) :
  has_tag name e = true ->
  matches (format_et_query name (Some k) (get k e)) e = true.
Proof.
  intros Htag. unfold matches.
  destruct (get k e) as [v|] eqn:Hv;
    cbn [format_et_query step_tag step_pred]; rewrite Htag; [|reflexivity].
  rewrite Hv, String.eqb_refl. reflexivity.
Qed.

(** X11.  A parsed bin that its query does not find is appended as the
    last child of the coverpoint the parent query finds, as the element it
    is; from then on, when neither the name of the bin nor the names in the
    parent query have an apostrophe, its query finds it there, so that a
    later bin of the same name is merged into it. *)
Theorem new_bin_found (parent_query : xpath) (bin mergeDBtree : Element)
  (l : loc) (coverpoint : Element) :
  has_tag "coverpointBin" bin = true ->
  plain_query (bin_query parent_query bin) = true ->
  find_merge_element_by_query parent_query mergeDBtree = Some (l, coverpoint) ->
  find_merge_element_by_query (bin_query parent_query bin) mergeDBtree = None ->
  exists tree',
    parse_coverpoint_bins_body parent_query bin mergeDBtree = Ok tree' /\
    get_at l tree' = Some (append bin coverpoint) /\
    find_merge_element_by_query (bin_query parent_query bin) tree'
    = Some (l ++ [List.length (children coverpoint)], bin).
Proof.
  intros Htag _ Hparent Hnone.
  exists (update_at l (append bin) mergeDBtree). split; [|split].
  - unfold parse_coverpoint_bins_body. fold (bin_query parent_query bin).
    rewrite Hnone, Hparent. reflexivity.
  - apply get_at_update_at. eapply find_located. exact Hparent.
  - apply appended_child_found; try assumption.
    apply matches_own_query. exact Htag.
Qed.

(** X12.  A parsed instance that its query does not find is appended as
    the last child of the [covergroupCoverage] element the parent query
    finds; from then on, when neither the name of the instance nor the names
    in the parent query have an apostrophe, its query finds it there. *)
Theorem new_cgInstance_found (parent_query : xpath) (cgInstance mergeDBtree : Element)
  (l : loc) (covergroupCoverage : Element) :
  has_tag "cgInstance" cgInstance = true ->
  plain_query (cgInstance_child_query parent_query cgInstance) = true ->
  find_merge_element_by_query parent_query mergeDBtree = Some (l, covergroupCoverage) ->
  find_merge_element_by_query (cgInstance_child_query parent_query cgInstance) mergeDBtree
    = None ->
  exists tree',
    parse_covergroup_type_body parent_query cgInstance mergeDBtree = Ok tree' /\
    get_at l tree' = Some (append cgInstance covergroupCoverage) /\
    find_merge_element_by_query (cgInstance_child_query parent_query cgInstance) tree'
    = Some (l ++ [List.length (children covergroupCoverage)], cgInstance).
Proof.
  intros Htag _ Hparent Hnone.
  exists (update_at l (append cgInstance) mergeDBtree). split; [|split].
  - unfold parse_covergroup_type_body. fold (cgInstance_child_query parent_query cgInstance).
    rewrite Hnone, Hparent. reflexivity.
  - apply get_at_update_at. eapply find_located. exact Hparent.
  - apply appended_child_found; try assumption.
    apply matches_own_query. exact Htag.
Qed.

Lemma new_bin_found_witness :
  exists tree',
    parse_coverpoint_bins_body
      (coverpoint_query Sample.instance_query Sample.lo_default)
      (Sample.coverpointBin "hi" "default" "1" [Sample.range "11" "20" "1"])
      (Sample.document [Sample.lo_default]) = Ok tree' /\
    get_at [0; 0; 0; 1]%nat tree'
    = Some (append (Sample.coverpointBin "hi" "default" "1" [Sample.range "11" "20" "1"])
                   Sample.lo_default) /\
    find_merge_element_by_query
      (bin_query (coverpoint_query Sample.instance_query Sample.lo_default)
         (Sample.coverpointBin "hi" "default" "1" [Sample.range "11" "20" "1"]))
      tree'
    = Some ([0; 0; 0; 1]%nat ++ [List.length (children Sample.lo_default)],
            Sample.coverpointBin "hi" "default" "1" [Sample.range "11" "20" "1"]).
Proof.
  apply (new_bin_found (coverpoint_query Sample.instance_query Sample.lo_default)
           (Sample.coverpointBin "hi" "default" "1" [Sample.range "11" "20" "1"])
           (Sample.document [Sample.lo_default]) [0; 0; 0; 1]%nat Sample.lo_default).
  - vm_compute; reflexivity.
  - vm_compute; reflexivity.
  - vm_compute; reflexivity.
  - vm_compute; reflexivity.
Defined.

Lemma new_cgInstance_found_witness :
  exists tree',
    parse_covergroup_type_body
      (covergroup_type_query (Sample.instanceCoverages "M" []))
      (Sample.cgInstance "J" "1" [])
      (Sample.document [Sample.lo_default]) = Ok tree' /\
    get_at [0; 0]%nat tree'
    = Some (append (Sample.cgInstance "J" "1" [])
                   (Sample.el "covergroupCoverage" []
                      [Sample.cgInstance "I" "1" [Sample.lo_default]])) /\
    find_merge_element_by_query
      (cgInstance_child_query (covergroup_type_query (Sample.instanceCoverages "M" []))
                      (Sample.cgInstance "J" "1" []))
      tree'
    = Some ([0; 0]%nat ++
            [List.length (children (Sample.el "covergroupCoverage" []
                                      [Sample.cgInstance "I" "1" [Sample.lo_default]]))],
            Sample.cgInstance "J" "1" []).
Proof.
  apply (new_cgInstance_found
           (covergroup_type_query (Sample.instanceCoverages "M" []))
           (Sample.cgInstance "J" "1" [])
           (Sample.document [Sample.lo_default]) [0; 0]%nat
           (Sample.el "covergroupCoverage" []
              [Sample.cgInstance "I" "1" [Sample.lo_default]])).
  - vm_compute; reflexivity.
  - vm_compute; reflexivity.
  - vm_compute; reflexivity.
  - vm_compute; reflexivity.
Defined.

(** ** The bin merge, range by range *)

Lemma option_string_eqb_refl (a : option string) : option_string_eqb a a = true.
Proof. apply option_string_eqb_spec. reflexivity. Qed.

Lemma range_query_not_counter (q : xpath) :
  forallb (step_keys_ok not_counter) q = true ->
  forallb (step_keys_ok not_counter) (range_query q) = true.
Proof.
  intros H. unfold range_query. rewrite forallb_app, H. reflexivity.
Qed.

Lemma range_hits_contents (r : Element) (n : Z) :
  range_hits r = Ok n ->
  exists i c, find_ucis_child r "contents" = Some (i, c) /\
              find_ucis_element r "contents" = Some c /\
              py_int (get "coverageCount" c) = Ok n.
Proof.
  unfold range_hits. intros H. apply bind_Ok in H as (c & Hc & Hn).
  destruct (find_ucis_element r "contents") as [c'|] eqn:Hf; inversion Hc; subst c'.
  pose proof Hf as Hf'. unfold find_ucis_element in Hf'.
  apply (find_index_of_find _ _ 0%nat) in Hf' as (i & Hi).
  exists i, c. repeat split; assumption.
Qed.

(** One iteration of the loop of [merge_bin_hits] on a range with the
    limits of the range the query finds: it succeeds and adds the parsed
    count to that range and to the alias of the bin. *)
Lemma merge_bin_hits_body_adds (bin_query : xpath) (binLoc : loc) (b0 : Element)
  (t0 t : Element) (rloc : loc) (rc : Element) (acc : Z) (range : Element) (n : Z)
  (th : option Z) :
  forallb (step_keys_ok not_counter) bin_query = true ->
  find_merge_element_by_query bin_query t0 = Some (binLoc, b0) ->
  skel not_counter t0 t ->
  find_merge_element_by_query (range_query bin_query) t = Some (rloc, rc) ->
  range_hits rc = Ok acc ->
  range_hits range = Ok n ->
  get "from" range = get "from" rc ->
  get "to" range = get "to" rc ->
  exists t2 r2 b2,
    merge_bin_hits_body binLoc bin_query range (t, th) = Ok (t2, Some (acc + n)) /\
    skel not_counter t0 t2 /\
    find_merge_element_by_query (range_query bin_query) t2 = Some (rloc, r2) /\
    range_hits r2 = Ok (acc + n) /\
    get "from" r2 = get "from" rc /\ get "to" r2 = get "to" rc /\
    find_merge_element_by_query bin_query t2 = Some (binLoc, b2) /\
    get "alias" b2 = Some (py_str (acc + n)).
Proof.
  intros Hq Hfind0 Hskel Hrange Hacc Hn Hfrom Hto.
  apply range_hits_contents in Hacc as (i & c & Hchild & Hcelem & Hcount).
  apply range_hits_contents in Hn as (ip & pc & _ & Hpelem & Hpcount).
  set (v := py_str (acc + n)).
  set (t1 := update_at binLoc (set "alias" v) t).
  set (t2 := update_at (rloc ++ [i]) (set "coverageCount" v) t1).
  assert (H01 : skel not_counter t t1)
    by (apply skel_update_at; intros x; apply skel_set; reflexivity).
  assert (H12 : skel not_counter t1 t2)
    by (apply skel_update_at; intros x; apply skel_set; reflexivity).
  assert (H12' : skel not_coverageCount t1 t2)
    by (apply skel_update_at; intros x; apply skel_set; reflexivity).
  assert (H02 : skel not_counter t t2) by (eapply skel_trans; eassumption).
  assert (Htree : skel not_counter t0 t2) by (eapply skel_trans; eassumption).
  (* the bin *)
  destruct (find_same not_counter bin_query t0 t binLoc b0 Hq Hskel Hfind0)
    as (bt & Hfindt & _).
  destruct (find_same not_counter bin_query t0 t2 binLoc b0 Hq Htree Hfind0)
    as (b2 & Hfind2 & _).
  assert (Hbt1 : get_at binLoc t1 = Some (set "alias" v bt))
    by (apply get_at_update_at; eapply find_located; exact Hfindt).
  destruct (get_at_same not_coverageCount binLoc t1 t2 _ H12' Hbt1) as (b2' & Hb2' & Hsk).
  assert (Hb2 : get_at binLoc t2 = Some b2) by (eapply find_located; exact Hfind2).
  rewrite Hb2 in Hb2'. inversion Hb2'; subst b2'; clear Hb2'.
  (* the range and its contents *)
  destruct (find_same not_counter (range_query bin_query) t t2 rloc rc
              (range_query_not_counter _ Hq) H02 Hrange) as (r2 & Hrange2 & Hr2).
  destruct (find_ucis_child_same not_counter rc r2 "contents" i c Hr2 Hchild)
    as (c2 & Hchild2 & _).
  assert (Hc_t : get_at (rloc ++ [i]) t = Some c).
  { rewrite get_at_app, (find_located _ _ _ _ Hrange). simpl.
    apply find_ucis_child_spec in Hchild as (Hnth & _). rewrite Hnth. reflexivity. }
  destruct (get_at_same not_counter (rloc ++ [i]) t t1 c H01 Hc_t) as (c1 & Hc1 & _).
  assert (Hc_t2 : get_at (rloc ++ [i]) t2 = Some (set "coverageCount" v c1))
    by (apply get_at_update_at; exact Hc1).
  assert (Hc2 : get_at (rloc ++ [i]) t2 = Some c2).
  { rewrite get_at_app, (find_located _ _ _ _ Hrange2). simpl.
    apply find_ucis_child_spec in Hchild2 as (Hnth & _). rewrite Hnth. reflexivity. }
  rewrite Hc2 in Hc_t2. inversion Hc_t2; subst c2; clear Hc_t2.
  exists t2, r2, b2. split; [|repeat split].
  - unfold merge_bin_hits_body. cbn [fst]. rewrite Hpelem. cbn [not_none bind].
    rewrite Hpcount. cbn [bind]. fold (range_query bin_query). rewrite Hrange.
    rewrite <- Hfrom, <- Hto, !option_string_eqb_refl. cbn [andb negb].
    rewrite Hchild. cbn [not_none bind]. rewrite Hcount. cbn [bind].
    reflexivity.
  - exact Htree.
  - exact Hrange2.
  - unfold range_hits. apply find_ucis_child_spec in Hchild2 as (_ & _ & Hel).
    rewrite Hel. cbn [not_none bind]. rewrite get_set_same. apply py_int_py_str.
  - symmetry. apply (skel_get not_counter _ _ "from" Hr2). reflexivity.
  - symmetry. apply (skel_get not_counter _ _ "to" Hr2). reflexivity.
  - exact Hfind2.
  - rewrite <- (skel_get not_coverageCount _ _ "alias" Hsk eq_refl).
    apply get_set_same.
Qed.

Lemma merge_bin_hits_loop_adds (bin_query : xpath) (binLoc : loc) (b0 t0 : Element)
  (rloc : loc) (r0 : Element) (ranges : list Element) :
  forallb (step_keys_ok not_counter) bin_query = true ->
  find_merge_element_by_query bin_query t0 = Some (binLoc, b0) ->
  Forall (fun r => get "from" r = get "from" r0 /\ get "to" r = get "to" r0) ranges ->
  forall (counts : list Z) (t rc : Element) (acc : Z) (th : option Z),
  read_ranges ranges = Ok counts ->
  skel not_counter t0 t ->
  find_merge_element_by_query (range_query bin_query) t = Some (rloc, rc) ->
  range_hits rc = Ok acc ->
  get "from" rc = get "from" r0 -> get "to" rc = get "to" r0 ->
  exists t' th' r',
    for_each (merge_bin_hits_body binLoc bin_query) ranges (t, th) = Ok (t', th') /\
    find_merge_element_by_query (range_query bin_query) t' = Some (rloc, r') /\
    range_hits r' = Ok (acc + sum_hits counts) /\
    (ranges <> [] ->
     th' <> None /\
     exists b', find_merge_element_by_query bin_query t' = Some (binLoc, b') /\
                get "alias" b' = Some (py_str (acc + sum_hits counts))).
Proof.
  intros Hq Hfind0 Hlim.
  induction Hlim as [|range ranges [Hf Ht] _ IH];
    intros counts t rc acc th Hread Hskel Hrange Hacc Hfrom Hto.
  - inversion Hread; subst counts. exists t, th, rc. cbn [for_each sum_hits fold_right].
    rewrite Z.add_0_r.
    split; [reflexivity|]. split; [exact Hrange|]. split; [exact Hacc|].
    intros H. exfalso. apply H. reflexivity.
  - cbn [read_ranges] in Hread.
    apply bind_Ok in Hread as (n & Hn & Hread).
    apply bind_Ok in Hread as (rest & Hrest & Hread).
    inversion Hread; subst counts; clear Hread.
    destruct (merge_bin_hits_body_adds bin_query binLoc b0 t0 t rloc rc acc range n th
                Hq Hfind0 Hskel Hrange Hacc Hn)
      as (t2 & r2 & b2 & Hbody & Hskel2 & Hrange2 & Hacc2 & Hf2 & Ht2 & Hbin2 & Halias2);
      [congruence | congruence |].
    destruct (IH rest t2 r2 (acc + n) (Some (acc + n)) Hrest Hskel2 Hrange2 Hacc2)
      as (t' & th' & r' & Hloop & Hrange' & Hacc' & Hlast); [congruence | congruence |].
    exists t', th', r'. cbn [for_each sum_hits fold_right]. rewrite Hbody. cbn [bind].
    fold (sum_hits rest).
    replace (acc + (n + sum_hits rest)) with (acc + n + sum_hits rest) by lia.
    split; [exact Hloop|]. split; [exact Hrange'|]. split; [exact Hacc'|].
    intros _. destruct ranges as [|r1 ranges'].
    + cbn [for_each] in Hloop. inversion Hloop; subst t' th'.
      inversion Hrest; subst rest. cbn [sum_hits fold_right]. rewrite Z.add_0_r.
      split; [discriminate|]. exists b2. split; assumption.
    + apply Hlast. discriminate.
Qed.

(** X13.  What [merge_bin_hits] computes.  When the ranges of the parsed
    bin are readable and all carry the limits of the range the range query
    finds in the merge database (the first range of the bin), the merge
    succeeds; that range then holds its former count plus the counts of all
    the parsed ranges, and the [alias] of the bin holds the same number. *)
Theorem merge_bin_hits_adds_to_first_range (bin : Element) (bin_query : xpath)
  (binLoc : loc) (binElement mergeDBtree : Element) (rloc : loc) (r0 : Element)
  (m : Z) (counts : list Z) :
  forallb (step_keys_ok not_counter) bin_query = true ->
  find_merge_element_by_query bin_query mergeDBtree = Some (binLoc, binElement) ->
  find_merge_element_by_query (range_query bin_query) mergeDBtree = Some (rloc, r0) ->
  range_hits r0 = Ok m ->
  findall_ucis_children bin "range" <> [] ->
  read_ranges (findall_ucis_children bin "range") = Ok counts ->
  Forall (fun r => get "from" r = get "from" r0 /\ get "to" r = get "to" r0)
         (findall_ucis_children bin "range") ->
  exists tree' r' b',
    merge_bin_hits bin binLoc bin_query mergeDBtree = Ok tree' /\
    find_merge_element_by_query (range_query bin_query) tree' = Some (rloc, r') /\
    range_hits r' = Ok (m + sum_hits counts) /\
    find_merge_element_by_query bin_query tree' = Some (binLoc, b') /\
    get "alias" b' = Some (py_str (m + sum_hits counts)).
Proof.
  intros Hq Hfind Hrange Hm Hne Hread Hlim.
  destruct (merge_bin_hits_loop_adds bin_query binLoc binElement mergeDBtree rloc r0
              (findall_ucis_children bin "range") Hq Hfind Hlim
              counts mergeDBtree r0 m None Hread (skel_refl _ _) Hrange Hm
              eq_refl eq_refl)
    as (t' & th' & r' & Hloop & Hrange' & Hm' & Hlast).
  destruct (Hlast Hne) as (Hth & b' & Hbin' & Halias).
  exists t', r', b'. repeat split; try assumption.
  unfold merge_bin_hits. rewrite Hloop. cbn [bind fst snd].
  destruct th'; [reflexivity | contradiction].
Qed.

Lemma merge_bin_hits_adds_to_first_range_witness :
  exists tree' r' b',
    merge_bin_hits
      (Sample.coverpointBin "b" "default" "2"
         [Sample.range "0" "5" "1"; Sample.range "0" "5" "2"])
      [0; 0; 0; 1; 1]%nat
      (bin_query (coverpoint_query Sample.instance_query (Sample.twin_ranges "2" "1" "2"))
         (Sample.coverpointBin "b" "default" "2" []))
      (Sample.document [Sample.twin_ranges "2" "1" "2"]) = Ok tree' /\
    find_merge_element_by_query
      (range_query
         (bin_query (coverpoint_query Sample.instance_query
                       (Sample.twin_ranges "2" "1" "2"))
            (Sample.coverpointBin "b" "default" "2" [])))
      tree' = Some ([0; 0; 0; 1; 1; 0]%nat, r') /\
    range_hits r' = Ok (1 + sum_hits [1; 2]) /\
    find_merge_element_by_query
      (bin_query (coverpoint_query Sample.instance_query (Sample.twin_ranges "2" "1" "2"))
         (Sample.coverpointBin "b" "default" "2" []))
      tree' = Some ([0; 0; 0; 1; 1]%nat, b') /\
    get "alias" b' = Some (py_str (1 + sum_hits [1; 2])).
Proof.
  apply (merge_bin_hits_adds_to_first_range
           (Sample.coverpointBin "b" "default" "2"
              [Sample.range "0" "5" "1"; Sample.range "0" "5" "2"])
           (bin_query (coverpoint_query Sample.instance_query
                         (Sample.twin_ranges "2" "1" "2"))
              (Sample.coverpointBin "b" "default" "2" []))
           [0; 0; 0; 1; 1]%nat
           (Sample.coverpointBin "b" "default" "2"
              [Sample.range "0" "5" "1"; Sample.range "0" "5" "2"])
           (Sample.document [Sample.twin_ranges "2" "1" "2"])
           [0; 0; 0; 1; 1; 0]%nat (Sample.range "0" "5" "1") 1 [1; 2]).
  - vm_compute; reflexivity.
  - vm_compute; reflexivity.
  - vm_compute; reflexivity.
  - vm_compute; reflexivity.
  - vm_compute; discriminate.
  - vm_compute; reflexivity.
  - vm_compute. repeat constructor.
Defined.

(** ** What the bin merge leaves alone *)

Lemma touched_refl (free : string -> bool) (e : Element) : touched free e e.
Proof.
  induction e as [t a x cs IH] using Element_children_ind.
  constructor; [reflexivity|].
  induction IH; constructor; assumption.
Qed.

Lemma touched_trans (free : string -> bool) (e1 : Element) :
  forall e2 e3, touched free e1 e2 -> touched free e2 e3 -> touched free e1 e3.
Proof.
  induction e1 as [t a x cs IH] using Element_children_ind.
  intros e2 e3 H12 H23.
  inversion H12 as [t1 a1 a2 x1 cs1 cs2 Ha12 Hc12]; subst.
  inversion H23 as [t2 a2' a3 x2 cs2' cs3 Ha23 Hc23]; subst.
  constructor.
  - intros k Hk. rewrite (Ha12 k Hk). apply Ha23. exact Hk.
  - clear -IH Hc12 Hc23. revert cs3 Hc23.
    induction Hc12 as [|c1 c2 cs1 cs2 H1 Hrest IHrest]; intros cs3 Hc23;
      inversion Hc23; subst; constructor.
    + inversion IH; subst. eauto.
    + inversion IH; subst. eauto.
Qed.

Lemma touched_set (free : string -> bool) (k v : string) (e : Element) :
  free k = true -> touched free e (set k v e).
Proof.
  intros Hk. destruct e as [t a x cs]. unfold set; simpl.
  constructor.
  - intros k' Hk'. unfold dict_get, dict_set. symmetry.
    apply (lookup_store_other String.eqb String.eqb_eq). congruence.
  - clear. induction cs; constructor; [apply touched_refl | assumption].
Qed.

Lemma touched_update_at (free : string -> bool) (f : Element -> Element) (l : loc) :
  (forall x, touched free x (f x)) ->
  forall e, touched free e (update_at l f e).
Proof.
  intros Hf. induction l as [|i l IH]; intros e; simpl; [apply Hf|].
  destruct e as [t a x cs]. unfold set_children; simpl.
  constructor; [reflexivity|].
  assert (Hrefl : forall l0 : list Element, Forall2 (touched free) l0 l0)
    by (induction l0; constructor; [apply touched_refl | assumption]).
  revert i. induction cs as [|c cs IHcs]; intros [|i]; simpl; constructor; auto.
  apply touched_refl.
Qed.

Lemma merge_bin_hits_body_touched (binLoc : loc) (q : xpath) (range : Element)
  (t t2 : Element) (th th2 : option Z) :
  merge_bin_hits_body binLoc q range (t, th) = Ok (t2, th2) ->
  touched counter_key t t2.
Proof.
  intros Hbody. unfold merge_bin_hits_body in Hbody. cbn [fst] in Hbody.
  apply bind_Ok in Hbody as (contents & _ & Hbody).
  apply bind_Ok in Hbody as (rangeHitCount & _ & Hbody).
  destruct (find_merge_element_by_query _ t) as [[rloc relem]|]; [|discriminate].
  destruct (negb _); [discriminate|].
  apply bind_Ok in Hbody as ([i c] & _ & Hbody).
  apply bind_Ok in Hbody as (total & _ & Hbody).
  apply bind_Ok in Hbody as (parsedContents & _ & Hbody).
  apply bind_Ok in Hbody as (parsedHits & _ & Hbody).
  inversion Hbody; subst t2 th2; clear Hbody.
  eapply touched_trans; apply touched_update_at; intros x; apply touched_set;
    reflexivity.
Qed.

(** X14.  A successful [merge_bin_hits] changes nothing in the merge
    database but values of [alias] and [coverageCount] attributes: no element
    is added, removed or moved, and every tag, text and other attribute is
    kept. *)
Theorem merge_bin_hits_touches_counters_only (bin : Element) (binMergeElement : loc)
  (parent_query : xpath) (mergeDBtree tree' : Element) :
  merge_bin_hits bin binMergeElement parent_query mergeDBtree = Ok tree' ->
  touched counter_key mergeDBtree tree'.
Proof.
  intros Hrun. unfold merge_bin_hits in Hrun.
  apply bind_Ok in Hrun as ([t1 th] & Hloop & Hrun). cbn [fst snd] in Hrun.
  destruct th; [|discriminate]. inversion Hrun; subst t1; clear Hrun.
  apply (for_each_invariant
           (fun st : Element * option Z => touched counter_key mergeDBtree (fst st))
           (merge_bin_hits_body binMergeElement parent_query)
           (findall_ucis_children bin "range"))
    in Hloop; [exact Hloop | | apply touched_refl].
  intros range [ta tha] [tb thb] _ Hinv Hbody. cbn [fst] in *.
  eapply touched_trans; [exact Hinv|].
  eapply merge_bin_hits_body_touched. exact Hbody.
Qed.

Lemma merge_bin_hits_touches_counters_only_witness :
  touched counter_key (Sample.document [Sample.lo_default])
                      (Sample.document [Sample.lo_merged]).
Proof.
  apply (merge_bin_hits_touches_counters_only Sample.lo_bin_ignore
           [0; 0; 0; 1; 1]%nat Sample.lo_query).
  vm_compute; reflexivity.
Defined.

(** ** The checks of the bin merge *)

(** X15.  The checks on the first range of a parsed bin.  When the range
    query finds nothing in the merge database the merge raises the
    [ValueError] "Range not found"; when the range it finds differs in
    [from] or [to] from the first parsed range, the [ValueError] "Range
    limits differ". *)
Theorem merge_bin_hits_checks_first_range (bin : Element) (binMergeElement : loc)
  (parent_query : xpath) (mergeDBtree : Element) (range : Element)
  (rest : list Element) (n : Z) :
  findall_ucis_children bin "range" = range :: rest ->
  range_hits range = Ok n ->
  (find_merge_element_by_query (range_query parent_query) mergeDBtree = None ->
   merge_bin_hits bin binMergeElement parent_query mergeDBtree =
   Err (ValueError
          "Range not found! Bin contents differ between mergeDBtree and parsed XML!")) /\
  (forall rloc searchElement,
     find_merge_element_by_query (range_query parent_query) mergeDBtree
       = Some (rloc, searchElement) ->
     get "from" searchElement <> get "from" range \/
     get "to" searchElement <> get "to" range ->
     merge_bin_hits bin binMergeElement parent_query mergeDBtree =
     Err (ValueError "Range limits differ between mergeDBtree and parsed XML!")).
Proof.
  intros Hranges Hn.
  apply range_hits_contents in Hn as (ip & pc & _ & Hpelem & Hpcount).
  split.
  - intros Hnone. unfold merge_bin_hits. rewrite Hranges. cbn [for_each].
    unfold merge_bin_hits_body at 1. cbn [fst]. rewrite Hpelem. cbn [not_none bind].
    rewrite Hpcount. cbn [bind]. fold (range_query parent_query). rewrite Hnone.
    reflexivity.
  - intros rloc searchElement Hfound Hdiff.
    unfold merge_bin_hits. rewrite Hranges. cbn [for_each].
    unfold merge_bin_hits_body at 1. cbn [fst]. rewrite Hpelem. cbn [not_none bind].
    rewrite Hpcount. cbn [bind]. fold (range_query parent_query). rewrite Hfound.
    assert (Hneg : (option_string_eqb (get "from" searchElement) (get "from" range) &&
                    option_string_eqb (get "to" searchElement) (get "to" range))%bool
                   = false).
    { apply andb_false_iff.
      destruct Hdiff as [Hd|Hd]; [left | right];
        (destruct (option_string_eqb _ _) eqn:E; [|reflexivity];
         apply option_string_eqb_spec in E; contradiction). }
    rewrite Hneg. reflexivity.
Qed.

Lemma merge_bin_hits_checks_first_range_witness :
  (find_merge_element_by_query (range_query Sample.lo_query)
     (Sample.document [Sample.lo_default]) = None ->
   merge_bin_hits
     (Sample.coverpointBin "lo" "default" "4" [Sample.range "0" "9" "4"])
     [0; 0; 0; 1; 1]%nat Sample.lo_query (Sample.document [Sample.lo_default]) =
   Err (ValueError
          "Range not found! Bin contents differ between mergeDBtree and parsed XML!")) /\
  (forall rloc searchElement,
     find_merge_element_by_query (range_query Sample.lo_query)
       (Sample.document [Sample.lo_default]) = Some (rloc, searchElement) ->
     get "from" searchElement <> get "from" (Sample.range "0" "9" "4") \/
     get "to" searchElement <> get "to" (Sample.range "0" "9" "4") ->
     merge_bin_hits
       (Sample.coverpointBin "lo" "default" "4" [Sample.range "0" "9" "4"])
       [0; 0; 0; 1; 1]%nat Sample.lo_query (Sample.document [Sample.lo_default]) =
     Err (ValueError "Range limits differ between mergeDBtree and parsed XML!")).
Proof.
  apply (merge_bin_hits_checks_first_range
           (Sample.coverpointBin "lo" "default" "4" [Sample.range "0" "9" "4"])
           [0; 0; 0; 1; 1]%nat Sample.lo_query (Sample.document [Sample.lo_default])
           (Sample.range "0" "9" "4") [] 4).
  - vm_compute; reflexivity.
  - vm_compute; reflexivity.
Defined.

(** X16.  A parsed bin without a [range] child that is present in the
    merge database cannot be merged: the loop of [merge_bin_hits] never
    assigns [totalhits], and the progress line that reads it raises
    [UnboundLocalError]. *)
Theorem rangeless_bin_cannot_be_merged (parent_query : xpath) (bin mergeDBtree : Element) :
  findall_ucis_children bin "range" = [] ->
  find_merge_element_by_query (bin_query parent_query bin) mergeDBtree <> None ->
  parse_coverpoint_bins_body parent_query bin mergeDBtree = Err UnboundLocalError.
Proof.
  intros Hempty Hfound. unfold parse_coverpoint_bins_body.
  fold (bin_query parent_query bin).
  destruct (find_merge_element_by_query (bin_query parent_query bin) mergeDBtree)
    as [[binLoc b]|]; [|contradiction].
  unfold merge_bin_hits. rewrite Hempty. reflexivity.
Qed.

Lemma rangeless_bin_cannot_be_merged_witness :
  parse_coverpoint_bins_body
    (coverpoint_query Sample.instance_query Sample.lo_default)
    (Sample.coverpointBin "lo" "default" "0" [])
    (Sample.document [Sample.lo_default]) = Err UnboundLocalError.
Proof.
  apply (rangeless_bin_cannot_be_merged
           (coverpoint_query Sample.instance_query Sample.lo_default)
           (Sample.coverpointBin "lo" "default" "0" [])
           (Sample.document [Sample.lo_default])).
  - vm_compute; reflexivity.
  - vm_compute; discriminate.
Defined.

(** ** The report of a coverpoint *)

Lemma percentage_of_nothing : Report.percentage 0 0 = Err ZeroDivisionError.
Proof. vm_compute. reflexivity. Qed.

(** X17.  The report of a coverpoint that has its options but no bin
    raises [ZeroDivisionError]: the percentage divides by the number of
    bins. *)
Theorem coverpoint_without_bins_raises (coverpoint options : Element) (w : Z)
  (st : Report.bin_map_t * Report.inst_data_t) :
  find_ucis_element coverpoint "options" = Some options ->
  py_int (get "weight" options) = Ok w ->
  findall_ucis_children coverpoint "coverpointBin" = [] ->
  Report.get_coverpoint_report_data_body coverpoint st = Err ZeroDivisionError.
Proof.
  intros Hopt Hw Hbins. destruct st as [bm idata].
  unfold Report.get_coverpoint_report_data_body.
  rewrite Hopt. cbn [not_none bind]. rewrite Hw. cbn [bind].
  rewrite Hbins. cbn [for_each bind]. rewrite percentage_of_nothing. reflexivity.
Qed.

Lemma coverpoint_without_bins_raises_witness :
  Report.get_coverpoint_report_data_body (Sample.coverpoint "A" "1" []) ([], [])
  = Err ZeroDivisionError.
Proof.
  apply (coverpoint_without_bins_raises (Sample.coverpoint "A" "1" [])
           (Sample.options "1") 1 ([], [])).
  - vm_compute; reflexivity.
  - vm_compute; reflexivity.
  - vm_compute; reflexivity.
Defined.

(** The loop over the bins of a coverpoint counts the bins and sorts their
    names into hits and misses. *)
Lemma coverpoint_bins_counted (bins : list Element) :
  forall (idx : Z) (names : list (Z * Report.name_t)) (c h m : Z)
         (hn mn : list Report.name_t)
         (st' : Z * list (Z * Report.name_t) * (Z * Z * Z) *
                (list Report.name_t * list Report.name_t)),
  for_each Report.coverpoint_bin_body bins (idx, names, (c, h, m), (hn, mn)) = Ok st' ->
  snd st' = (hn ++ map (get "name") (filter bin_is_hit bins),
             mn ++ map (get "name") (filter (fun b => negb (bin_is_hit b)) bins)) /\
  snd (fst st') =
    (c + Z.of_nat (List.length bins),
     h + Z.of_nat (List.length (filter bin_is_hit bins)),
     m + Z.of_nat (List.length (filter (fun b => negb (bin_is_hit b)) bins))).
Proof.
  induction bins as [|b bins IH]; intros idx names c h m hn mn st' H.
  - cbn [for_each] in H. inversion H; subst st'. cbn [fst snd filter map List.length].
    rewrite !app_nil_r, !Z.add_0_r. split; reflexivity.
  - cbn [for_each] in H. apply bind_Ok in H as (st1 & Hb & H).
    unfold Report.coverpoint_bin_body in Hb.
    apply bind_Ok in Hb as (hit_count & Hhits & Hb).
    assert (Hhit : bin_is_hit b = (0 <? hit_count))
      by (unfold bin_is_hit; rewrite Hhits; reflexivity).
    cbn [filter]. rewrite Hhit.
    destruct (0 <? hit_count); inversion Hb; subst st1; clear Hb;
      apply IH in H as [Hn Hc]; rewrite Hn, Hc; cbn [negb map List.length];
      rewrite <- !app_assoc; (split; [reflexivity|]);
      repeat match goal with |- (_, _) = (_, _) => f_equal end; lia.
Qed.

(** X18.  The counters the report keeps for a coverpoint: [bin_count] is
    the number of its bins, [hits] lists the names of the bins whose [alias]
    is positive and [misses] the names of the others, both in document
    order, [bin_hits] and [bin_misses] are their lengths, and the two add up
    to [bin_count]. *)
Theorem coverpoint_report_counts (coverpoint : Element)
  (cg_cp_bin_map cg_cp_bin_map' : Report.bin_map_t)
  (inst_data inst_data' : Report.inst_data_t) :
  Report.get_coverpoint_report_data_body coverpoint (cg_cp_bin_map, inst_data)
    = Ok (cg_cp_bin_map', inst_data') ->
  let bins := findall_ucis_children coverpoint "coverpointBin" in
  exists cp_data,
    lookup option_string_eqb (get "name" coverpoint) inst_data' = Some cp_data /\
    Report.bin_count cp_data = Z.of_nat (List.length bins) /\
    Report.hits cp_data = map (get "name") (filter bin_is_hit bins) /\
    Report.misses cp_data = map (get "name") (filter (fun b => negb (bin_is_hit b)) bins) /\
    Report.bin_hits cp_data = Z.of_nat (List.length (Report.hits cp_data)) /\
    Report.bin_misses cp_data = Z.of_nat (List.length (Report.misses cp_data)) /\
    Report.bin_hits cp_data + Report.bin_misses cp_data = Report.bin_count cp_data.
Proof.
  intros H bins. unfold Report.get_coverpoint_report_data_body in H.
  apply bind_Ok in H as (options & _ & H).
  apply bind_Ok in H as (w & _ & H).
  apply bind_Ok in H as ([[[idx names] [[count nhits] nmisses]] [hn mn]] & Hloop & H).
  apply bind_Ok in H as (pct & _ & H).
  inversion H; subst cg_cp_bin_map' inst_data'; clear H.
  apply coverpoint_bins_counted in Hloop as [Hn Hc]. cbn [fst snd] in Hn, Hc.
  fold bins in Hn, Hc. inversion Hn; subst hn mn. inversion Hc; subst count nhits nmisses.
  clear Hn Hc.
  eexists. split.
  - apply (lookup_store_same option_string_eqb option_string_eqb_spec).
  - cbn [Report.bin_count Report.hits Report.misses Report.bin_hits Report.bin_misses].
    rewrite !length_map. repeat split; try reflexivity.
    rewrite <- Nat2Z.inj_add. f_equal.
    clear. induction bins as [|b bins IH]; [reflexivity|].
    cbn [filter]. destruct (bin_is_hit b); cbn [negb List.length]; lia.
Qed.

Lemma coverpoint_report_counts_witness :
  exists cg_cp_bin_map' inst_data' cp_data,
    Report.get_coverpoint_report_data_body
      (Sample.coverpoint "A" "1"
         [Sample.coverpointBin "a0" "default" "3" [Sample.range "0" "1" "3"];
          Sample.coverpointBin "a1" "default" "0" [Sample.range "2" "3" "0"]])
      ([], []) = Ok (cg_cp_bin_map', inst_data') /\
    lookup option_string_eqb (Some "A") inst_data' = Some cp_data /\
    Report.bin_count cp_data = 2 /\
    Report.hits cp_data = [Some "a0"] /\
    Report.misses cp_data = [Some "a1"] /\
    Report.bin_hits cp_data + Report.bin_misses cp_data = Report.bin_count cp_data.
Proof.
  destruct (Report.get_coverpoint_report_data_body
              (Sample.coverpoint "A" "1"
                 [Sample.coverpointBin "a0" "default" "3" [Sample.range "0" "1" "3"];
                  Sample.coverpointBin "a1" "default" "0" [Sample.range "2" "3" "0"]])
              ([], [])) as [[bm idata]|e] eqn:Hrun;
    [|vm_compute in Hrun; discriminate Hrun].
  destruct (coverpoint_report_counts _ _ _ _ _ Hrun)
    as (cp_data & Hl & Hcount & Hhits & Hmisses & _ & _ & Hsum).
  exists bm, idata, cp_data. repeat split; assumption.
Defined.

(** ** The bins of a cross *)






(** ** The report of a document *)

Lemma rollup_of_nothing : Report.rollup [] = Err ZeroDivisionError.
Proof. vm_compute. reflexivity. Qed.

Lemma store_values {K V : Type} (eqb : K -> K -> bool) (Q : V -> Prop)
  (k : K) (v : V) (d : list (K * V)) :
  Forall (fun kv => Q (snd kv)) d -> Q v ->
  Forall (fun kv => Q (snd kv)) (store eqb k v d).
Proof.
  intros Hd Hv. induction Hd as [|[k' v'] d Hkv Hd IH]; simpl.
  - repeat constructor. exact Hv.
  - destruct (eqb k k'); constructor; simpl; auto.
Qed.

(** X20.  In the data [get_report_data] returns every covergroup type has
    weight 1 and the weighted average of its instances as percentage, and
    the percentage of the document is the weighted average of the types with
    these weights, that is their plain mean. *)
Theorem get_report_data_rolls_up (parseRoot : Element) (data : report_data_t) :
  get_report_data parseRoot = Ok data ->
  data_pct_cov data = Report.weighted_average (map module_pct_weight (modules data)) /\
  Forall (fun kv =>
            module_weight (snd kv) = 1 /\
            module_pct_cov (snd kv) =
              Report.weighted_average (map cg_pct_weight (instances (snd kv))))
         (modules data).
Proof.
  unfold get_report_data. intros H.
  apply bind_Ok in H as (mods & Hloop & H).
  apply bind_Ok in H as (pct & Hpct & H).
  inversion H; subst data; clear H. cbn [data_pct_cov modules].
  split; [apply rollup_weighted_average; exact Hpct|].
  apply (for_each_invariant
           (fun mods : list (Report.name_t * module_data_t) =>
              Forall (fun kv =>
                        module_weight (snd kv) = 1 /\
                        module_pct_cov (snd kv) =
                          Report.weighted_average
                            (map cg_pct_weight (instances (snd kv)))) mods)
           get_report_data_body
           (findall_ucis_children parseRoot "instanceCoverages")) in Hloop;
    [exact Hloop | | constructor].
  intros ic m m' _ Hm Hbody. unfold get_report_data_body in Hbody.
  apply bind_Ok in Hbody as (insts & _ & Hbody).
  apply bind_Ok in Hbody as (p & Hp & Hbody).
  inversion Hbody; subst m'; clear Hbody.
  apply (store_values option_string_eqb
           (fun v => module_weight v = 1 /\
                     module_pct_cov v =
                       Report.weighted_average (map cg_pct_weight (instances v))));
    [exact Hm|].
  cbn [module_weight module_pct_cov instances].
  split; [reflexivity | apply rollup_weighted_average; exact Hp].
Qed.

(** X21.  [get_report_data] raises [ZeroDivisionError] on a document
    without covergroup types, and on a document whose first covergroup type
    has a [covergroupCoverage] element without instances: the roll-up
    divides by the sum of no weights. *)
Theorem report_of_nothing_raises (parseRoot : Element) :
  (findall_ucis_children parseRoot "instanceCoverages" = [] ->
   get_report_data parseRoot = Err ZeroDivisionError) /\
  (forall instanceCoverages rest covergroupCoverage,
     findall_ucis_children parseRoot "instanceCoverages" = instanceCoverages :: rest ->
     find_ucis_element instanceCoverages "covergroupCoverage" = Some covergroupCoverage ->
     findall_ucis_children covergroupCoverage "cgInstance" = [] ->
     get_report_data parseRoot = Err ZeroDivisionError).
Proof.
  split.
  - intros Hnone. unfold get_report_data. rewrite Hnone. cbn [for_each bind map].
    rewrite rollup_of_nothing. reflexivity.
  - intros ic rest cg Hlist Hcg Hinst. unfold get_report_data. rewrite Hlist.
    cbn [for_each]. unfold get_report_data_body at 1.
    rewrite Hcg. unfold Report.get_covergroup_report_data. cbn [not_none bind].
    rewrite Hinst. cbn [for_each bind map]. rewrite rollup_of_nothing. reflexivity.
Qed.

Lemma get_report_data_rolls_up_witness :
  exists data,
    get_report_data (Sample.UCIS [Sample.instanceCoverages "M" [Sample.rollup_instance]])
      = Ok data /\
    data_pct_cov data = Report.weighted_average (map module_pct_weight (modules data)) /\
    Forall (fun kv =>
              module_weight (snd kv) = 1 /\
              module_pct_cov (snd kv) =
                Report.weighted_average (map cg_pct_weight (instances (snd kv))))
           (modules data).
Proof.
  destruct (get_report_data
              (Sample.UCIS [Sample.instanceCoverages "M" [Sample.rollup_instance]]))
    as [data|e] eqn:Hrun; [|vm_compute in Hrun; discriminate Hrun].
  exists data. split; [reflexivity|].
  apply (get_report_data_rolls_up
           (Sample.UCIS [Sample.instanceCoverages "M" [Sample.rollup_instance]])).
  exact Hrun.
Defined.

Lemma report_of_nothing_raises_witness :
  get_report_data (Sample.UCIS []) = Err ZeroDivisionError.
Proof.
  apply (report_of_nothing_raises (Sample.UCIS [])).
  vm_compute; reflexivity.
Defined.

(** ** Cross bins that repeat a tuple *)

Lemma lookup_app_tuple (t : list Z) (l1 l2 : list (list Z * Z)) :
  lookup tuple_eqb t (l1 ++ l2) =
  match lookup tuple_eqb t l1 with
  | Some a => Some a
  | None => lookup tuple_eqb t l2
  end.
Proof.
  induction l1 as [|[k v] l1 IH]; simpl; [reflexivity|].
  destruct (tuple_eqb t k); [reflexivity | exact IH].
Qed.

Lemma lookup_set_entry (t : list Z) (m : mergeMap_t) (e : list Z * Z) :
  lookup tuple_eqb t (set_entry m e) =
  if tuple_eqb t (fst e) then Some (snd e) else lookup tuple_eqb t m.
Proof.
  unfold set_entry, map_set. destruct (tuple_eqb t (fst e)) eqn:E.
  - apply tuple_eqb_spec in E. subst t.
    apply (lookup_store_same tuple_eqb tuple_eqb_spec).
  - apply (lookup_store_other tuple_eqb tuple_eqb_spec).
    intros Heq. subst t. rewrite (proj2 (tuple_eqb_spec _ _) eq_refl) in E.
    discriminate.
Qed.

(** After the first loop a tuple has the last count the merge database
    listed for it. *)
Lemma drained_lookup (t : list Z) (accE : list (list Z * Z)) :
  forall m : mergeMap_t,
  lookup tuple_eqb t (fold_left set_entry accE m) =
  match last_count t accE with
  | Some a => Some a
  | None => lookup tuple_eqb t m
  end.
Proof.
  unfold last_count.
  induction accE as [|e accE IH]; intros m; [reflexivity|].
  cbn [fold_left List.rev]. rewrite IH, lookup_app_tuple, lookup_set_entry.
  destruct (lookup tuple_eqb t (List.rev accE)); [reflexivity|].
  destruct e as [k v]. cbn [lookup fst snd]. destruct (tuple_eqb t k); reflexivity.
Qed.

Lemma lookup_add_entry (t : list Z) (m : mergeMap_t) (e : list Z * Z) :
  lookup tuple_eqb t (add_entry m e) =
  if tuple_eqb t (fst e)
  then match lookup tuple_eqb t m with
       | Some a => Some (a + snd e)
       | None => Some (snd e)
       end
  else lookup tuple_eqb t m.
Proof.
  unfold add_entry, map_get, map_set. destruct (tuple_eqb t (fst e)) eqn:E.
  - apply tuple_eqb_spec in E. subst t.
    destruct (lookup tuple_eqb (fst e) m);
      apply (lookup_store_same tuple_eqb tuple_eqb_spec).
  - assert (Hne : fst e <> t).
    { intros Heq. subst t. rewrite (proj2 (tuple_eqb_spec _ _) eq_refl) in E.
      discriminate. }
    destruct (lookup tuple_eqb (fst e) m);
      apply (lookup_store_other tuple_eqb tuple_eqb_spec); exact Hne.
Qed.

(** After the second loop a tuple has what it had plus all the counts the
    parsed cross lists for it. *)
Lemma folded_lookup (t : list Z) (srcE : list (list Z * Z)) :
  forall m : mergeMap_t,
  lookup tuple_eqb t (fold_left add_entry srcE m) =
  match lookup tuple_eqb t m with
  | Some a => Some (a + tuple_total t srcE)
  | None => if occurs t srcE then Some (tuple_total t srcE) else None
  end.
Proof.
  induction srcE as [|e srcE IH]; intros m.
  - cbn [fold_left tuple_total occurs existsb fold_right].
    destruct (lookup tuple_eqb t m); [rewrite Z.add_0_r|]; reflexivity.
  - cbn [fold_left tuple_total occurs existsb fold_right].
    rewrite IH, lookup_add_entry. fold (tuple_total t srcE). fold (occurs t srcE).
    destruct (tuple_eqb t (fst e)); cbn [orb].
    + destruct (lookup tuple_eqb t m); f_equal; lia.
    + reflexivity.
Qed.

Lemma drained_keys_NoDup (accE : list (list Z * Z)) :
  forall m : mergeMap_t,
  NoDup (map fst m) -> NoDup (map fst (fold_left set_entry accE m)).
Proof.
  induction accE as [|e accE IH]; intros m Hm; [exact Hm|].
  cbn [fold_left]. apply IH. unfold set_entry, map_set.
  apply store_NoDup; [apply tuple_eqb_spec | exact Hm].
Qed.

(** X22.  The merge of a cross when tuples repeat.  For parsed cross bins
    with as many indexes as the cross has crossed coverpoints, the rebuilt
    cross lists each index tuple once; its count is the last count the merge
    database listed for the tuple, if any, plus all the counts the parsed
    cross lists for it.  A tuple the merge database repeats keeps only its
    last count; a tuple the parsed cross repeats contributes every time. *)
Theorem merge_crossBins_with_repeated_tuples (cross mce mce' : Element)
  (accE srcE : list (list Z * Z)) :
  merge_crossBins cross mce = Ok mce' ->
  read_crossBins (findall_ucis_children mce "crossBin") = Ok accE ->
  read_crossBins (findall_ucis_children cross "crossBin") = Ok srcE ->
  Forall (fun e => List.length (fst e) =
                   List.length (findall_ucis_children mce "crossExpr")) srcE ->
  exists resE,
    read_crossBins (findall_ucis_children mce' "crossBin") = Ok resE /\
    NoDup (map fst resE) /\
    forall t,
      lookup tuple_eqb t resE =
      match last_count t accE with
      | Some a => Some (a + tuple_total t srcE)
      | None => if occurs t srcE then Some (tuple_total t srcE) else None
      end.
Proof.
  intros Hrun HaccE HsrcE Hlsrc.
  pose proof (merge_crossBins_spec _ _ _ Hrun)
    as (accE' & srcE' & HaccE' & Hlacc & HsrcE' & _ & Hbins & _).
  rewrite HaccE in HaccE'. rewrite HsrcE in HsrcE'.
  inversion HaccE'; subst accE'. inversion HsrcE'; subst srcE'. clear HaccE' HsrcE'.
  set (n := List.length (findall_ucis_children mce "crossExpr")) in *.
  exists (merged_map accE srcE). split; [|split].
  - rewrite Hbins. apply read_crossBins_fresh.
    apply (proj1 (Forall_map fst (fun t => List.length t = n) _)).
    unfold merged_map. apply merged_keys_Forall; [|apply Forall_map; exact Hlsrc].
    apply set_entry_keys_Forall; [constructor | apply Forall_map; exact Hlacc].
  - unfold merged_map. apply merged_keys_NoDup.
    apply drained_keys_NoDup. constructor.
  - intros t. unfold merged_map. rewrite folded_lookup, drained_lookup.
    destruct (last_count t accE); reflexivity.
Qed.

Lemma merge_crossBins_with_repeated_tuples_witness :
  exists resE,
    read_crossBins (findall_ucis_children Sample.cross_merged "crossBin") = Ok resE /\
    NoDup (map fst resE) /\
    forall t,
      lookup tuple_eqb t resE =
      match last_count t [([0; 1], 3)] with
      | Some a => Some (a + tuple_total t [([0; 1], 2); ([0; 1], 3); ([2; 3], 7)])
      | None => if occurs t [([0; 1], 2); ([0; 1], 3); ([2; 3], 7)]
                then Some (tuple_total t [([0; 1], 2); ([0; 1], 3); ([2; 3], 7)])
                else None
      end.
Proof.
  apply (merge_crossBins_with_repeated_tuples
           (Sample.cross "XY" "1" ["X"; "Y"]
              [Sample.crossBin "b" ["0"; "1"] "2"; Sample.crossBin "b" ["0"; "1"] "3";
               Sample.crossBin "c" ["2"; "3"] "7"])
           Sample.cross_acc
           Sample.cross_merged [([0; 1], 3)] [([0; 1], 2); ([0; 1], 3); ([2; 3], 7)]).
  - vm_compute; reflexivity.
  - vm_compute; reflexivity.
  - vm_compute; reflexivity.
  - repeat constructor.
Defined.

(** ** The report of a cross *)




(** ** The alias of a bin and the counter of its range *)

(** C6.  The bin query and the range query are two searches of the whole
    merge database.  With two bins named "b" in the coverpoint, the first
    without a range, the bin query finds the first bin and the range query
    the range of the second: the merge succeeds, the first bin takes the
    alias 5, and the second bin keeps the alias 2 while the counter of its
    range becomes 5. *)
Theorem C6_alias_written_to_another_bin :
  parse_xml (Sample.document [same_name_run]) (Sample.document [same_name_bins])
  = Ok (Sample.document [same_name_merged]).
Proof. vm_compute; reflexivity. Qed.

(** The first match of a query extended by a child step without attribute
    test is the first such child of the first match that has one. *)
Lemma find_first_child (q : xpath) (name : string) (t : Element) (l : loc)
  (e : Element) (j : nat) (c : Element) :
  find_merge_element_by_query q t = Some (l, e) ->
  find_ucis_child e name = Some (j, c) ->
  find_merge_element_by_query (q ++ [format_et_query name None None]) t
  = Some (l ++ [j], c).
Proof.
  intros Hfind Hchild. unfold find_merge_element_by_query in *.
  destruct q as [|st steps]; [discriminate|].
  rewrite iterfind_snoc.
  destruct (iterfind (st :: steps) t) as [|r rest]; [discriminate|].
  inversion Hfind; subst r; clear Hfind.
  cbn [flat_map fst snd]. apply hd_error_app_some.
  rewrite hd_error_map. unfold find_ucis_child in Hchild.
  pose proof (select_first_child name (children e) 0 j c Hchild) as Hhd.
  cbn [select_children format_et_query] in *. rewrite Hhd.
  reflexivity.
Qed.

(** X24.  For a bin query that tests names without apostrophes only: when
    the bin it finds has a range of its own, the range query finds the first
    range of that very bin, and after a successful [merge_bin_hits] the
    [alias] of the bin equals the [coverageCount] of the contents of its own
    first range. *)
Theorem merge_bin_hits_syncs_own_range (bin : Element) (bin_query : xpath)
  (binLoc : loc) (binElement mergeDBtree tree' : Element) (j : nat) (range0 : Element) :
  forallb (step_keys_ok identity_key) bin_query = true ->
  plain_query bin_query = true ->
  find_merge_element_by_query bin_query mergeDBtree = Some (binLoc, binElement) ->
  find_ucis_child binElement "range" = Some (j, range0) ->
  merge_bin_hits bin binLoc bin_query mergeDBtree = Ok tree' ->
  exists binElement' range' i contents' hits,
    get_at binLoc tree' = Some binElement' /\
    find_ucis_child binElement' "range" = Some (j, range') /\
    find_merge_element_by_query (range_query bin_query) tree'
      = Some (binLoc ++ [j], range') /\
    find_ucis_child range' "contents" = Some (i, contents') /\
    get "alias" binElement' = Some (py_str hits) /\
    get "coverageCount" contents' = Some (py_str hits).
Proof.
  intros Hq _ Hfind Hrange Hrun. unfold merge_bin_hits in Hrun.
  apply bind_Ok in Hrun as ([t th] & Hloop & Hrun). cbn [fst snd] in Hrun.
  destruct th as [hits|]; [|discriminate]. inversion Hrun; subst t; clear Hrun.
  pose proof (for_each_invariant
    (fun st : Element * option Z =>
       skel identity_key mergeDBtree (fst st) /\
       (snd st <> None -> alias_in_sync bin_query binLoc (fst st)))
    (merge_bin_hits_body binLoc bin_query)
    (findall_ucis_children bin "range")) as Hinv.
  apply Hinv in Hloop.
  - destruct Hloop as [Hskel Hsync]. cbn [fst snd] in *.
    destruct Hsync as (b' & rloc & r' & i & c' & n & Hb & Hr & Hc & Ha & Hn);
      [discriminate|].
    destruct (find_same identity_key bin_query mergeDBtree tree' binLoc binElement
                Hq Hskel Hfind) as (b2 & Hb2 & Hsk).
    rewrite Hb in Hb2. inversion Hb2; subst b2; clear Hb2.
    destruct (find_ucis_child_same identity_key binElement b' "range" j range0 Hsk Hrange)
      as (r2 & Hr2 & _).
    pose proof (find_first_child bin_query "range" tree' binLoc b' j r2 Hb Hr2) as Hown.
    fold (range_query bin_query) in Hown. rewrite Hr in Hown.
    inversion Hown; subst rloc r'; clear Hown.
    exists b', r2, i, c', n. repeat split; try assumption.
    eapply find_located. exact Hb.
  - intros range [t th] [t2 th2] _ [Hskel _] Hbody. cbn [fst snd] in *.
    destruct (merge_bin_hits_body_sync bin_query binLoc binElement mergeDBtree
                t t2 range th th2 Hq Hfind Hskel Hbody) as (Hs & _ & Hsync).
    split; [exact Hs | intros _; exact Hsync].
  - cbn [fst snd]. split; [apply skel_refl | intros H; contradiction].
Qed.

(** The bin "lo" with 3 hits receives the 4 hits of the parsed bin: its
    alias and the counter of its range both read 7. *)
Lemma merge_bin_hits_syncs_own_range_witness :
  exists binElement' range' i contents' hits,
    get_at [0; 0; 0; 1; 1]%nat (Sample.document [Sample.lo_merged]) = Some binElement' /\
    find_ucis_child binElement' "range" = Some (0%nat, range') /\
    find_merge_element_by_query (range_query Sample.lo_query)
                                (Sample.document [Sample.lo_merged])
      = Some ([0; 0; 0; 1; 1]%nat ++ [0%nat], range') /\
    find_ucis_child range' "contents" = Some (i, contents') /\
    get "alias" binElement' = Some (py_str hits) /\
    get "coverageCount" contents' = Some (py_str hits).
Proof.
  apply (merge_bin_hits_syncs_own_range Sample.lo_bin_ignore Sample.lo_query
           [0; 0; 0; 1; 1]%nat Sample.lo_bin_default
           (Sample.document [Sample.lo_default]) (Sample.document [Sample.lo_merged])
           0%nat (Sample.range "0" "10" "3")).
  - vm_compute; reflexivity.
  - vm_compute; reflexivity.
  - vm_compute; reflexivity.
  - vm_compute; reflexivity.
  - vm_compute; reflexivity.
Defined.

(** ** A missing coverpoint that is not fatal *)

(** C2.  The merge database has the coverpoint "A" of instance "I" only, and
    the query for the coverpoint "B" of the run finds nothing in it.  The
    run is merged all the same: the bin "x" of "A" is new and is appended
    with the covergroup type it holds, the query for "B", a search of the
    whole merge database, then finds the coverpoint "B" inside that bin, and
    the bin "b0" is appended there.  No error is raised, and the instance
    "I" of the merge database still has no coverpoint "B". *)
Theorem C2_missing_coverpoint_not_fatal :
  find_merge_element_by_query
    (coverpoint_query Sample.instance_query Sample.cvp_B)
    (Sample.document [Sample.cvp_A]) = None /\
  parse_xml (Sample.document nested_type_run) (Sample.document [Sample.cvp_A])
  = Ok (Sample.document nested_type_merged).
Proof. split; vm_compute; reflexivity. Qed.

(** ** The merge of the crosses of an instance *)









(** ** The report of an instance *)






Lemma filter_negb_length {A : Type} (p : A -> bool) (l : list A) :
  (List.length (filter p l) + List.length (filter (fun a => negb (p a)) l)
   = List.length l)%nat.
Proof.
  induction l as [|a l IH]; [reflexivity|].
  cbn [filter]. destruct (p a); cbn [negb List.length]; lia.
Qed.










